(** * release.py: file selection and upload orchestration

    A shallow embedding of [release.py], the release helper that drives the
    GitHub command-line client [gh], and the properties of its planner,
    tag resolver and upload orchestrators.

    Conventions of the embedding.
    - A Python [str] is a [string]; each character of the string stands for
      one code point below 256, so whitespace and case folding follow
      Python's rules on that range.
    - A [pathlib.Path] found by a glob in the working directory is modelled
      by its textual form (it has no directory part and is already normal).
    - Lists that the program shares between names live in an explicit store
      where a property depends on it ([add_sha_files_ref]); elsewhere the
      lists are values.
    - Terminal input, printed output and every invocation of the external
      client are recorded in one trace; the client and the file system are
      oracles of the [world].
    - The oracles are total: the embedding covers the runs in which the
      client can be started and its output decoded, and in which every file
      that the scan lists can be measured.  The exceptions that the operating
      system raises otherwise ([FileNotFoundError], [UnicodeDecodeError])
      are not represented, and no property speaks of them.
    - [int] is that of CPython 3.11 and later with its default settings: a
      numeral of more than 4300 digits raises [ValueError]. *)

From Stdlib Require Import ZArith Ascii String DecimalString DecimalNat.
From stdpp Require Import base tactics option list sorting gmap strings.

Local Open Scope Z_scope.

(** ** Strings as Python sees them *)

Module Py.

(** [str.isspace] on code points below 256: the ASCII separators, the
    information separators 0x1c-0x1f, NEL (0x85) and NBSP (0xa0). *)
Definition isspace (c : ascii) : bool :=
  let n := N_of_ascii c in
  ((9 <=? n) && (n <=? 13) || (28 <=? n) && (n <=? 32)
   || (n =? 133) || (n =? 160))%N.

(** [c in "0123456789"], with the digit's value. *)
Definition digit (c : ascii) : option Z :=
  let n := N_of_ascii c in
  if ((48 <=? n) && (n <=? 57))%N then Some (Z.of_N n - 48) else None.

Definition isdigit (c : ascii) : bool :=
  match digit c with Some _ => true | None => false end.

(** [str.lower] on one code point: A-Z, and the Latin-1 capitals
    0xc0-0xde except the multiplication sign 0xd7. *)
Definition lower_char (c : ascii) : ascii :=
  let n := N_of_ascii c in
  if ((65 <=? n) && (n <=? 90)
      || (192 <=? n) && (n <=? 222) && negb (n =? 215))%N
  then ascii_of_N (n + 32) else c.

Fixpoint lower (s : string) : string :=
  match s with
  | EmptyString => EmptyString
  | String c r => String (lower_char c) (lower r)
  end.

(** [s.startswith(p)] *)
Fixpoint startswith (p s : string) : bool :=
  match p, s with
  | EmptyString, _ => true
  | String a p', String b s' => bool_decide (a = b) && startswith p' s'
  | String _ _, EmptyString => false
  end.

(** [s.endswith(p)] *)
Definition endswith (p s : string) : bool :=
  startswith (String.rev p) (String.rev s).

(** [p in s] for strings: some suffix of [s] starts with [p]. *)
Fixpoint contains (p s : string) : bool :=
  startswith p s ||
  match s with
  | EmptyString => false
  | String _ r => contains p r
  end.

(** [s.lstrip()], [s.rstrip()] and [s.strip()] *)
Fixpoint lstrip (s : string) : string :=
  match s with
  | String c r => if isspace c then lstrip r else s
  | EmptyString => EmptyString
  end.

Definition rstrip (s : string) : string := String.rev (lstrip (String.rev s)).

Definition strip (s : string) : string := rstrip (lstrip s).

(** [s.split()] without argument: the maximal runs of non-space
    characters.  [cur] holds the characters of the current run, newest first. *)
Fixpoint split_ws_go (cur : string) (s : string) : list string :=
  match s with
  | EmptyString =>
      match cur with EmptyString => [] | _ => [String.rev cur] end
  | String c r =>
      if isspace c
      then match cur with
           | EmptyString => split_ws_go EmptyString r
           | _ => String.rev cur :: split_ws_go EmptyString r
           end
      else split_ws_go (String c cur) r
  end.

Definition split_ws (s : string) : list string := split_ws_go EmptyString s.

(** [s.split(sep)] for a one-character separator: every occurrence cuts,
    empty pieces are kept, the result is never empty. *)
Fixpoint split_char_go (sep : ascii) (cur : string) (s : string) : list string :=
  match s with
  | EmptyString => [String.rev cur]
  | String c r =>
      if bool_decide (c = sep)
      then String.rev cur :: split_char_go sep EmptyString r
      else split_char_go sep (String c cur) r
  end.

Definition split_char (sep : ascii) (s : string) : list string :=
  split_char_go sep EmptyString s.

(** [s.split(sep)] for a separator of one character or more: the
    occurrences are found from the left and do not overlap.  [skip] counts
    the characters of a separator still to be passed. *)
Fixpoint split_str_go (sep : string) (skip : nat) (cur : string) (s : string)
  : list string :=
  match s with
  | EmptyString => [String.rev cur]
  | String c r =>
      match skip with
      | S k => split_str_go sep k cur r
      | O =>
          if startswith sep s
          then String.rev cur :: split_str_go sep (String.length sep - 1) EmptyString r
          else split_str_go sep O (String c cur) r
      end
  end.

Definition split_str (sep : string) (s : string) : list string :=
  split_str_go sep O EmptyString s.

(** [sep.join(l)] *)
Fixpoint join (sep : string) (l : list string) : string :=
  match l with
  | [] => EmptyString
  | [x] => x
  | x :: r => x +:+ sep +:+ join sep r
  end.

(** The digits of [int(s)]: one or more decimal digits, a single
    underscore allowed between two digits.  [prev] tells whether the previous
    character was a digit. *)
Fixpoint int_digits (acc : Z) (prev : bool) (s : string) : option Z :=
  match s with
  | EmptyString => if prev then Some acc else None
  | String c r =>
      match digit c with
      | Some d => int_digits (10 * acc + d) true r
      | None =>
          if bool_decide (c = "_"%char) && prev
          then match r with
               | String c' _ => if isdigit c' then int_digits acc false r else None
               | EmptyString => None
               end
          else None
      end
  end.

(** The white space that [int] drops around a numeral: that of
    [str.isspace] without the information separators 0x1c-0x1f, which
    [int] refuses. *)
Definition int_space (c : ascii) : bool :=
  let n := N_of_ascii c in
  ((9 <=? n) && (n <=? 13) || (n =? 32) || (n =? 133) || (n =? 160))%N.

Fixpoint int_lstrip (s : string) : string :=
  match s with
  | String c r => if int_space c then int_lstrip r else s
  | EmptyString => EmptyString
  end.

Definition int_strip (s : string) : string :=
  String.rev (int_lstrip (String.rev (int_lstrip s))).

(** The limit of [int] on the digits of a decimal numeral,
    [sys.int_info.default_max_str_digits] of CPython 3.11 and later. *)
Definition max_str_digits : nat := 4300.

(** The digits of a numeral: leading zeros count, underscores do not. *)
Fixpoint count_digits (s : string) : nat :=
  match s with
  | EmptyString => O
  | String c r => ((if isdigit c then 1 else 0) + count_digits r)%nat
  end.

(** The value of a numeral without sign: [None] for a numeral of more
    than [max_str_digits] digits, which [int] refuses, and for a text that
    is no numeral. *)
Definition int_numeral (s : string) : option Z :=
  if (max_str_digits <? count_digits s)%nat then None
  else int_digits 0 false s.

(** [int(s)]: the white space around the numeral is dropped, one sign is
    allowed; [None] stands for [ValueError]. *)
Definition int (s : string) : option Z :=
  match int_strip s with
  | String "+" r => int_numeral r
  | String "-" r => Z.opp <$> int_numeral r
  | r => int_numeral r
  end.

(** [str(n)] for a natural number: its decimal digits. *)
Definition str (n : nat) : string :=
  NilEmpty.string_of_uint (Nat.to_uint n).

(** [str(z)] for an integer. *)
Definition str_int (z : Z) : string :=
  if (z <? 0)%Z then String "-" (str (Z.to_nat (- z))) else str (Z.to_nat z).

End Py.

(** ** Selection planner: checksum attachment *)

(** The checksum path [f"{zip_file}.sha256sum"] of an archive. *)
Definition sha_of (zip_file : string) : string := zip_file +:+ ".sha256sum".

(** [get_matching_sha]: the checksum path of an archive, when the scan
    found it. *)
Definition get_matching_sha (zip_file : string) (sha_files : list string)
  : option string :=
  let sha_path := sha_of zip_file in
  if bool_decide (sha_path ∈ sha_files) then Some sha_path else None.

(** [add_sha_files]: [result] starts as a copy of the selection and the
    loop over the archives appends to it. *)
Definition add_sha_files (files_to_release zip_files sha_files : list string)
  : list string :=
  foldl (fun result zip_file =>
           if bool_decide (zip_file ∈ files_to_release)
           then match get_matching_sha zip_file sha_files with
                | Some sha_file => result ++ [sha_file]
                | None => result
                end
           else result)
        files_to_release zip_files.

(** The same function over a store of list objects, as the interpreter runs
    it: the three arguments are references (possibly to one object),
    [copy] allocates, [append] writes in place. *)
Module Store.

Definition copy (l : nat) (h : gmap nat (list string))
  : option (nat * gmap nat (list string)) :=
  match h !! l with
  | Some xs => let r := fresh (dom h) in Some (r, <[r := xs]> h)
  | None => None
  end.

Definition append (l : nat) (x : string) (h : gmap nat (list string))
  : option (gmap nat (list string)) :=
  match h !! l with
  | Some xs => Some (<[l := xs ++ [x]]> h)
  | None => None
  end.

(** One turn of the loop body of [add_sha_files] for the archive
    [zip_file]; the membership tests read the store as it is then. *)
Definition add_sha_step (files_to_release sha_files result : nat)
    (zip_file : string) (h : gmap nat (list string))
  : option (gmap nat (list string)) :=
  match h !! files_to_release, h !! sha_files with
  | Some fs, Some ss =>
      if bool_decide (zip_file ∈ fs)
      then match get_matching_sha zip_file ss with
           | Some sha_file => append result sha_file h
           | None => Some h
           end
      else Some h
  | _, _ => None
  end.

Fixpoint add_sha_loop (files_to_release sha_files result : nat)
    (zs : list string) (h : gmap nat (list string))
  : option (gmap nat (list string)) :=
  match zs with
  | [] => Some h
  | zip_file :: zs' =>
      match add_sha_step files_to_release sha_files result zip_file h with
      | Some h' => add_sha_loop files_to_release sha_files result zs' h'
      | None => None
      end
  end.

(** [add_sha_files] on references.  The loop walks the contents of
    [zip_files]; no turn writes to that object ([result] is fresh), so the
    contents read at loop entry are the ones the iteration sees. *)
Definition add_sha_files_ref (files_to_release zip_files sha_files : nat)
    (h : gmap nat (list string)) : option (nat * gmap nat (list string)) :=
  match copy files_to_release h with
  | Some (result, h1) =>
      match h1 !! zip_files with
      | Some zs =>
          match add_sha_loop files_to_release sha_files result zs h1 with
          | Some h2 => Some (result, h2)
          | None => None
          end
      | None => None
      end
  | None => None
  end.

End Store.

(** ** Selection planner: the manual selector *)

(** [l[i]] with Python's negative indices; [None] is [IndexError]. *)
Definition py_index {A} (l : list A) (i : Z) : option A :=
  let n := Z.of_nat (length l) in
  if (0 <=? i) && (i <? n) then l !! Z.to_nat i
  else if (- n <=? i) && (i <? 0) then l !! Z.to_nat (n + i)
  else None.

(** [sorted(set(l))] on integers. *)
Definition sorted_set (l : list Z) : list Z := merge_sort Z.le (remove_dups l).

(** One token of the selector: the indices it adds to [selected_indices]
    and the warnings it prints.  [n] is [len(all_files)]. *)
Definition parse_part (n : Z) (part : string) : list Z * list string :=
  if Py.contains "-" part then
    match Py.split_char "-" part with
    | [a; b] =>
        match Py.int a, Py.int b with
        | Some start, Some stop =>
            let start_idx := start - 1 in
            let end_idx := stop - 1 in
            if (0 <=? start_idx) && (start_idx <=? end_idx) && (end_idx <? n)
            then (seqZ start_idx (end_idx + 1 - start_idx), [])
            else ([], ["Warning: Invalid range " +:+ part +:+ ", skipping."])
        | _, _ =>
            ([], ["Warning: Invalid range format '" +:+ part +:+ "', skipping."])
        end
    | _ => ([], ["Warning: Invalid range format '" +:+ part +:+ "', skipping."])
    end
  else
    match Py.int part with
    | Some k =>
        let idx := k - 1 in
        if (0 <=? idx) && (idx <? n)
        then ([idx], [])
        else ([], ["Warning: File number " +:+ part +:+ " out of range, skipping."])
    | None => ([], ["Warning: Invalid number '" +:+ part +:+ "', skipping."])
    end.

(** The loop over [selected.split()]: indices and warnings accumulate in
    token order. *)
Definition parse_parts (n : Z) (parts : list string) : list Z * list string :=
  foldl (fun acc part =>
           let '(idxs, warns) := parse_part n part in
           (acc.1 ++ idxs, acc.2 ++ warns))
        ([], []) parts.

(** The files picked by the indices, [None] when an index raises. *)
Definition pick_files (all_files : list string) (idxs : list Z)
  : option (list string) :=
  mapM (py_index all_files) idxs.

(** What kind of selection a non-blank selector made. *)
Inductive manual_result :=
| Selected (files : list string)      (* some valid index *)
| NoValid                             (* no valid index: all files *)
| Failed.                             (* an exception: all files *)

Definition manual_pick (all_files : list string) (selected : string)
  : manual_result * list string :=
  let '(idxs, warns) :=
    parse_parts (Z.of_nat (length all_files)) (Py.split_ws selected) in
  match pick_files all_files (sorted_set idxs) with
  | Some [] => (NoValid, warns)
  | Some files => (Selected files, warns)
  | None => (Failed, warns)
  end.

(** ** The process and its environment *)

(** Uncaught exceptions of the interpreter that the program can meet. *)
Inductive exn :=
| EOFError | IndexError | KeyError | ValueError | ZeroDivisionError.

(** The result of a computation: a value, an exception that nothing
    caught, or a loop on the client's answers that has not ended within
    the steps allowed. *)
Inductive outcome (A : Type) :=
| Ok (a : A)
| Raise (e : exn)
| Diverge.
Arguments Ok {A} a.
Arguments Raise {A} e.
Arguments Diverge {A}.

(** What one run of the external client gives back.  [slow] tells that the
    process was still running one second after its start, so that the
    progress estimate was computed at least once. *)
Record response := mkResponse {
  exit_code : Z;
  stdout : string;
  stderr : string;
  slow : bool
}.

(** What the terminal and the client see, in the order of the run.  Of the
    printed text the trace keeps the lines that report an error, a warning,
    a decision or a result, without their leading blank lines; menus,
    banners, hints and the simulated progress bar are left out.  The lines
    that print byte counts are kept with the numbers they format.
    [EvCall] is not an output: it marks the point where a front end hands
    a file list to an orchestrator. *)
Inductive event :=
| EvPrint (text : string)
| EvInput (prompt : string)
| EvRun (cmd : list string)
| EvTotalUpload (total_size : N) (count : nat)
| EvFileDone (index count : nat) (file_name : string)
| EvOverall (total_uploaded total_size : N)
| EvAllUploaded (count : nat) (total_size : N)
| EvCall (callee : string) (files : list string).

(** The environment: the client answers a command knowing everything
    that happened before; [glob] lists the working directory by pattern;
    [getsize] is [os.path.getsize] on files the scan has listed. *)
Record world := mkWorld {
  client : list event -> list string -> response;
  glob : string -> list string;
  getsize : string -> N
}.

(** The lines still to be typed and the trace, newest event first. *)
Record state := mkState {
  stdin : list string;
  trace : list event
}.

Definition M (A : Type) : Type := state -> outcome A * state.

Definition ret {A} (a : A) : M A := fun s => (Ok a, s).

Definition bind {A B} (m : M A) (f : A -> M B) : M B :=
  fun s =>
    match m s with
    | (Ok a, s') => f a s'
    | (Raise e, s') => (Raise e, s')
    | (Diverge, s') => (Diverge, s')
    end.

Notation "x <- m ;; k" := (bind m (fun x => k))
  (at level 100, m at next level, right associativity, only parsing).
Notation "m ;;; k" := (bind m (fun _ => k))
  (at level 100, right associativity, only parsing).

Definition raise {A} (e : exn) : M A := fun s => (Raise e, s).

Definition diverge {A} : M A := fun s => (Diverge, s).

Definition log (e : event) : M unit :=
  fun s => (Ok tt, mkState (stdin s) (e :: trace s)).

Definition print (text : string) : M unit := log (EvPrint text).

(** The call of the orchestrator [callee] with the plan [files]: the call
    is marked in the trace, then the orchestrator runs. *)
Definition handing {A} (callee : string) (files : list string) (m : M A) : M A :=
  bind (log (EvCall callee files)) (fun _ => m).

(** [input(prompt)]: the prompt is written, then a line is read;
    the end of the input raises. *)
Definition input (prompt : string) : M string :=
  fun s =>
    match stdin s with
    | [] => (Raise EOFError, mkState [] (EvInput prompt :: trace s))
    | line :: rest => (Ok line, mkState rest (EvInput prompt :: trace s))
    end.

(** A process is started and awaited. *)
Definition popen (w : world) (cmd : list string) : M response :=
  fun s => (Ok (client w (trace s) cmd), mkState (stdin s) (EvRun cmd :: trace s)).

(** [run_command(cmd, check=False)] *)
Definition run_command (w : world) (cmd : list string) : M (string * Z) :=
  r <- popen w cmd ;;
  ret (Py.strip (stdout r), exit_code r).

(** The loops of the form [while not valid(x): x = input(prompt)]: lines
    are read until one is accepted; [complaint] is printed after a line
    that is not. *)
Fixpoint ask_loop {A} (prompt : string) (accept : string -> option A)
    (complaint : option string) (lines : list string) (tr : list event)
  : outcome A * state :=
  match lines with
  | [] => (Raise EOFError, mkState [] (EvInput prompt :: tr))
  | line :: rest =>
      match accept line with
      | Some a => (Ok a, mkState rest (EvInput prompt :: tr))
      | None =>
          ask_loop prompt accept complaint rest
            (match complaint with
             | Some text => EvPrint text :: EvInput prompt :: tr
             | None => EvInput prompt :: tr
             end)
      end
  end.

Definition ask_until {A} (prompt : string) (accept : string -> option A)
    (complaint : option string) : M A :=
  fun s => ask_loop prompt accept complaint (stdin s) (trace s).

(** The exit status of the process: [sys.exit] of the value [main]
    returned, 1 after an uncaught exception, none while the run goes on. *)
Definition exit_status (o : outcome Z) : option Z :=
  match o with
  | Ok n => Some n
  | Raise _ => Some 1
  | Diverge => None
  end.

Definition nl : string := String (ascii_of_nat 10) EmptyString.
Definition dq : string := String (ascii_of_nat 34) EmptyString.
Definition tab : ascii := ascii_of_nat 9.

(** ** Release target resolver *)

(** [check_tag_exists] *)
Definition check_tag_exists (w : world) (tag : string) : M bool :=
  r <- run_command w ["gh"; "release"; "view"; tag] ;;
  ret (r.2 =? 0).

(** [f"{tag}-v{version}"] *)
Definition versioned (tag : string) (version : nat) : string :=
  tag +:+ "-v" +:+ Py.str version.

(** The loop [while check_tag_exists(f"{tag}-v{version}"): version += 1]. *)
Fixpoint next_version (w : world) (fuel : nat) (tag : string) (version : nat)
  : M nat :=
  match fuel with
  | O => diverge
  | S fuel' =>
      taken <- check_tag_exists w (versioned tag version) ;;
      if taken then next_version w fuel' tag (S version) else ret version
  end.

(** [get_unique_tag] *)
Definition get_unique_tag (w : world) (fuel : nat) (tag : string) : M string :=
  taken <- check_tag_exists w tag ;;
  if negb taken then ret tag
  else
    print ("Warning: A release with tag " +:+ dq +:+ tag +:+ dq
           +:+ " already exists.") ;;;
    version <- next_version w fuel tag 2 ;;
    let new_tag := versioned tag version in
    print ("Using new tag: " +:+ new_tag) ;;;
    ret new_tag.

(** [os.path.basename] *)
Definition basename (p : string) : string :=
  default EmptyString (last (Py.split_char "/" p)).

(** The pattern [(.*?-.*?-\d+).*] of [extract_tag_from_zip].
    [take_digits] is the greedy [\d+]; [tag_tail] matches [.*?-\d+] at the
    head of its argument and [tag_head] matches [.*?-.*?-\d+]; a lazy star
    first tries to stop, then takes one more character, never a newline. *)
Fixpoint take_digits (s : string) : string :=
  match s with
  | String c r => if Py.isdigit c then String c (take_digits r) else EmptyString
  | EmptyString => EmptyString
  end.

Fixpoint tag_tail (s : string) : option string :=
  match s with
  | EmptyString => None
  | String c r =>
      match (if bool_decide (c = "-"%char) then take_digits r else EmptyString) with
      | String d ds => Some (String c (String d ds))
      | EmptyString =>
          if bool_decide (c = ascii_of_nat 10) then None
          else String c <$> tag_tail r
      end
  end.

Fixpoint tag_head (s : string) : option string :=
  match s with
  | EmptyString => None
  | String c r =>
      match (if bool_decide (c = "-"%char) then tag_tail r else None) with
      | Some m => Some (String c m)
      | None =>
          if bool_decide (c = ascii_of_nat 10) then None
          else String c <$> tag_head r
      end
  end.

(** [re.search]: the first position where the pattern matches. *)
Fixpoint re_search_tag (s : string) : option string :=
  match tag_head s with
  | Some m => Some m
  | None =>
      match s with
      | EmptyString => None
      | String _ r => re_search_tag r
      end
  end.

(** [extract_tag_from_zip] *)
Definition extract_tag_from_zip (zip_file : string) : option string :=
  re_search_tag (basename zip_file).

(** ** Prompts *)

(** [get_confirmation] *)
Definition get_confirmation (auto_confirm : bool) : M bool :=
  if auto_confirm then ret true
  else
    ask_until "Execute this command? (Y/N): "
      (fun line =>
         let response := Py.lower line in
         if bool_decide (response = "y") then Some true
         else if bool_decide (response = "n") then Some false
         else None)
      (Some "Please enter Y or N").

(** The loop of [get_user_notes]: at most [count] more notes are read. *)
Fixpoint read_notes (count : nat) (i : nat) (notes : list string)
  : M (list string) :=
  match count with
  | O => ret notes
  | S count' =>
      note <- input ("Note " +:+ Py.str i +:+ ": ") ;;
      if bool_decide (note = EmptyString) || bool_decide (Py.lower note = "done")
      then ret notes
      else read_notes count' (S i) (notes ++ ["- " +:+ note])
  end.

(** [get_user_notes] *)
Definition get_user_notes (interactive : bool) : M string :=
  if negb interactive then ret "- Auto-generated release"
  else
    notes <- read_notes 5 0 [] ;;
    match notes with
    | [] => ret "- Auto-generated release"
    | _ => ret (Py.join nl notes)
    end.

(** ** Checks made before any work *)

(** [check_github_auth] *)
Definition check_github_auth (w : world) : M bool :=
  r <- run_command w ["gh"; "auth"; "status"] ;;
  let result := r.1 in
  if negb (r.2 =? 0) then
    print "Error: GitHub CLI is not authenticated properly." ;;;
    print result ;;;
    print "Please run 'gh auth login' to authenticate before using this script." ;;;
    ret false
  else if Py.contains "Token scopes" result then
    match Py.split_str "Token scopes:" result !! 1%nat with
    | None => raise IndexError
    | Some rest =>
        let scopes := Py.strip (default EmptyString (head (Py.split_str nl rest))) in
        if negb (Py.contains "repo" (Py.lower scopes)) then
          print "Warning: Your GitHub token may not have required 'repo' scope." ;;;
          print ("Current scopes: " +:+ scopes) ;;;
          proceed <- input "Do you want to proceed anyway? (y/N): " ;;
          if negb (bool_decide (Py.lower proceed = "y")) then ret false
          else print " OK!" ;;; ret true
        else print " OK!" ;;; ret true
    end
  else print " OK!" ;;; ret true.

(** [check_repository_access]; [result.splitlines()[0]] raises on an
    empty answer. *)
Definition check_repository_access (w : world) : M bool :=
  r <- run_command w ["gh"; "repo"; "view"] ;;
  let result := r.1 in
  if negb (r.2 =? 0) then
    print "Error: Cannot access repository." ;;;
    print result ;;;
    ret false
  else
    match result with
    | EmptyString => raise IndexError
    | _ => ret true
    end.

(** ** Artifact scanner *)

(** [find_files_by_extension] *)
Definition find_files_by_extension (w : world) (extensions : list string)
  : list string :=
  concat ((fun ext => glob w ("*." +:+ ext)) <$> extensions).

(** ** Recent releases *)

Record release := mkRelease {
  rel_file : string;
  rel_tag : string;
  rel_title : string;
  rel_date : string
}.

(** One line of the release list: nothing for a blank or short line;
    [parts[2].strip().split()[0]] raises when the third column is blank. *)
Definition parse_release_line (line : string) : option (list release) :=
  if bool_decide (Py.strip line = EmptyString) then Some []
  else
    let parts := Py.split_char tab line in
    match parts with
    | p0 :: p1 :: p2 :: more =>
        match Py.split_ws (Py.strip p2) with
        | [] => None
        | tag :: _ =>
            let date := match more with
                        | p3 :: _ => Py.strip p3
                        | [] => "Unknown"
                        end in
            Some [mkRelease (Py.strip p0) tag (Py.strip p1) date]
        end
    | _ => Some []
    end.

Fixpoint parse_release_lines (lines : list string) : option (list release) :=
  match lines with
  | [] => Some []
  | line :: rest =>
      match parse_release_line line with
      | None => None
      | Some here =>
          match parse_release_lines rest with
          | None => None
          | Some later => Some (here ++ later)
          end
      end
  end.

(** [fetch_recent_releases] *)
Definition fetch_recent_releases (w : world) (limit : nat) : M (list release) :=
  r <- run_command w ["gh"; "release"; "list"; "--limit"; Py.str limit] ;;
  if negb (r.2 =? 0) then
    print "Error: Failed to fetch recent releases." ;;;
    print r.1 ;;;
    ret []
  else
    match parse_release_lines (Py.split_str nl (Py.strip r.1)) with
    | None => raise IndexError
    | Some releases => ret releases
    end.

(** ** Selection planner: the menu *)

Fixpoint print_all (texts : list string) : M unit :=
  match texts with
  | [] => ret tt
  | text :: rest => print text ;;; print_all rest
  end.

(** [select_files_for_release] *)
Definition select_files_for_release (zip_files img_files sha_files : list string)
  : M (list string) :=
  choice <- ask_until "Choose release option (1-4): "
              (fun line => if bool_decide (line ∈ ["1"; "2"; "3"; "4"])
                           then Some line else None)
              None ;;
  files_to_release <-
    (if bool_decide (choice = "1") then ret (zip_files ++ img_files)
     else if bool_decide (choice = "2") then ret img_files
     else if bool_decide (choice = "3") then ret zip_files
     else
       let all_files := zip_files ++ img_files in
       selected <- input "Select files: " ;;
       if bool_decide (Py.strip selected = EmptyString) then
         print "No selection made - using all files." ;;;
         ret (zip_files ++ img_files)
       else
         let picked := manual_pick all_files selected in
         print_all picked.2 ;;;
         match picked.1 with
         | Selected files =>
             print ("Selected " +:+ Py.str (length files) +:+ " file(s):") ;;;
             ret files
         | NoValid =>
             print "No valid selections - using all files." ;;;
             ret (zip_files ++ img_files)
         | Failed =>
             print "Error processing selection: list index out of range" ;;;
             print "Using all files." ;;;
             ret (zip_files ++ img_files)
         end) ;;
  ret (add_sha_files files_to_release zip_files sha_files).

(** ** Upload orchestrator *)

Definition max_retries : nat := 3.

(** [{file: os.path.getsize(file) for file in files}] *)
Definition size_table (w : world) (files : list string) : gmap string N :=
  foldl (fun d file => <[file := getsize w file]> d) ∅ files.

(** [sum(file_sizes.values())] *)
Definition sum_values (d : gmap string N) : N :=
  map_fold (fun _ v acc => (v + acc)%N) 0%N d.

(** [cmd.index(flag) + 1 if flag in cmd else -1] *)
Fixpoint list_index (x : string) (l : list string) : option nat :=
  match l with
  | [] => None
  | y :: r => if bool_decide (y = x) then Some O else S <$> list_index x r
  end.

Definition option_index (flag : string) (cmd : list string) : Z :=
  match list_index flag cmd with
  | Some i => Z.of_nat i + 1
  | None => -1
  end.

(** [cmd.extend([flag, cmd[i]])] when [i > 0]; [None] is [IndexError]. *)
Definition extend_option (flag : string) (i : Z) (cmd acc : list string)
  : option (list string) :=
  if 0 <? i
  then match py_index cmd i with
       | Some v => Some (acc ++ [flag; v])
       | None => None
       end
  else Some acc.

(** The error text of a failed upload names an authentication or
    permission problem. *)
Definition auth_indicator (text : string) : bool :=
  Py.contains "authentication" (Py.lower text)
  || Py.contains "permission" (Py.lower text).

(** *** Uploading to an existing release *)

(** The loop [for attempt in range(1, max_retries + 1)] for one file.
    The result is [total_uploaded] and [success]. *)
Fixpoint upload_attempts (w : world) (upload_cmd : list string)
    (file_name : string) (file_index count : nat) (file_size total_size : N)
    (attempts : list nat) (total_uploaded : N) : M (N * bool) :=
  match attempts with
  | [] => ret (total_uploaded, true)
  | attempt :: later =>
      (if (1 <? attempt)%nat
       then print ("Retrying upload (" +:+ Py.str attempt +:+ "/"
                   +:+ Py.str max_retries +:+ ")...")
       else ret tt) ;;;
      r <- run_command w upload_cmd ;;
      if r.2 =? 0 then
        let total_uploaded := (total_uploaded + file_size)%N in
        if (total_size =? 0)%N then raise ZeroDivisionError
        else
          log (EvFileDone (S file_index) count file_name) ;;;
          log (EvOverall total_uploaded total_size) ;;;
          ret (total_uploaded, true)
      else if (attempt =? max_retries)%nat then
        print ("Error uploading file " +:+ file_name +:+ ":") ;;;
        print r.1 ;;;
        print ("Failed after " +:+ Py.str max_retries +:+ " attempts.") ;;;
        ret (total_uploaded, false)
      else
        upload_attempts w upload_cmd file_name file_index count file_size
          total_size later total_uploaded
  end.

(** The loop over the files; it stops at the first file that failed. *)
Fixpoint upload_each (w : world) (tag : string) (file_sizes : gmap string N)
    (total_size : N) (count : nat) (files : list string) (file_index : nat)
    (total_uploaded : N) : M (N * bool) :=
  match files with
  | [] => ret (total_uploaded, true)
  | file :: later =>
      match file_sizes !! file with
      | None => raise KeyError
      | Some file_size =>
          res <- upload_attempts w ["gh"; "release"; "upload"; tag; file]
                   (basename file) file_index count file_size total_size
                   (seq 1 max_retries) total_uploaded ;;
          if res.2
          then upload_each w tag file_sizes total_size count later
                 (S file_index) res.1
          else ret (res.1, false)
      end
  end.

(** [upload_to_existing_release] *)
Definition upload_to_existing_release (w : world) (tag : string)
    (files_to_release : list string) : M bool :=
  checked <-
    (if Py.endswith ".zip" tag || Py.endswith ".img" tag
        || Py.endswith ".sha256sum" tag
     then
       print ("ERROR: '" +:+ tag +:+ "' appears to be a filename, not a release tag!") ;;;
       correct_tag <- input "Please enter the correct release tag: " ;;
       if bool_decide (correct_tag = EmptyString) then
         print "Operation cancelled - no tag provided." ;;;
         ret None
       else ret (Some correct_tag)
     else ret (Some tag)) ;;
  match checked with
  | None => ret false
  | Some tag =>
      r <- run_command w ["gh"; "release"; "view"; tag] ;;
      if negb (r.2 =? 0) then
        print ("Error: Release with tag '" +:+ tag +:+ "' does not exist.") ;;;
        print r.1 ;;;
        ret false
      else
        confirmed <- get_confirmation false ;;
        if confirmed then
          let file_paths := files_to_release in
          let file_sizes := size_table w file_paths in
          let total_size := sum_values file_sizes in
          log (EvTotalUpload total_size (length file_paths)) ;;;
          res <- upload_each w tag file_sizes total_size (length file_paths)
                   file_paths O 0%N ;;
          if res.2 then
            log (EvAllUploaded (length file_paths) total_size) ;;;
            ret true
          else
            print "Upload process failed." ;;;
            ret false
        else
          print "Operation cancelled by user." ;;;
          ret false
  end.

(** *** Creating a release, then uploading *)

(** How the retry loop of one file ended. *)
Inductive attempt_result :=
| Uploaded                              (* [break] on exit code 0 *)
| Exhausted                             (* [retry_count == max_retries] *)
| Aborted (text : string) (code : Z).   (* [return stderr, exit_code] *)

(** The loop [while retry_count < max_retries] for one file; [left] is
    [max_retries - retry_count].  A client that exits with 0 leaves the loop
    at once; the statements that add to [total_uploaded] and print the
    overall line follow the branch that counts a retry. *)
Fixpoint create_attempts (w : world) (upload_cmd : list string)
    (file_name : string) (file_index count : nat) (file_size total_size : N)
    (left : nat) (total_uploaded : N) : M (N * attempt_result) :=
  match left with
  | O => ret (total_uploaded, Exhausted)
  | S left' =>
      r <- popen w upload_cmd ;;
      if slow r && (file_size =? 0)%N then raise ZeroDivisionError
      else if exit_code r =? 0 then ret (total_uploaded, Uploaded)
      else if auth_indicator (stderr r) then
        let retry_count := (max_retries - left')%nat in
        print ("Authentication issue. Retrying (" +:+ Py.str retry_count
               +:+ "/" +:+ Py.str max_retries +:+ ")...") ;;;
        let total_uploaded := (total_uploaded + file_size)%N in
        log (EvFileDone (S file_index) count file_name) ;;;
        if (total_size =? 0)%N then raise ZeroDivisionError
        else
          log (EvOverall total_uploaded total_size) ;;;
          create_attempts w upload_cmd file_name file_index count file_size
            total_size left' total_uploaded
      else
        print ("Error uploading file " +:+ file_name +:+ ": " +:+ stderr r) ;;;
        ret (total_uploaded, Aborted (stderr r) (exit_code r))
  end.

(** The loop over the files.  The result is [total_uploaded] and, when the
    function returns from inside the loop, the pair it returns. *)
Fixpoint create_upload_each (w : world) (tag : string)
    (file_sizes : gmap string N) (total_size : N) (count : nat)
    (files : list string) (file_index : nat) (total_uploaded : N)
  : M (N * option (string * Z)) :=
  match files with
  | [] => ret (total_uploaded, None)
  | file :: later =>
      match file_sizes !! file with
      | None => raise KeyError
      | Some file_size =>
          res <- create_attempts w ["gh"; "release"; "upload"; tag; file]
                   (basename file) file_index count file_size total_size
                   max_retries total_uploaded ;;
          match res.2 with
          | Aborted text code => ret (res.1, Some (text, code))
          | Exhausted =>
              print ("Failed to upload " +:+ basename file +:+ " after "
                     +:+ Py.str max_retries +:+ " attempts.") ;;;
              ret (res.1, Some ("Authentication failure", 1))
          | Uploaded =>
              create_upload_each w tag file_sizes total_size count later
                (S file_index) res.1
          end
      end
  end.

(** [create_release_with_progress] *)
Definition create_release_with_progress (w : world) (cmd : list string)
    (files_to_release : list string) : M (string * Z) :=
  let file_sizes := size_table w files_to_release in
  let total_size := sum_values file_sizes in
  log (EvTotalUpload total_size (length files_to_release)) ;;;
  let title_index := option_index "--title" cmd in
  let notes_index := option_index "--notes" cmd in
  match cmd !! 3%nat with
  | None => raise IndexError
  | Some tag =>
      match extend_option "--notes" notes_index cmd ["gh"; "release"; "create"; tag] with
      | None => raise IndexError
      | Some with_notes =>
          match extend_option "--title" title_index cmd with_notes with
          | None => raise IndexError
          | Some create_cmd =>
              r <- popen w create_cmd ;;
              if negb (exit_code r =? 0) then
                print ("Error creating release (exit code "
                       +:+ Py.str_int (exit_code r) +:+ ")") ;;;
                print ("STDOUT: " +:+ stdout r) ;;;
                print ("STDERR: " +:+ stderr r) ;;;
                info <- run_command w ["gh"; "auth"; "status"] ;;
                print ("GitHub auth status: " +:+ info.1) ;;;
                (if Py.contains "Unauthorized" (stderr r)
                    || Py.contains "authentication" (Py.lower (stderr r))
                 then print "Authentication error: Your GitHub token might be expired or invalid."
                 else if Py.contains "already exists" (Py.lower (stderr r))
                 then print "A release with this tag already exists. Choose a different tag name."
                 else if Py.contains "permission" (Py.lower (stderr r))
                 then print "Permission error: You might not have write access to this repository."
                 else ret tt) ;;;
                ret ("Creation failed: " +:+ stderr r, exit_code r)
              else
                res <- create_upload_each w tag file_sizes total_size
                         (length files_to_release) files_to_release O 0%N ;;
                match res.2 with
                | Some returned => ret returned
                | None =>
                    log (EvAllUploaded (length files_to_release) total_size) ;;;
                    ret ("Success", 0)
                end
          end
      end
  end.

(** [create_release_with_direct_command] *)
Definition create_release_with_direct_command (w : world) (cmd : list string)
    (files_to_release : list string) : M (string * Z) :=
  match cmd !! 3%nat with
  | None => raise IndexError
  | Some tag =>
      let title_index := option_index "--title" cmd in
      let notes_index := option_index "--notes" cmd in
      match extend_option "--title" title_index cmd
              (["gh"; "release"; "create"; tag] ++ files_to_release) with
      | None => raise IndexError
      | Some with_title =>
          match extend_option "--notes" notes_index cmd with_title with
          | None => raise IndexError
          | Some direct_cmd =>
              r <- run_command w direct_cmd ;;
              if negb (r.2 =? 0) then
                print ("Error creating release (exit code "
                       +:+ Py.str_int r.2 +:+ ")") ;;;
                print ("Output: " +:+ r.1) ;;;
                (if Py.contains "HTTP 403" r.1
                 then print "Permission error: Your GitHub token doesn't have sufficient permissions."
                 else ret tt) ;;;
                ret r
              else
                print "Release created successfully!" ;;;
                ret ("Success", 0)
          end
      end
  end.

(** ** Interactive shell *)

(** What [interactive_mode] does with the selection for an existing
    release. *)
Definition interactive_upload_files (w : world) (tag : string)
    (files_to_release : list string) : M Z :=
  match files_to_release with
  | [] =>
      print "Error: No files selected for release" ;;;
      _ <- input "Press Enter to continue..." ;;
      ret 1
  | _ =>
      done <- handing "upload_to_existing_release" files_to_release
                (upload_to_existing_release w tag files_to_release) ;;
      if done then
        _ <- input "Files uploaded successfully. Press Enter to continue..." ;;
        ret 0
      else
        _ <- input "Failed to upload files. Press Enter to continue..." ;;
        ret 1
  end.

(** The part of [interactive_mode] that uploads to an existing release,
    once the list of recent releases is known not to be empty. *)
Definition interactive_upload (w : world) (releases : list release)
    (zip_files img_files sha_files : list string) : M Z :=
  let valid_choices := Py.str <$> seq 1 (length releases + 1) in
  release_choice <- ask_until
                      ("Choose a release (1-" +:+ Py.str (length releases + 1) +:+ "): ")
                      (fun line => if bool_decide (line ∈ valid_choices)
                                   then Some line else None)
                      None ;;
  tag <-
    (if bool_decide (release_choice = Py.str (length releases + 1)) then
       first <- input "Enter release tag: " ;;
       if bool_decide (first = EmptyString)
       then ask_until "Tag cannot be empty. Enter release tag: "
              (fun line => if bool_decide (line = EmptyString)
                           then None else Some line)
              None
       else ret first
     else
       match Py.int release_choice with
       | None => raise ValueError
       | Some k =>
           match py_index releases (k - 1) with
           | None => raise IndexError
           | Some chosen => ret (rel_tag chosen)
           end
       end) ;;
  found <- check_tag_exists w tag ;;
  if negb found then
    print ("Error: Release with tag '" +:+ tag +:+ "' does not exist.") ;;;
    _ <- input "Press Enter to continue..." ;;
    ret 1
  else
    files_to_release <- select_files_for_release zip_files img_files sha_files ;;
    interactive_upload_files w tag files_to_release.

(** The command line that both front ends build for a new release. *)
Definition create_cmd_of (tag : string) (files_to_release : list string)
    (notes title : string) : list string :=
  ["gh"; "release"; "create"; tag] ++ files_to_release
    ++ ["--notes"; notes; "--title"; title].

(** The two lines that both front ends run after the confirmation: the
    first method, then the direct command when the first method returned a
    code other than 0. *)
Definition create_or_fall_back (w : world) (cmd files_to_release : list string)
  : M (string * Z) :=
  first <- handing "create_release_with_progress" files_to_release
             (create_release_with_progress w cmd files_to_release) ;;
  if negb (first.2 =? 0)
  then handing "create_release_with_direct_command" files_to_release
         (create_release_with_direct_command w cmd files_to_release)
  else ret first.

(** What [interactive_mode] does with the selection for a new release. *)
Definition interactive_create_files (w : world) (tag title notes : string)
    (files_to_release : list string) : M Z :=
  match files_to_release with
  | [] =>
      print "Error: No files selected for release" ;;;
      _ <- input "Press Enter to continue..." ;;
      ret 1
  | _ =>
      let cmd := create_cmd_of tag files_to_release notes title in
      confirmed <- get_confirmation false ;;
      if confirmed then
        final <- create_or_fall_back w cmd files_to_release ;;
        if final.2 =? 0 then
          print "Release created successfully." ;;;
          _ <- input "Press Enter to continue..." ;;
          ret 0
        else
          print ("Error: Failed to create release" +:+ nl +:+ final.1) ;;;
          _ <- input "Press Enter to continue..." ;;
          ret 1
      else
        _ <- input "Press Enter to continue..." ;;
        ret 0
  end.

(** The part of [interactive_mode] that creates a new release. *)
Definition interactive_create (w : world) (fuel : nat)
    (zip_files img_files sha_files : list string) : M Z :=
  named <-
    match zip_files with
    | zipname :: _ =>
        match extract_tag_from_zip zipname with
        | Some tag =>
            change_tag <- input "Do you want to use a different tag? (Y/N): " ;;
            if bool_decide (Py.lower change_tag = "y") then
              typed <- input "Enter release tag: " ;;
              ret (typed, zipname)
            else ret (tag, zipname)
        | None =>
            print "Could not extract tag from ZIP filename." ;;;
            typed <- input "Enter release tag: " ;;
            ret (typed, zipname)
        end
    | [] =>
        print "No ZIP files found. Please enter release information manually:" ;;;
        typed <- input "Enter release tag: " ;;
        title <- input "Enter release title: " ;;
        ret (typed, title)
    end ;;
  change_title <- input ("Current title: " +:+ named.2 +:+ nl
                         +:+ "Do you want to change it? (Y/N): ") ;;
  title <- (if bool_decide (Py.lower change_title = "y")
            then input "Enter release title: "
            else ret named.2) ;;
  tag <- get_unique_tag w fuel named.1 ;;
  notes <- get_user_notes true ;;
  files_to_release <- select_files_for_release zip_files img_files sha_files ;;
  interactive_create_files w tag title notes files_to_release.

(** [interactive_mode] *)
Definition interactive_mode (w : world) (fuel : nat) : M Z :=
  let zip_files := find_files_by_extension w ["zip"] in
  let img_files := find_files_by_extension w ["img"] in
  let sha_files := find_files_by_extension w ["sha256sum"] in
  match zip_files, img_files with
  | [], [] =>
      print "Error: No .img or .zip files found for release" ;;;
      _ <- input "Press Enter to continue..." ;;
      ret 1
  | _, _ =>
      action_choice <- ask_until "Choose an option (1-2): "
                         (fun line => if bool_decide (line ∈ ["1"; "2"])
                                      then Some line else None)
                         None ;;
      if bool_decide (action_choice = "2") then
        releases <- fetch_recent_releases w 5 ;;
        match releases with
        | [] =>
            print "No recent releases found. Creating a new release instead." ;;;
            interactive_create w fuel zip_files img_files sha_files
        | _ => interactive_upload w releases zip_files img_files sha_files
        end
      else interactive_create w fuel zip_files img_files sha_files
  end.

(** ** Flag-driven front end *)

(** The parsed command line. *)
Record args := mkArgs {
  arg_all : bool;
  arg_img : bool;
  arg_zip : bool;
  arg_notes : option (list string);
  arg_yes : bool;
  arg_upload : option string
}.

Definition truthy_notes (a : args) : bool :=
  match arg_notes a with
  | Some (_ :: _) => true
  | _ => false
  end.

Definition truthy_upload (a : args) : bool :=
  match arg_upload a with
  | Some (String _ _) => true
  | _ => false
  end.

(** [any(vars(args).values())] *)
Definition any_flag (a : args) : bool :=
  arg_all a || arg_img a || arg_zip a || truthy_notes a || arg_yes a
  || truthy_upload a.

(** The files picked by the flags, before checksums are added. *)
Definition files_by_flags (a : args) (zip_files img_files : list string)
  : list string :=
  if arg_img a then img_files
  else if arg_zip a then zip_files
  else zip_files ++ img_files.

(** The part of [main] that uploads to the release named by [--upload]. *)
Definition main_upload (w : world) (tag : string) (files_to_release : list string)
  : M Z :=
  r <- run_command w ["gh"; "release"; "view"; tag] ;;
  if negb (r.2 =? 0) then
    print ("Error: Release with tag '" +:+ tag +:+ "' does not exist.") ;;;
    print r.1 ;;;
    ret 1
  else
    done <- handing "upload_to_existing_release" files_to_release
              (upload_to_existing_release w tag files_to_release) ;;
    if done then print "Files uploaded successfully." ;;; ret 0
    else print "Failed to upload files." ;;; ret 1.

(** The part of [main] that creates a new release. *)
Definition main_create (w : world) (fuel : nat) (a : args)
    (zip_files files_to_release : list string) : M Z :=
  let title := match zip_files with zipname :: _ => zipname | [] => EmptyString end in
  match (match zip_files with
         | zipname :: _ => extract_tag_from_zip zipname
         | [] => None
         end) with
  | None =>
      print "Error: Could not extract tag from ZIP filename" ;;;
      ret 1
  | Some tag =>
      tag <- get_unique_tag w fuel tag ;;
      let notes := if truthy_notes a
                   then Py.join nl ((fun note => "- " +:+ note) <$> default [] (arg_notes a))
                   else "- Auto-generated release" in
      let cmd := create_cmd_of tag files_to_release notes title in
      confirmed <- get_confirmation (arg_yes a) ;;
      if confirmed then
        final <- create_or_fall_back w cmd files_to_release ;;
        if final.2 =? 0 then
          print "Release created successfully." ;;;
          ret 0
        else
          print ("Error: Failed to create release" +:+ nl +:+ final.1) ;;;
          ret 1
      else
        print "Operation cancelled by user." ;;;
        ret 0
  end.

(** What [main] does with the files picked by the flags. *)
Definition main_files (w : world) (fuel : nat) (a : args)
    (zip_files files_to_release : list string) : M Z :=
  match files_to_release with
  | [] =>
      print "Error: No matching files found for selected option" ;;;
      ret 1
  | _ =>
      if truthy_upload a
      then main_upload w (default EmptyString (arg_upload a)) files_to_release
      else main_create w fuel a zip_files files_to_release
  end.

(** [main] *)
Definition main (w : world) (fuel : nat) (a : args) : M Z :=
  authenticated <- check_github_auth w ;;
  if negb authenticated then ret 1
  else
    reachable <- check_repository_access w ;;
    if negb reachable then ret 1
    else if negb (any_flag a) then interactive_mode w fuel
    else
      let zip_files := find_files_by_extension w ["zip"] in
      let img_files := find_files_by_extension w ["img"] in
      let sha_files := find_files_by_extension w ["sha256sum"] in
      match zip_files, img_files with
      | [], [] =>
          print "Error: No .img or .zip files found for release" ;;;
          ret 1
      | _, _ =>
          main_files w fuel a zip_files
            (add_sha_files (files_by_flags a zip_files img_files) zip_files sha_files)
      end.

(** The state in which a run starts. *)
Definition start (lines : list string) : state := mkState lines [].

(** One run of the program: its exit status and its trace in the order of
    the events. *)
Definition run (w : world) (fuel : nat) (a : args) (lines : list string)
  : option Z * list event :=
  let r := main w fuel a (start lines) in
  (exit_status r.1, rev (trace r.2)).

(** ** Sizes for the reader *)

(** The quotient [num / den] rounded to an integer, a tie going to the
    even neighbour: the rounding of a float division and of the format
    [.1f]. *)
Definition round_half_even (num den : N) : N :=
  let q := (num / den)%N in
  let r := (num mod den)%N in
  if (2 * r <? den)%N then q
  else if (den <? 2 * r)%N then (q + 1)%N
  else if N.even q then q else (q + 1)%N.

(** The float nearest to the integer [n]: [n] itself below [2^53],
    otherwise [n] rounded to 53 significant bits. *)
Definition nearest_float (n : N) : N :=
  if (n <? 2 ^ 53)%N then n
  else
    let ulp := (2 ^ (N.log2 n - 52))%N in
    (round_half_even n ulp * ulp)%N.

(** The numeral of [tenths / 10] with one decimal. *)
Definition one_decimal (tenths : N) : string :=
  Py.str (N.to_nat (tenths / 10)) +:+ "." +:+ Py.str (N.to_nat (tenths mod 10)).

(** [f"{size_bytes / unit:.1f}"] for an integer [size_bytes] and a power
    of two [unit].  The division of two integers gives the float nearest to
    the quotient, which is the float nearest to [size_bytes] divided by
    [unit]; the format rounds that float to a tenth.  [None] is the
    [OverflowError] of a quotient beyond the floats. *)
Definition scaled (size_bytes unit : N) : option string :=
  let x := nearest_float size_bytes in
  if (2 ^ 1024 * unit <=? x)%N then None
  else Some (one_decimal (round_half_even (10 * x) unit)).

(** [format_size] on an integer: the size of a file or a sum of sizes. *)
Definition format_size (size_bytes : N) : option string :=
  if (size_bytes <? 1024)%N
  then Some (Py.str (N.to_nat size_bytes) +:+ " B")
  else if (size_bytes <? 1024 * 1024)%N
  then (fun text => text +:+ " KB") <$> scaled size_bytes 1024
  else if (size_bytes <? 1024 * 1024 * 1024)%N
  then (fun text => text +:+ " MB") <$> scaled size_bytes (1024 * 1024)
  else (fun text => text +:+ " GB") <$> scaled size_bytes (1024 * 1024 * 1024).

(** * Vocabulary of the properties *)

(** [x] stands right after [z] in [plan]. *)
Definition immediately_after (plan : list string) (z x : string) : Prop :=
  exists i : nat, plan !! i = Some z /\ plan !! S i = Some x.

(** The client answers [gh release view] by the set of published tags. *)
Definition remote_state (w : world) (existing : list string) : Prop :=
  forall tr tag,
    exit_code (client w tr ["gh"; "release"; "view"; tag]) = 0 <-> tag ∈ existing.

(** [result] is the first, in the order of strings, of the free tags
    [tag-v{n}] with [n >= 2]. *)
Definition lex_first_free (existing : list string) (tag result : string) : Prop :=
  (exists n, (2 <= n)%nat /\ result = versioned tag n) /\
  (result ∉ existing) /\
  forall n, (2 <= n)%nat -> (versioned tag n ∉ existing) ->
            String.leb result (versioned tag n) = true.

(** A remote on which only the tag [T] is published. *)
Definition only_T : world :=
  mkWorld
    (fun _ cmd =>
       mkResponse (if bool_decide (tail (tail (tail cmd)) = ["T"]) then 0 else 1)
                  EmptyString EmptyString false)
    (fun _ => [])
    (fun _ => 0%N).

(** Position [i], counted from 0, is named by the token [tok] over a list
    of [n] items: [tok] is a number [k] between 1 and [n] and [i = k - 1],
    or [tok] is a range [a-b] of two numbers with [1 <= a <= b <= n] and
    [a - 1 <= i <= b - 1]. *)
Inductive token_selects (n : Z) (tok : string) (i : Z) : Prop :=
| selects_number k :
    Py.contains "-" tok = false ->
    Py.int tok = Some k ->
    1 <= k <= n -> i = k - 1 ->
    token_selects n tok i
| selects_range a b x y :
    Py.split_char "-" tok = [a; b] ->
    Py.int a = Some x -> Py.int b = Some y ->
    1 <= x -> x <= y -> y <= n ->
    x - 1 <= i <= y - 1 ->
    token_selects n tok i.

(** A client that knows the tags [published]: [gh release view] succeeds
    on them only, every other command succeeds at once.  The directory
    holds one archive and one image, with the sizes given by [size]. *)
Definition scripted (published : list string) (size : string -> N) : world :=
  mkWorld
    (fun _ cmd =>
       match cmd with
       | ["gh"; "release"; "view"; tag] =>
           mkResponse (if bool_decide (tag ∈ published) then 0 else 1)
                      EmptyString "release not found" false
       | _ => mkResponse 0 "ok" EmptyString false
       end)
    (fun pattern =>
       if bool_decide (pattern = "*.zip") then ["rom-1.0-20250101.zip"]
       else if bool_decide (pattern = "*.img") then ["boot.img"]
       else [])
    size.

(** The image has 7 bytes, every other file 5. *)
Definition sizes_5_7 (file : string) : N :=
  if bool_decide (file = "boot.img") then 7%N else 5%N.

(** Command lines: none, [--all], [--all --yes], [--all --upload tag]. *)
Definition no_flags : args := mkArgs false false false None false None.
Definition flag_all : args := mkArgs true false false None false None.
Definition flag_all_yes : args := mkArgs true false false None true None.
Definition flag_upload (tag : string) : args :=
  mkArgs true false false None false (Some tag).

(** Every event that [m] adds to the trace satisfies [P]. *)
Definition emits {A} (P : event -> Prop) (m : M A) : Prop :=
  forall s, exists new, trace (m s).2 = new ++ trace s /\ Forall P new.

(** What may happen in a run that finds no archive and no image: lines
    are printed, the two checks run the client, the first check may ask
    whether to proceed, and the interactive shell waits for Enter. *)
Definition scan_phase_event (interactive : bool) (e : event) : Prop :=
  match e with
  | EvPrint _ => True
  | EvInput prompt =>
      prompt = "Do you want to proceed anyway? (y/N): " \/
      (interactive = true /\ prompt = "Press Enter to continue...")
  | EvRun cmd => cmd = ["gh"; "auth"; "status"] \/ cmd = ["gh"; "repo"; "view"]
  | _ => False
  end.

(** Nothing is asked once the missing files are reported. *)
Definition no_prompt_after_report (tr : list event) : Prop :=
  forall before after prompt,
    tr = before ++ EvPrint "Error: No .img or .zip files found for release" :: after ->
    EvInput prompt ∉ after.

(** A directory without files; every command of the client succeeds. *)
Definition empty_dir : world :=
  mkWorld (fun _ _ => mkResponse 0 "ok" EmptyString false)
          (fun _ => []) (fun _ => 0%N).

(** [cmd] uploads one file. *)
Definition is_upload (cmd : list string) : bool :=
  bool_decide (take 3 cmd = ["gh"; "release"; "upload"]).

(** [e] is an invocation of the client. *)
Definition is_run (e : event) : Prop :=
  match e with EvRun _ => True | _ => False end.

(** [e] is an invocation that uploads one file. *)
Definition upload_run (e : event) : bool :=
  match e with EvRun cmd => is_upload cmd | _ => false end.

(** The number of upload invocations among some events. *)
Definition upload_runs (events : list event) : nat :=
  length (filter (fun e => upload_run e = true) events).

(** After the events [before], the client answers the upload [cmd] with a
    failure whose error text names no authentication or permission
    problem. *)
Definition plain_failure (w : world) (before : list event) (cmd : list string)
  : Prop :=
  is_upload cmd = true /\
  exit_code (client w before cmd) <> 0 /\
  auth_indicator (stderr (client w before cmd)) = false.

(** Among the events [new] that followed [base] (newest first), no
    upload met a plain failure. *)
Definition clean (w : world) (base new : list event) : Prop :=
  forall later cmd earlier,
    new = later ++ EvRun cmd :: earlier -> ~ plain_failure w (earlier ++ base) cmd.

(** Among the events [new] that followed [base] (newest first), an
    upload that met a plain failure is the last invocation of the client. *)
Definition stops_after_plain_failure (w : world) (base new : list event) : Prop :=
  forall later cmd earlier,
    new = later ++ EvRun cmd :: earlier ->
    plain_failure w (earlier ++ base) cmd ->
    Forall (fun e => ~ is_run e) later.

(** [m] adds at most [k] upload invocations to the trace. *)
Definition runs_within (k : nat) {A} (m : M A) : Prop :=
  forall s, exists new, trace (m s).2 = new ++ trace s /\ (upload_runs new <= k)%nat.

(** [m] adds at most [k] upload invocations, and one that meets a plain
    failure is the last invocation that [m] makes. *)
Definition stops_within (w : world) (k : nat) {A} (m : M A) : Prop :=
  forall s, exists new,
    trace (m s).2 = new ++ trace s /\
    stops_after_plain_failure w (trace s) new /\
    (upload_runs new <= k)%nat.

(** [e] is no upload invocation. *)
Definition no_upload (e : event) : Prop := upload_run e = false.

(** [cmd] was run among the events [before]. *)
Definition ran_before (cmd : list string) (before : list event) : bool :=
  existsb (fun e => match e with
                    | EvRun c => bool_decide (c = cmd)
                    | _ => false
                    end) before.

(** A client whose uploads fail once with a plain network error and
    succeed when tried again; one archive in the directory. *)
Definition flaky : world :=
  mkWorld
    (fun before cmd =>
       if is_upload cmd && negb (ran_before cmd before)
       then mkResponse 1 EmptyString "connection reset by peer" false
       else mkResponse 0 "ok" EmptyString false)
    (fun pattern =>
       if bool_decide (pattern = "*.zip") then ["rom-1.0-20250101.zip"] else [])
    sizes_5_7.

(** The line printed before the second and the third attempt. *)
Definition retry_line (attempt : nat) : string :=
  "Retrying upload (" +:+ Py.str attempt +:+ "/" +:+ Py.str max_retries +:+ ")...".

(** In the trace [tr] (newest first) the invocation that creates the empty
    release, the first one of [create_release_with_progress], failed. *)
Fixpoint creation_failed (w : world) (tr : list event) : bool :=
  match tr with
  | [] => false
  | e :: earlier =>
      match e, earlier with
      | EvRun cmd, EvTotalUpload _ _ :: EvCall callee _ :: _ =>
          bool_decide (callee = "create_release_with_progress")
          && negb (exit_code (client w earlier cmd) =? 0)
          || creation_failed w earlier
      | _, _ => creation_failed w earlier
      end
  end.

(** The direct command is entered only in runs where creating the empty
    release failed. *)
Definition fallback_only_after_failed_creation (w : world) (tr : list event)
  : Prop :=
  (exists files, EvCall "create_release_with_direct_command" files ∈ tr) ->
  creation_failed w tr = true.

(** A client that refuses every upload with a server error and accepts
    every other command; no tag is published. *)
Definition upload_refused : world :=
  mkWorld
    (fun before cmd =>
       if is_upload cmd
       then mkResponse 1 EmptyString "HTTP 500: server error" false
       else client (scripted [] sizes_5_7) before cmd)
    (glob (scripted [] sizes_5_7))
    sizes_5_7.

(** [cmd] creates a release or uploads a file. *)
Definition is_transfer (cmd : list string) : bool :=
  bool_decide (take 3 cmd = ["gh"; "release"; "create"]) || is_upload cmd.

(** Some plan was handed to an orchestrator. *)
Definition called (tr : list event) : Prop :=
  exists callee files, EvCall callee files ∈ tr.

(** In the trace [tr] (newest first) every plan handed to an orchestrator
    holds a file, and every invocation that creates a release or uploads a
    file comes after a plan was handed over. *)
Fixpoint orchestrated (tr : list event) : Prop :=
  match tr with
  | [] => True
  | e :: earlier =>
      orchestrated earlier /\
      match e with
      | EvCall _ files => files <> []
      | EvRun cmd => is_transfer cmd = true -> called earlier
      | _ => True
      end
  end.

(** The events of the front ends outside the orchestrators. *)
Definition quiet_event (e : event) : Prop :=
  match e with
  | EvCall _ _ => False
  | EvRun cmd => is_transfer cmd = false
  | _ => True
  end.

(** The events of the orchestrators. *)
Definition body_event (e : event) : Prop :=
  match e with
  | EvCall _ _ => False
  | _ => True
  end.

(** [m] keeps the trace orchestrated. *)
Definition safe {A} (m : M A) : Prop :=
  forall s, orchestrated (trace s) -> orchestrated (trace (m s).2).

(** ** Names and tags *)

(** The characters of a string. *)
Definition chars (s : string) : list ascii := list_ascii_of_string s.

Definition newline : ascii := ascii_of_nat 10.

(** The character [c] does not occur in [s]. *)
Definition lacks (c : ascii) (s : string) : bool :=
  forallb (fun x => negb (bool_decide (x = c))) (chars s).

(** Every character of [s] is a digit. *)
Definition all_digits (s : string) : bool := forallb Py.isdigit (chars s).

(** [s] starts with a digit. *)
Definition digit_first (s : string) : bool :=
  match s with String c _ => Py.isdigit c | EmptyString => false end.

(** No hyphen of [s] is followed by a digit. *)
Fixpoint hyphen_digit_free (s : string) : bool :=
  match s with
  | String c r =>
      (negb (bool_decide (c = "-"%char)) || negb (digit_first r))
      && hyphen_digit_free r
  | EmptyString => true
  end.

(** ** Prompts *)

(** The events, newest first, of [n] turns of a loop that asks [prompt]
    again after a line it does not accept. *)
Definition refusals (prompt : string) (complaint : option string) (n : nat)
  : list event :=
  mjoin (replicate n (match complaint with
                      | Some text => [EvPrint text; EvInput prompt]
                      | None => [EvInput prompt]
                      end)).

(** A line that answers the confirmation. *)
Definition yes_or_no (line : string) : Prop :=
  Py.lower line = "y" \/ Py.lower line = "n".

(** A line that ends the notes. *)
Definition ends_notes (line : string) : Prop :=
  line = "" \/ Py.lower line = "done".

(** The prompts of the notes [i], [i+1], ... ([n] of them), newest first. *)
Definition note_prompts (i n : nat) : list event :=
  reverse ((fun k => EvInput ("Note " +:+ Py.str k +:+ ": ")) <$> seq i n).

(** The text of the notes typed: one bullet per line, or the default. *)
Definition notes_text (typed : list string) : string :=
  match typed with
  | [] => "- Auto-generated release"
  | _ => Py.join nl ((fun note => "- " +:+ note) <$> typed)
  end.

(** ** The list of releases *)

(** Every character of [s] is white space; none is. *)
Definition blank (s : string) : bool := forallb Py.isspace (chars s).

Definition spacefree (s : string) : bool :=
  forallb (fun c => negb (Py.isspace c)) (chars s).

(** The tag of a listed release is a word. *)
Definition tag_is_word (r : release) : Prop :=
  rel_tag r <> "" /\ spacefree (rel_tag r) = true.

(** The command that lists the releases. *)
Definition list_cmd (limit : nat) : list string :=
  ["gh"; "release"; "list"; "--limit"; Py.str limit].

(** A line of the list, from its columns. *)
Definition columns (cols : list string) : string :=
  Py.join (String tab "") cols.

(** The prompt of the menu of [n] releases. *)
Definition release_prompt (n : nat) : string :=
  "Choose a release (1-" +:+ Py.str (n + 1) +:+ "): ".

(** A client that answers every command with the text [out] and exit
    code 0. *)
Definition listing (out : string) : world :=
  mkWorld (fun _ _ => mkResponse 0 out EmptyString false)
          (fun _ => []) (fun _ => 0%N).

(** ** Plans *)

(** The scan lists each archive and each image once, under a name with its
    extension. *)
Definition scanned (zips imgs : list string) : Prop :=
  NoDup zips /\ NoDup imgs /\
  Forall (fun z => Py.endswith ".zip" z = true) zips /\
  Forall (fun i => Py.endswith ".img" i = true) imgs.

(** The sum of some sizes. *)
Definition total (sizes : list N) : N := foldr N.add 0%N sizes.

(** [tenths / 10] is within a twentieth of [size / unit]. *)
Definition within_a_twentieth (tenths size unit : N) : Prop :=
  (2 * (10 * size) <= 2 * (tenths * unit) + unit /\
   2 * (tenths * unit) <= 2 * (10 * size) + unit)%N.

(** ** Commands *)

(** The command that creates the release without files. *)
Definition empty_release_cmd (tag notes title : string) : list string :=
  ["gh"; "release"; "create"; tag; "--notes"; notes; "--title"; title].

(** The command that creates the release with its files. *)
Definition direct_cmd_of (tag : string) (files : list string)
    (notes title : string) : list string :=
  ["gh"; "release"; "create"; tag] ++ files ++ ["--title"; title; "--notes"; notes].

(** The command that uploads [file] to the release [tag]. *)
Definition upload_cmd_of (tag file : string) : list string :=
  ["gh"; "release"; "upload"; tag; file].

(** No option name stands where the tag, a file or the notes are
    expected. *)
Definition plain_words (tag : string) (files : list string) (notes : string)
  : Prop :=
  tag <> "--notes" /\ tag <> "--title" /\
  ("--notes" ∉ files) /\ ("--title" ∉ files) /\ notes <> "--title".

(** The events of [create_release_with_progress] after the creation of the
    empty release, for the release [tag] and the plan [files]: lines and
    reports, the status query of the diagnosis, uploads of files of the
    plan to [tag]. *)
Definition upload_phase_event (tag : string) (files : list string) (e : event)
  : Prop :=
  match e with
  | EvRun c =>
      c = ["gh"; "auth"; "status"] \/
      exists file, file ∈ files /\ c = upload_cmd_of tag file
  | EvInput _ | EvCall _ _ => False
  | _ => True
  end.

(** The uploads that the client accepted among the events [new] that
    followed [base] (both newest first): the commands, newest first, that
    upload a file and were answered with exit code 0. *)
Fixpoint accepted_uploads (w : world) (base new : list event)
  : list (list string) :=
  match new with
  | [] => []
  | e :: earlier =>
      match e with
      | EvRun cmd =>
          if is_upload cmd && (exit_code (client w (earlier ++ base) cmd) =? 0)
          then cmd :: accepted_uploads w base earlier
          else accepted_uploads w base earlier
      | _ => accepted_uploads w base earlier
      end
  end.

(** The tag looks like the name of a file. *)
Definition named_like_file (tag : string) : bool :=
  Py.endswith ".zip" tag || Py.endswith ".img" tag
  || Py.endswith ".sha256sum" tag.

(** ** Runs *)

(** [m] returns only values of [Q]. *)
Definition ends {A} (Q : A -> Prop) (m : M A) : Prop :=
  forall s,
    match (m s).1 with
    | Ok a => Q a
    | Raise _ | Diverge => True
    end.

(** The two exit codes of the program. *)
Definition zero_or_one (code : Z) : Prop := code = 0 \/ code = 1.

(** [m] keeps two invariants, [L] of every line still to be typed and [E]
    of every event of the trace, and returns only values of [Q]. *)
Definition keeps (L : string -> Prop) (E : event -> Prop) {A}
    (Q : A -> Prop) (m : M A) : Prop :=
  forall s, Forall L (stdin s) -> Forall E (trace s) ->
    Forall L (stdin (m s).2) /\ Forall E (trace (m s).2) /\
    forall a, (m s).1 = Ok a -> Q a.

(** A typed line that is not the answer "y", in either case. *)
Definition not_yes (line : string) : Prop := Py.lower line <> "y".

(** An event that is no creation of a release and no upload. *)
Definition no_transfer (e : event) : Prop :=
  match e with
  | EvRun cmd => is_transfer cmd = false
  | _ => True
  end.

(** What a run that must not wait for the terminal may do: anything but
    ask, except for the question of the authentication check. *)
Definition unattended_event (e : event) : Prop :=
  match e with
  | EvInput prompt => prompt = "Do you want to proceed anyway? (y/N): "
  | _ => True
  end.

(** A client that is not logged in: every command fails. *)
Definition logged_out : world :=
  mkWorld (fun _ _ => mkResponse 1 "You are not logged into any GitHub hosts."
                        EmptyString false)
          (fun _ => []) (fun _ => 0%N).

(** A client that is logged in, outside of a repository. *)
Definition no_repository : world :=
  mkWorld (fun _ cmd =>
             if bool_decide (cmd = ["gh"; "auth"; "status"])
             then mkResponse 0 "Logged in" EmptyString false
             else mkResponse 1 "no git remotes found" EmptyString false)
          (fun _ => []) (fun _ => 0%N).

(** A directory that holds one image and no archive; every command of the
    client succeeds. *)
Definition image_only : world :=
  mkWorld (fun _ _ => mkResponse 0 "ok" EmptyString false)
          (fun pattern => if bool_decide (pattern = "*.img") then ["boot.img"] else [])
          (fun _ => 7%N).

(** * Properties *)

(** ** Checksum attachment *)

Section planner.

Implicit Types sel zips imgs shas : list string.

Lemma get_matching_sha_Some z shas x :
  get_matching_sha z shas = Some x <-> x = sha_of z /\ x ∈ shas.
Proof.
  unfold get_matching_sha. case_bool_decide; split.
  - intros [= <-]. done.
  - intros [-> _]. done.
  - done.
  - intros [-> ?]. done.
Qed.

(** The loop of [add_sha_files] appends, in the order of the archives,
    the checksum of each archive that is selected and has one. *)
Lemma add_sha_loop_app sel zips shas acc :
  foldl (fun result zip_file =>
           if bool_decide (zip_file ∈ sel)
           then match get_matching_sha zip_file shas with
                | Some sha_file => result ++ [sha_file]
                | None => result
                end
           else result) acc zips
  = acc ++ (sha_of <$> filter (fun z => z ∈ sel /\ sha_of z ∈ shas) zips).
Proof.
  revert acc. induction zips as [|z zips IH]; intros acc; simpl.
  - by rewrite app_nil_r.
  - rewrite IH. unfold get_matching_sha.
    rewrite filter_cons.
    repeat case_bool_decide; case_decide; try tauto; simpl; try done.
    by rewrite <- app_assoc.
Qed.

Lemma add_sha_files_app sel zips shas :
  add_sha_files sel zips shas
  = sel ++ (sha_of <$> filter (fun z => z ∈ sel /\ sha_of z ∈ shas) zips).
Proof. apply add_sha_loop_app. Qed.

End planner.

Section store.

Implicit Types h : gmap nat (list string).

Lemma add_sha_loop_fresh h files shas result fs ss zs acc :
  h !! files = Some fs ->
  h !! shas = Some ss ->
  h !! result = None ->
  Store.add_sha_loop files shas result zs (<[result := acc]> h)
  = Some (<[result :=
             foldl (fun result zip_file =>
                      if bool_decide (zip_file ∈ fs)
                      then match get_matching_sha zip_file ss with
                           | Some sha_file => result ++ [sha_file]
                           | None => result
                           end
                      else result) acc zs]> h).
Proof.
  intros Hf Hs Hr. revert acc.
  assert (files <> result) by congruence.
  assert (shas <> result) by congruence.
  induction zs as [|z zs IH]; intros acc; simpl; [done|].
  unfold Store.add_sha_step.
  rewrite !lookup_insert_ne by done. rewrite Hf, Hs.
  case_bool_decide; [|apply IH].
  destruct (get_matching_sha z ss) as [x|]; [|apply IH].
  unfold Store.append. rewrite lookup_insert_eq, insert_insert_eq. apply IH.
Qed.

End store.

(** C10.  [add_sha_files] returns the selection it was given, unchanged and
    in its order, followed only by checksum files: each added path is the
    checksum path of a selected archive and is one of the scanned checksum
    files.  Run on references, whatever the sharing between the three
    arguments, the call succeeds, returns a list object that did not exist
    before, and leaves every list object that existed, the selection among
    them, with the contents it had. *)
Theorem add_sha_files_keeps_selection
    (sel zips shas : list string) (h : gmap nat (list string))
    (files_ref zips_ref shas_ref : nat) :
  h !! files_ref = Some sel ->
  h !! zips_ref = Some zips ->
  h !! shas_ref = Some shas ->
  (exists added,
      add_sha_files sel zips shas = sel ++ added /\
      Forall (fun x => x ∈ shas /\
                       exists z, z ∈ zips /\ z ∈ sel /\ x = sha_of z) added) /\
  (exists result h',
      Store.add_sha_files_ref files_ref zips_ref shas_ref h = Some (result, h') /\
      h !! result = None /\
      (forall l xs, h !! l = Some xs -> h' !! l = Some xs) /\
      h' !! result = Some (add_sha_files sel zips shas)).
Proof.
  intros Hf Hz Hs. split.
  - eexists. split; [apply add_sha_files_app|].
    apply Forall_fmap, Forall_forall. intros z [[Hz2 Hz3] Hz1]%list_elem_of_filter.
    simpl. eauto 6.
  - unfold Store.add_sha_files_ref, Store.copy. rewrite Hf.
    set (r := fresh (dom h)).
    assert (h !! r = None) as Hr by (apply not_elem_of_dom, is_fresh).
    assert (zips_ref <> r) by congruence.
    rewrite lookup_insert_ne, Hz by done.
    rewrite (add_sha_loop_fresh h files_ref shas_ref r sel shas) by done.
    eexists r, _. split; [done|]. split; [done|]. split.
    + intros l xs Hl. rewrite lookup_insert_ne; [done|congruence].
    + by rewrite lookup_insert_eq.
Qed.

(** The claim at a store where the archives themselves are the selection
    (one list object under two names, as with the flag [--zip]). *)
Lemma add_sha_files_keeps_selection_witness :
  let h : gmap nat (list string) :=
    <[0%nat := ["a.zip"; "b.zip"]]> (<[1%nat := ["b.zip.sha256sum"]]> ∅) in
  exists result h',
    Store.add_sha_files_ref 0 0 1 h = Some (result, h') /\
    h !! result = None /\
    (forall l xs, h !! l = Some xs -> h' !! l = Some xs) /\
    h' !! result = Some (add_sha_files ["a.zip"; "b.zip"] ["a.zip"; "b.zip"]
                           ["b.zip.sha256sum"]).
Proof.
  intros h.
  exact (proj2 (add_sha_files_keeps_selection
                  ["a.zip"; "b.zip"] ["a.zip"; "b.zip"] ["b.zip.sha256sum"]
                  h 0%nat 0%nat 1%nat eq_refl eq_refl eq_refl)).
Defined.

(** ** The plan of the selection planner *)

Lemma py_index_elem_of {A} (l : list A) i x : py_index l i = Some x -> x ∈ l.
Proof.
  unfold py_index. intros H.
  repeat case_match; try done; by eapply list_elem_of_lookup_2.
Qed.

Lemma pick_files_subseteq all_files idxs files :
  pick_files all_files idxs = Some files -> files ⊆ all_files.
Proof.
  unfold pick_files. intros H%mapM_Some_1.
  intros x Hx. apply list_elem_of_lookup in Hx as [i Hi].
  destruct (Forall2_lookup_r _ _ _ _ _ H Hi) as (k & _ & Hk).
  by eapply py_index_elem_of.
Qed.

(** The selection that the menu of [select_files_for_release] makes, before
    checksums are added, is made of scanned archives and images. *)
Lemma select_files_for_release_inv zips imgs shas s plan s' :
  select_files_for_release zips imgs shas s = (Ok plan, s') ->
  exists sel, sel ⊆ zips ++ imgs /\ plan = add_sha_files sel zips shas.
Proof.
  unfold select_files_for_release, bind.
  destruct (ask_until _ _ _ s) as [[choice| |] s1]; try done.
  repeat case_bool_decide.
  - intros [= <- <-]. eexists; split; [|done]. done.
  - intros [= <- <-]. eexists; split; [|done]. set_solver.
  - intros [= <- <-]. eexists; split; [|done]. set_solver.
  - destruct (input _ s1) as [[selected| |] s2]; try done.
    case_bool_decide.
    + unfold print, log, ret. intros [= <- <-]. eexists; split; [|done]. done.
    + destruct (print_all _ s2) as [[[]| |] s3]; try done.
      destruct (manual_pick (zips ++ imgs) selected) as [res warns] eqn:Hpick.
      simpl. unfold manual_pick in Hpick.
      destruct (parse_parts _ _) as [idxs ws].
      destruct (pick_files _ _) as [files|] eqn:Hfiles.
      * apply pick_files_subseteq in Hfiles.
        destruct files; injection Hpick as <- <-; unfold print, log, ret;
          intros [= <- <-]; eexists; (split; [|done]); done.
      * injection Hpick as <- <-. unfold print, log, ret.
        intros [= <- <-]. eexists; split; [|done]. done.
Qed.

(** C2, as the code has it.  Every plan of the selection planner is a
    selection of scanned archives and images followed by the checksum files,
    in the order of the archive scan, of the selected archives whose
    checksum file was scanned; so the checksum of a selected archive stands
    after all the selected files, not next to its archive. *)
Theorem checksums_follow_selection
    (zips imgs shas : list string) (s s' : state) (plan : list string) :
  select_files_for_release zips imgs shas s = (Ok plan, s') ->
  exists sel,
    sel ⊆ zips ++ imgs /\
    plan = sel ++ (sha_of <$> filter (fun z => z ∈ sel /\ sha_of z ∈ shas) zips) /\
    forall z, z ∈ sel -> z ∈ zips -> sha_of z ∈ shas ->
      exists i : nat, (length sel <= i)%nat /\ plan !! i = Some (sha_of z).
Proof.
  intros (sel & Hsub & ->)%select_files_for_release_inv.
  exists sel. split; [done|]. split; [apply add_sha_files_app|].
  intros z Hsel Hz Hsha. rewrite add_sha_files_app.
  assert (sha_of z ∈ sha_of <$> filter (fun z => z ∈ sel /\ sha_of z ∈ shas) zips)
    as [j Hj]%list_elem_of_lookup.
  { apply list_elem_of_fmap. exists z. split; [done|].
    by apply list_elem_of_filter. }
  exists (length sel + j)%nat. split; [lia|].
  by rewrite lookup_app_r, Nat.add_comm, Nat.add_sub by lia.
Qed.

(** The menu choice "1" over one archive with its checksum and one image. *)
Lemma checksums_follow_selection_witness :
  exists sel,
    sel ⊆ ["a.zip"] ++ ["b.img"] /\
    ["a.zip"; "b.img"; "a.zip.sha256sum"]
    = sel ++ (sha_of <$> filter (fun z => z ∈ sel /\ sha_of z ∈ ["a.zip.sha256sum"])
                           ["a.zip"]) /\
    forall z, z ∈ sel -> z ∈ ["a.zip"] -> sha_of z ∈ ["a.zip.sha256sum"] ->
      exists i : nat, (length sel <= i)%nat /\
        ["a.zip"; "b.img"; "a.zip.sha256sum"] !! i = Some (sha_of z).
Proof.
  exact (checksums_follow_selection ["a.zip"] ["b.img"] ["a.zip.sha256sum"]
           (start ["1"]) _ _ eq_refl).
Defined.

(** C2, as stated, fails: with the choice "1" the plan is the archive, the
    image, then the checksum, and the checksum does not stand right after
    its archive. *)
Lemma checksum_not_adjacent_counterexample :
  exists plan s',
    select_files_for_release ["a.zip"] ["b.img"] ["a.zip.sha256sum"] (start ["1"])
    = (Ok plan, s') /\
    "a.zip" ∈ plan /\
    sha_of "a.zip" ∈ ["a.zip.sha256sum"] /\
    ~ immediately_after plan "a.zip" (sha_of "a.zip").
Proof.
  eexists _, _. split; [reflexivity|].
  split; [by left|]. split; [by left|].
  intros [i [H1 H2]].
  destruct i as [|[|[|i]]]; simpl in *; discriminate.
Qed.

(** ** Unique tags *)

Section unique_tag.

Context (w : world) (existing : list string).
Hypothesis remote : remote_state w existing.

Lemma str_inj n m : Py.str n = Py.str m -> n = m.
Proof.
  unfold Py.str. intros H.
  assert (Some (Nat.to_uint n) = Some (Nat.to_uint m)) as [= E].
  { rewrite <- !NilEmpty.usu. by rewrite H. }
  rewrite <- (DecimalNat.Unsigned.of_to n), <- (DecimalNat.Unsigned.of_to m).
  by rewrite E.
Qed.

Lemma versioned_inj tag : Inj (=) (=) (versioned tag).
Proof.
  intros n m H. unfold versioned in H.
  apply String.app_inj in H. apply String.app_inj in H. by apply str_inj.
Qed.

Lemma check_tag_exists_remote tag s :
  check_tag_exists w tag s
  = (Ok (bool_decide (tag ∈ existing)),
     mkState (stdin s) (EvRun ["gh"; "release"; "view"; tag] :: trace s)).
Proof.
  unfold check_tag_exists, run_command, popen, bind, ret. simpl.
  do 2 f_equal. case_bool_decide as H.
  - apply Z.eqb_eq. by apply remote.
  - apply Z.eqb_neq. by intros ?%remote.
Qed.

(** Not every one of more than [length existing] versions is published. *)
Lemma some_version_free tag v fuel :
  (length existing < fuel)%nat ->
  exists m, (v <= m < v + fuel)%nat /\ (versioned tag m ∉ existing).
Proof.
  intros Hlen.
  destruct (decide (Forall (fun m => versioned tag m ∈ existing) (seq v fuel)))
    as [Hall|Hex].
  - exfalso.
    assert (versioned tag <$> seq v fuel ⊆+ existing) as Hsub.
    { pose proof (versioned_inj tag) as Hinj.
      apply NoDup_submseteq.
      - apply (NoDup_fmap_2 _), NoDup_seq.
      - intros x (m & -> & Hm)%list_elem_of_fmap.
        by eapply Forall_forall in Hall. }
    apply submseteq_length in Hsub.
    rewrite length_fmap, length_seq in Hsub. lia.
  - apply not_Forall_Exists in Hex; [|intros ?; apply _].
    apply Exists_exists in Hex as (m & Hm & Hfree).
    apply elem_of_seq in Hm. exists m. split; [lia|done].
Qed.

(** The loop stops at the least free version from [v] on. *)
Lemma next_version_least tag fuel v s :
  (exists m, (v <= m < v + fuel)%nat /\ (versioned tag m ∉ existing)) ->
  exists n s',
    next_version w fuel tag v s = (Ok n, s') /\
    (v <= n)%nat /\ (versioned tag n ∉ existing) /\
    forall m, (v <= m < n)%nat -> versioned tag m ∈ existing.
Proof.
  revert v s. induction fuel as [|fuel IH]; intros v s (m & Hm & Hfree).
  { lia. }
  simpl. unfold bind. rewrite check_tag_exists_remote.
  case_bool_decide as Hv.
  - destruct (IH (S v) (mkState (stdin s)
                  (EvRun ["gh"; "release"; "view"; versioned tag v] :: trace s)))
      as (n & s' & Hrun & Hle & Hn & Hbelow).
    { exists m. split; [|done].
      assert (m <> v) by (intros ->; done). lia. }
    exists n, s'. split; [done|]. split; [lia|]. split; [done|].
    intros k Hk. destruct (decide (k = v)) as [->|]; [done|].
    apply Hbelow. lia.
  - eexists v, _. split; [done|]. split; [lia|]. split; [done|]. lia.
Qed.

Lemma get_unique_tag_free tag fuel s :
  tag ∉ existing ->
  exists s', get_unique_tag w fuel tag s = (Ok tag, s').
Proof.
  intros Hfree. unfold get_unique_tag, bind.
  rewrite check_tag_exists_remote. rewrite bool_decide_false by done.
  simpl. by eexists.
Qed.

End unique_tag.

(** C3, as the code has it.  Against a remote whose published tags are
    [existing], and allowed more steps than there are published tags,
    [get_unique_tag] returns, from every state, one and the same tag: [tag]
    itself when it is not published, otherwise [tag-v{n}] for the least
    number [n >= 2] whose tag is not published.  The result is not
    published, and the function applied to its own result returns it. *)
Theorem get_unique_tag_least_version
    (w : world) (existing : list string) (fuel : nat) (tag : string) :
  remote_state w existing ->
  (length existing < fuel)%nat ->
  exists result,
    (forall s, exists s', get_unique_tag w fuel tag s = (Ok result, s')) /\
    (tag ∉ existing -> result = tag) /\
    (tag ∈ existing ->
       exists n, (2 <= n)%nat /\ result = versioned tag n /\
                 forall m, (2 <= m < n)%nat -> versioned tag m ∈ existing) /\
    (result ∉ existing) /\
    (forall s, exists s', get_unique_tag w fuel result s = (Ok result, s')).
Proof.
  intros remote Hfuel.
  destruct (decide (tag ∈ existing)) as [Hin|Hfree].
  - destruct (next_version_least w existing remote tag fuel 2 (start []))
      as (n & _ & _ & Hle & Hn & Hbelow).
    { by apply some_version_free. }
    exists (versioned tag n). split; [|split; [done|split; [|split; [done|]]]].
    + intros s. unfold get_unique_tag, bind.
      rewrite (check_tag_exists_remote w existing remote).
      rewrite bool_decide_true by done. simpl.
      match goal with
      | |- context [next_version w fuel tag 2 ?s1] =>
          destruct (next_version_least w existing remote tag fuel 2 s1)
            as (n' & s' & -> & Hle' & Hn' & Hbelow')
      end.
      { by apply some_version_free. }
      assert (n' = n) as ->.
      { destruct (Nat.lt_trichotomy n' n) as [?|[?|?]]; [|done|].
        - destruct Hn'. apply Hbelow. lia.
        - destruct Hn. apply Hbelow'. lia. }
      by eexists.
    + intros _. by exists n.
    + intros s. by apply (get_unique_tag_free w existing remote).
  - exists tag. split; [|split; [done|split; [done|split; [done|]]]].
    + intros s. by apply (get_unique_tag_free w existing remote).
    + intros s. by apply (get_unique_tag_free w existing remote).
Qed.

Lemma only_T_remote : remote_state only_T ["T"].
Proof.
  intros tr tag. simpl. case_bool_decide as H.
  - injection H as ->. split; [intros _; by left|done].
  - split; [done|]. intros ->%list_elem_of_singleton. done.
Qed.

(** With [T] published, two steps suffice and the result is [T-v2]. *)
Lemma get_unique_tag_least_version_witness :
  exists result,
    (forall s, exists s', get_unique_tag only_T 2 "T" s = (Ok result, s')) /\
    ("T" ∉ ["T"] -> result = "T") /\
    ("T" ∈ ["T"] ->
       exists n, (2 <= n)%nat /\ result = versioned "T" n /\
                 forall m, (2 <= m < n)%nat -> versioned "T" m ∈ ["T"]) /\
    (result ∉ ["T"]) /\
    (forall s, exists s', get_unique_tag only_T 2 result s = (Ok result, s')).
Proof.
  apply (get_unique_tag_least_version only_T ["T"] 2 "T" only_T_remote).
  simpl. lia.
Defined.

(** C3, as stated, fails: with only [T] published the function returns
    [T-v2], while the free tag [T-v10] comes before it in the order of
    strings. *)
Lemma get_unique_tag_not_lexicographic_counterexample :
  exists s',
    remote_state only_T ["T"] /\
    get_unique_tag only_T 2 "T" (start []) = (Ok "T-v2", s') /\
    ~ lex_first_free ["T"] "T" "T-v2".
Proof.
  eexists. split; [apply only_T_remote|]. split; [lazy; reflexivity|].
  intros (_ & _ & Hfirst).
  specialize (Hfirst 10%nat).
  assert (String.leb "T-v2" (versioned "T" 10) = false) as Hcmp
    by reflexivity.
  rewrite Hfirst in Hcmp; [done|lia|].
  intros H%list_elem_of_singleton. vm_compute in H. discriminate.
Qed.

(** ** The manual selector *)

Section selector.

Lemma split_char_go_no_sep sep cur s :
  Py.contains (String sep EmptyString) s = false ->
  Py.split_char_go sep cur s = [String.rev (String.rev_app s cur)].
Proof.
  revert cur. induction s as [|c s IH]; intros cur; simpl; [done|].
  rewrite andb_true_r. intros [H1 H2]%orb_false_elim.
  apply bool_decide_eq_false in H1.
  rewrite bool_decide_false by congruence.
  by rewrite IH.
Qed.

Lemma split_char_two_contains sep tok a b :
  Py.split_char sep tok = [a; b] ->
  Py.contains (String sep EmptyString) tok = true.
Proof.
  intros H. destruct (Py.contains _ tok) eqn:E; [done|].
  unfold Py.split_char in H. by rewrite split_char_go_no_sep in H.
Qed.

(** A token adds the positions it names, or nothing and one warning. *)
Lemma parse_part_spec n tok :
  (forall i, i ∈ (parse_part n tok).1 <-> token_selects n tok i) /\
  Forall (fun i => 0 <= i < n) (parse_part n tok).1 /\
  ((parse_part n tok).1 = [] ->
     exists pre post, (parse_part n tok).2 = ["Warning: " +:+ pre +:+ tok +:+ post]).
Proof.
  pose proof (fun post => ex_intro (fun pre => exists post',
       ["Warning: Invalid range " +:+ tok +:+ post]
       = ["Warning: " +:+ pre +:+ tok +:+ post']) "Invalid range "
       (ex_intro _ post eq_refl)) as W1.
  pose proof (fun post => ex_intro (fun pre => exists post',
       ["Warning: Invalid range format '" +:+ tok +:+ post]
       = ["Warning: " +:+ pre +:+ tok +:+ post']) "Invalid range format '"
       (ex_intro _ post eq_refl)) as W2.
  pose proof (fun post => ex_intro (fun pre => exists post',
       ["Warning: File number " +:+ tok +:+ post]
       = ["Warning: " +:+ pre +:+ tok +:+ post']) "File number "
       (ex_intro _ post eq_refl)) as W3.
  pose proof (fun post => ex_intro (fun pre => exists post',
       ["Warning: Invalid number '" +:+ tok +:+ post]
       = ["Warning: " +:+ pre +:+ tok +:+ post']) "Invalid number '"
       (ex_intro _ post eq_refl)) as W4.
  unfold parse_part.
  destruct (Py.contains "-" tok) eqn:Hdash.
  - destruct (Py.split_char "-" tok) as [|a [|b [|c rest]]] eqn:Hsplit;
      try (split; [|split; [by constructor|by intros _; eauto]];
           intros i; split; [by intros ?%elem_of_nil|];
           intros [k ? ? ? ?|a' b' x y H ? ? ? ? ? ?]; congruence).
    destruct (Py.int a) as [x|] eqn:Ha, (Py.int b) as [y|] eqn:Hb;
      try (split; [|split; [by constructor|by intros _; eauto]];
           intros i; split; [by intros ?%elem_of_nil|];
           intros [k ? ? ? ?|a' b' x' y' H ? ? ? ? ? ?]; congruence).
    destruct (_ && _) eqn:Hrange; simpl.
    + apply andb_prop in Hrange as [[H1 H2]%andb_prop H3].
      apply Z.leb_le in H1, H2. apply Z.ltb_lt in H3.
      split; [|split].
      * intros i. rewrite elem_of_seqZ. split.
        -- intros ?. eapply selects_range; eauto; lia.
        -- intros [k ? ? ? ?|a' b' x' y' H ? ? ? ? ? ?]; [congruence|].
           assert (a' = a /\ b' = b) as [-> ->] by (split; congruence).
           assert (x' = x /\ y' = y) as [-> ->] by (split; congruence). lia.
      * apply Forall_forall. intros i ?%elem_of_seqZ. lia.
      * intros Hnil. apply (f_equal length) in Hnil.
        rewrite length_seqZ in Hnil. simpl in Hnil. lia.
    + split; [|split; [by constructor|by intros _; eauto]].
      intros i; split; [by intros ?%elem_of_nil|].
      intros [k ? ? ? ?|a' b' x' y' H ? ? ? ? ? ?]; [congruence|].
      assert (a' = a /\ b' = b) as [-> ->] by (split; congruence).
      assert (x' = x /\ y' = y) as [-> ->] by (split; congruence).
      assert ((0 <=? x - 1) = true) as E1 by (apply Z.leb_le; lia).
      assert ((x - 1 <=? y - 1) = true) as E2 by (apply Z.leb_le; lia).
      assert ((y - 1 <? n) = true) as E3 by (apply Z.ltb_lt; lia).
      by rewrite E1, E2, E3 in Hrange.
  - destruct (Py.int tok) as [k|] eqn:Hint.
    + destruct (_ && _) eqn:Hrange; simpl.
      * apply andb_prop in Hrange as [H1 H2].
        apply Z.leb_le in H1. apply Z.ltb_lt in H2.
        split; [|split].
        -- intros i. rewrite list_elem_of_singleton. split.
           ++ intros ->. eapply selects_number; eauto; lia.
           ++ intros [k' ? ? ? ?|a' b' x' y' H ? ? ? ? ? ?]; [congruence|].
              apply split_char_two_contains in H. congruence.
        -- repeat constructor; lia.
        -- done.
      * split; [|split; [by constructor|by intros _; eauto]].
        intros i; split; [by intros ?%elem_of_nil|].
        intros [k' ? ? ? ?|a' b' x' y' H ? ? ? ? ? ?].
        -- assert (k' = k) as -> by congruence.
           assert ((0 <=? k - 1) = true) as E1 by (apply Z.leb_le; lia).
           assert ((k - 1 <? n) = true) as E2 by (apply Z.ltb_lt; lia).
           by rewrite E1, E2 in Hrange.
        -- apply split_char_two_contains in H. congruence.
    + split; [|split; [by constructor|by intros _; eauto]].
      intros i; split; [by intros ?%elem_of_nil|].
      intros [k' ? ? ? ?|a' b' x' y' H ? ? ? ? ? ?]; [congruence|].
      apply split_char_two_contains in H. congruence.
Qed.

Lemma parse_parts_acc n parts acc :
  let r := foldl (fun acc part =>
                    let '(idxs, warns) := parse_part n part in
                    (acc.1 ++ idxs, acc.2 ++ warns)) acc parts in
  (forall i, i ∈ r.1 <->
             i ∈ acc.1 \/ exists tok, tok ∈ parts /\ token_selects n tok i) /\
  (Forall (fun i => 0 <= i < n) acc.1 -> Forall (fun i => 0 <= i < n) r.1) /\
  (forall text, text ∈ acc.2 -> text ∈ r.2) /\
  (forall tok, tok ∈ parts -> (forall i, ~ token_selects n tok i) ->
     exists pre post, ("Warning: " +:+ pre +:+ tok +:+ post) ∈ r.2).
Proof.
  revert acc. induction parts as [|part parts IH]; intros acc; simpl.
  { split; [|split; [done|split; [done|]]].
    - intros i. split; [by left|]. intros [?|(tok & []%elem_of_nil & _)]. done.
    - by intros tok ?%elem_of_nil. }
  destruct (parse_part_spec n part) as (Hsel & Hrange & Hwarn).
  destruct (parse_part n part) as [idxs warns] eqn:Hpart. simpl in *.
  destruct (IH (acc.1 ++ idxs, acc.2 ++ warns)) as (IH1 & IH2 & IH3 & IH4).
  simpl in *. split; [|split; [|split]].
  - intros i. rewrite IH1, elem_of_app, Hsel. split.
    + intros [[?|?]|(tok & ? & ?)]; [by left|right..].
      * exists part. split; [by left|done].
      * exists tok. split; [by right|done].
    + intros [?|(tok & [->|?]%elem_of_cons & ?)]; [by left; left| |].
      * by left; right.
      * right. by exists tok.
  - intros Hacc. apply IH2, Forall_app. done.
  - intros text Htext. apply IH3, elem_of_app. by left.
  - intros tok [->|Htok]%elem_of_cons Hnone; [|by apply IH4].
    destruct Hwarn as (pre & post & ->).
    { destruct idxs as [|i idxs]; [done|].
      destruct (Hnone i). apply Hsel. by left. }
    exists pre, post. apply IH3, elem_of_app. right. by left.
Qed.

Lemma parse_parts_spec n parts :
  (forall i, i ∈ (parse_parts n parts).1 <->
             exists tok, tok ∈ parts /\ token_selects n tok i) /\
  Forall (fun i => 0 <= i < n) (parse_parts n parts).1 /\
  (forall tok, tok ∈ parts -> (forall i, ~ token_selects n tok i) ->
     exists pre post,
       ("Warning: " +:+ pre +:+ tok +:+ post) ∈ (parse_parts n parts).2).
Proof.
  destruct (parse_parts_acc n parts ([], [])) as (H1 & H2 & _ & H4).
  split; [|split; [by apply H2|done]].
  intros i. rewrite H1. simpl. split; [|by right].
  by intros [?%elem_of_nil|?].
Qed.

(** [sorted(set(l))] has the elements of [l], each once, in rising
    order. *)
Lemma elem_of_sorted_set l x : x ∈ sorted_set l <-> x ∈ l.
Proof.
  unfold sorted_set. rewrite merge_sort_Permutation. apply elem_of_remove_dups.
Qed.

Lemma StronglySorted_le_lt (l : list Z) :
  StronglySorted Z.le l -> NoDup l -> StronglySorted Z.lt l.
Proof.
  induction 1 as [|x l Hs IH Hx]; intros Hnd; [constructor|].
  apply NoDup_cons in Hnd as [Hnotin Hnd].
  constructor; [by apply IH|].
  apply Forall_forall. intros y Hy.
  eapply Forall_forall in Hx; [|done].
  assert (x <> y) by (intros ->; done). lia.
Qed.

Lemma sorted_set_sorted l : StronglySorted Z.lt (sorted_set l).
Proof.
  apply StronglySorted_le_lt.
  - apply Sorted_StronglySorted; [intros ???; lia|].
    apply (Sorted_merge_sort Z.le).
  - unfold sorted_set. rewrite merge_sort_Permutation. apply NoDup_remove_dups.
Qed.

Lemma StronglySorted_to_nat (l : list Z) :
  Forall (fun i => 0 <= i) l ->
  StronglySorted Z.lt l -> StronglySorted lt (Z.to_nat <$> l).
Proof.
  intros Hpos Hs. induction Hs as [|x l Hs IH Hx]; [constructor|].
  apply Forall_cons in Hpos as [Hx0 Hpos]. simpl.
  constructor; [by apply IH|].
  apply Forall_fmap, Forall_forall. intros y Hy. simpl.
  eapply Forall_forall in Hx; [|done]. eapply Forall_forall in Hpos; [|done].
  lia.
Qed.

Lemma pick_files_in_range (all_files : list string) (idxs : list Z) :
  Forall (fun i => 0 <= i < Z.of_nat (length all_files)) idxs ->
  exists files,
    pick_files all_files idxs = Some files /\
    Forall2 (fun i f => all_files !! i = Some f) (Z.to_nat <$> idxs) files.
Proof.
  intros Hrange. unfold pick_files.
  induction idxs as [|i idxs IH].
  { exists []. split; [done|constructor]. }
  apply Forall_cons in Hrange as [Hi Hrange].
  destruct (IH Hrange) as (files & Hfiles & Hall).
  destruct (lookup_lt_is_Some_2 all_files (Z.to_nat i)) as [f Hf]; [lia|].
  assert (py_index all_files i = Some f) as Hpy.
  { unfold py_index.
    assert ((0 <=? i) && (i <? Z.of_nat (length all_files)) = true) as ->; [|done].
    apply andb_true_intro. split; [apply Z.leb_le|apply Z.ltb_lt]; lia. }
  exists (f :: files). split.
  - simpl. rewrite Hpy. simpl. by rewrite Hfiles.
  - simpl. by constructor.
Qed.

Lemma print_all_run texts s :
  print_all texts s
  = (Ok tt, mkState (stdin s) (rev (EvPrint <$> texts) ++ trace s)).
Proof.
  revert s. induction texts as [|text texts IH]; intros [ins tr]; simpl; [done|].
  unfold bind, print, log. simpl. rewrite IH. simpl.
  by rewrite <- app_assoc.
Qed.

(** The limit of [int]: a text with too many digits is no number. *)
Lemma int_space_not_digit c : Py.int_space c = true -> Py.isdigit c = false.
Proof. destruct c as [[] [] [] [] [] [] [] []]; vm_compute; congruence. Qed.

Lemma count_digits_int_lstrip s :
  Py.count_digits (Py.int_lstrip s) = Py.count_digits s.
Proof.
  induction s as [|c s IH]; [done|]. cbn [Py.int_lstrip Py.count_digits].
  destruct (Py.int_space c) eqn:E; [|done].
  by rewrite (int_space_not_digit c E), IH.
Qed.

Lemma count_digits_rev_app s acc :
  Py.count_digits (String.rev_app s acc)
  = (Py.count_digits s + Py.count_digits acc)%nat.
Proof.
  revert acc. induction s as [|c s IH]; intros acc; [done|].
  cbn [String.rev_app]. rewrite IH. cbn [Py.count_digits]. lia.
Qed.

Lemma count_digits_int_strip s :
  Py.count_digits (Py.int_strip s) = Py.count_digits s.
Proof.
  unfold Py.int_strip, String.rev.
  rewrite count_digits_rev_app, count_digits_int_lstrip.
  rewrite count_digits_rev_app, count_digits_int_lstrip.
  cbn [Py.count_digits]. lia.
Qed.

Lemma int_numeral_long s :
  (Py.max_str_digits < Py.count_digits s)%nat -> Py.int_numeral s = None.
Proof.
  intros H. unfold Py.int_numeral.
  by rewrite (proj2 (Nat.ltb_lt _ _) H).
Qed.

Lemma int_long s :
  (Py.max_str_digits < Py.count_digits s)%nat -> Py.int s = None.
Proof.
  intros H. rewrite <- count_digits_int_strip in H. unfold Py.int.
  destruct (Py.int_strip s) as [|c r]; [by apply int_numeral_long|].
  destruct c as [[] [] [] [] [] [] [] []]; lazy beta iota;
    first [ by apply int_numeral_long
          | by rewrite (int_numeral_long r) by exact H ].
Qed.

End selector.

(** C7.  With the menu choice "4" and the selector [selected], the planner
    returns, whatever the tokens, the plan of a selection [chosen] (the
    checksums are then added).  A blank selector selects all archives and
    images.  Otherwise the selected positions are exactly those named by a
    token that is a number or a range within the list; they are taken once
    each, in rising order, and [chosen] holds the files at these positions;
    when no token names a position, [chosen] is all archives and images.
    A token that names no position only adds a warning that quotes it.
    The selector "1 3-4" over five files selects the first, third and
    fourth.  A number is what [int] accepts: a token without hyphen that
    holds more digits than the limit of [int] is refused as any other text
    that is no number, with the warning of an invalid number. *)
Theorem manual_selector_parsed
    (zips imgs shas : list string) (selected : string)
    (rest : list string) (tr : list event) :
  let all_files := zips ++ imgs in
  let n := Z.of_nat (length all_files) in
  (exists chosen tr',
     select_files_for_release zips imgs shas (mkState ("4" :: selected :: rest) tr)
     = (Ok (add_sha_files chosen zips shas), mkState rest tr') /\
     (Py.strip selected = EmptyString -> chosen = all_files) /\
     (Py.strip selected <> EmptyString ->
      exists idxs : list nat,
        StronglySorted lt idxs /\
        (forall i, i ∈ idxs <->
           exists tok, tok ∈ Py.split_ws selected /\
                       token_selects n tok (Z.of_nat i)) /\
        (idxs = [] -> chosen = all_files) /\
        (idxs <> [] -> Forall2 (fun i f => all_files !! i = Some f) idxs chosen) /\
        (forall tok, tok ∈ Py.split_ws selected ->
           (forall i, ~ token_selects n tok i) ->
           exists pre post,
             EvPrint ("Warning: " +:+ pre +:+ tok +:+ post) ∈ tr'))) /\
  (select_files_for_release ["a.zip"; "b.zip"; "c.zip"] ["d.img"; "e.img"] []
     (start ["4"; "1 3-4"])).1
  = Ok ["a.zip"; "c.zip"; "d.img"] /\
  (forall tok,
     Py.contains "-" tok = false ->
     (Py.max_str_digits < Py.count_digits tok)%nat ->
     parse_part n tok
     = ([], ["Warning: Invalid number '" +:+ tok +:+ "', skipping."])).
Proof.
  intros all_files n. split; [|split; [reflexivity|]].
  2:{ intros tok Hdash Hlong. unfold parse_part.
      by rewrite Hdash, (int_long tok Hlong). }
  unfold select_files_for_release, bind, ask_until. simpl.
  destruct (decide (Py.strip selected = EmptyString)) as [Hblank|Hblank].
  { rewrite bool_decide_true by done. simpl.
    eexists _, _. split; [reflexivity|]. split; [done|]. by intros ?. }
  rewrite bool_decide_false by done.
  rewrite print_all_run. simpl.
  unfold manual_pick. fold all_files. fold n.
  destruct (parse_parts_spec n (Py.split_ws selected)) as (Hsel & Hrange & Hwarn).
  destruct (parse_parts n (Py.split_ws selected)) as [idxs warns]. simpl in *.
  destruct (pick_files_in_range all_files (sorted_set idxs))
    as (files & Hfiles & Hall).
  { apply Forall_forall. intros i Hi. apply (proj1 (elem_of_sorted_set _ _)) in Hi.
    exact (proj1 (Forall_forall _ _) Hrange i Hi). }
  rewrite Hfiles.
  assert (StronglySorted lt (Z.to_nat <$> sorted_set idxs)) as Hsorted.
  { apply StronglySorted_to_nat, sorted_set_sorted.
    apply Forall_forall. intros i Hi. apply (proj1 (elem_of_sorted_set _ _)) in Hi.
    pose proof (proj1 (Forall_forall _ _) Hrange i Hi) as Hb.
    simpl in Hb. lia. }
  assert (forall i : nat, i ∈ Z.to_nat <$> sorted_set idxs <->
            exists tok, tok ∈ Py.split_ws selected /\
                        token_selects n tok (Z.of_nat i)) as Hmem.
  { intros i. rewrite list_elem_of_fmap. split.
    - intros (z & -> & Hz). apply (proj1 (elem_of_sorted_set _ _)) in Hz.
      pose proof (proj1 (Forall_forall _ _) Hrange z Hz) as Hb.
      simpl in Hb. rewrite Z2Nat.id by lia. by apply Hsel.
    - intros Htok%Hsel. exists (Z.of_nat i).
      split; [by rewrite Nat2Z.id|by apply (proj2 (elem_of_sorted_set _ _))]. }
  assert (forall tok, tok ∈ Py.split_ws selected ->
            (forall i, ~ token_selects n tok i) ->
            forall later,
            exists pre post,
              EvPrint ("Warning: " +:+ pre +:+ tok +:+ post)
              ∈ later ++ rev (EvPrint <$> warns)
                ++ EvInput "Select files: " :: EvInput "Choose release option (1-4): " :: tr)
    as Hprinted.
  { intros tok Htok Hnone later.
    destruct (Hwarn tok Htok Hnone) as (pre & post & Hin).
    exists pre, post. apply elem_of_app. right. apply elem_of_app. left.
    apply list_elem_of_In, (proj1 (in_rev _ _)), list_elem_of_In.
    apply list_elem_of_fmap. eauto. }
  destruct files as [|f files]; simpl.
  - apply Forall2_nil_inv_r in Hall.
    eexists _, _. split; [reflexivity|]. split; [done|]. intros _.
    exists (Z.to_nat <$> sorted_set idxs).
    split; [done|]. split; [done|]. split; [done|]. split; [done|].
    intros tok Htok Hnone. apply (Hprinted tok Htok Hnone [_]).
  - eexists _, _. split; [reflexivity|]. split; [done|]. intros _.
    exists (Z.to_nat <$> sorted_set idxs).
    split; [done|]. split; [done|]. split; [|split; [done|]].
    + intros Hnil. rewrite Hnil in Hall. inversion Hall.
    + intros tok Htok Hnone. apply (Hprinted tok Htok Hnone [_]).
Qed.

(** ** Runs against a scripted client *)

(** C4, at two failing inputs.  The plan is an archive of 5 bytes and an
    image of 7 bytes and every upload succeeds at the first attempt.  When
    the release is created first, the run ends with exit status 0 but the
    counter of uploaded bytes is still 0 at the end of the loop, and no line
    reporting it is printed; the path that uploads to an existing release
    reports 5 of 12, then 12 of 12.  With files of 0 bytes that second path
    raises [ZeroDivisionError] after the first upload and reports nothing. *)
Theorem uploaded_bytes_at_completion :
  let files := ["rom-1.0-20250101.zip"; "boot.img"] in
  let table := size_table (scripted [] sizes_5_7) files in
  sum_values table = 12%N /\
  run (scripted [] sizes_5_7) 1 flag_all_yes []
  = (Some 0,
     [EvRun ["gh"; "auth"; "status"]; EvPrint " OK!";
      EvRun ["gh"; "repo"; "view"];
      EvRun ["gh"; "release"; "view"; "rom-1.0-20250101"];
      EvCall "create_release_with_progress" files;
      EvTotalUpload 12 2;
      EvRun ["gh"; "release"; "create"; "rom-1.0-20250101"; "--notes";
             "- Auto-generated release"; "--title"; "rom-1.0-20250101.zip"];
      EvRun ["gh"; "release"; "upload"; "rom-1.0-20250101"; "rom-1.0-20250101.zip"];
      EvRun ["gh"; "release"; "upload"; "rom-1.0-20250101"; "boot.img"];
      EvAllUploaded 2 12; EvPrint "Release created successfully."]) /\
  (create_upload_each (scripted [] sizes_5_7) "rom-1.0-20250101" table 12 2
     files 0 0%N (start [])).1
  = Ok (0%N, None) /\
  run (scripted ["v1"] sizes_5_7) 1 (flag_upload "v1") ["y"]
  = (Some 0,
     [EvRun ["gh"; "auth"; "status"]; EvPrint " OK!";
      EvRun ["gh"; "repo"; "view"]; EvRun ["gh"; "release"; "view"; "v1"];
      EvCall "upload_to_existing_release" files;
      EvRun ["gh"; "release"; "view"; "v1"];
      EvInput "Execute this command? (Y/N): ";
      EvTotalUpload 12 2;
      EvRun ["gh"; "release"; "upload"; "v1"; "rom-1.0-20250101.zip"];
      EvFileDone 1 2 "rom-1.0-20250101.zip"; EvOverall 5 12;
      EvRun ["gh"; "release"; "upload"; "v1"; "boot.img"];
      EvFileDone 2 2 "boot.img"; EvOverall 12 12;
      EvAllUploaded 2 12; EvPrint "Files uploaded successfully."]) /\
  (main (scripted ["v1"] (fun _ => 0%N)) 1 (flag_upload "v1") (start ["y"])).1
  = Raise ZeroDivisionError /\
  run (scripted ["v1"] (fun _ => 0%N)) 1 (flag_upload "v1") ["y"]
  = (Some 1,
     [EvRun ["gh"; "auth"; "status"]; EvPrint " OK!";
      EvRun ["gh"; "repo"; "view"]; EvRun ["gh"; "release"; "view"; "v1"];
      EvCall "upload_to_existing_release" files;
      EvRun ["gh"; "release"; "view"; "v1"];
      EvInput "Execute this command? (Y/N): ";
      EvTotalUpload 0 2;
      EvRun ["gh"; "release"; "upload"; "v1"; "rom-1.0-20250101.zip"]]).
Proof. vm_compute. repeat split. Qed.

(** C5, at the failing input.  With [--upload v1], the release published
    and the answer "n" to the confirmation, the program prints that the
    user cancelled, then that the upload failed, and exits with status 1.
    The same answer when a release is being created exits with status 0. *)
Theorem declined_upload_exits_with_1 :
  run (scripted ["v1"] sizes_5_7) 1 (flag_upload "v1") ["n"]
  = (Some 1,
     [EvRun ["gh"; "auth"; "status"]; EvPrint " OK!";
      EvRun ["gh"; "repo"; "view"]; EvRun ["gh"; "release"; "view"; "v1"];
      EvCall "upload_to_existing_release" ["rom-1.0-20250101.zip"; "boot.img"];
      EvRun ["gh"; "release"; "view"; "v1"];
      EvInput "Execute this command? (Y/N): ";
      EvPrint "Operation cancelled by user.";
      EvPrint "Failed to upload files."]) /\
  run (scripted [] sizes_5_7) 1 flag_all ["n"]
  = (Some 0,
     [EvRun ["gh"; "auth"; "status"]; EvPrint " OK!";
      EvRun ["gh"; "repo"; "view"];
      EvRun ["gh"; "release"; "view"; "rom-1.0-20250101"];
      EvInput "Execute this command? (Y/N): ";
      EvPrint "Operation cancelled by user."]).
Proof. vm_compute. repeat split. Qed.

(** ** Events of a computation *)

Section emits.

Context (P : event -> Prop).

Lemma emits_ret {A} (a : A) : emits P (ret a).
Proof. intros s. by exists []. Qed.

Lemma emits_raise {A} e : emits P (@raise A e).
Proof. intros s. by exists []. Qed.

Lemma emits_diverge {A} : emits P (@diverge A).
Proof. intros s. by exists []. Qed.

Lemma emits_bind {A B} (m : M A) (f : A -> M B) :
  emits P m -> (forall a, emits P (f a)) -> emits P (bind m f).
Proof.
  intros Hm Hf s. unfold bind.
  destruct (Hm s) as (new1 & E1 & H1).
  destruct (m s) as [[a| |] s1]; simpl in *; [|by eauto..].
  destruct (Hf a s1) as (new2 & E2 & H2).
  exists (new2 ++ new1). rewrite E2, E1, app_assoc. split; [done|].
  by apply Forall_app.
Qed.

Lemma emits_log e : P e -> emits P (log e).
Proof. intros He s. exists [e]. split; [done|]. by constructor. Qed.

Lemma emits_print text : P (EvPrint text) -> emits P (print text).
Proof. apply emits_log. Qed.

Lemma emits_input prompt : P (EvInput prompt) -> emits P (input prompt).
Proof.
  intros He s. exists [EvInput prompt]. unfold input.
  split; [by destruct (stdin s)|]. by constructor.
Qed.

Lemma emits_popen w cmd : P (EvRun cmd) -> emits P (popen w cmd).
Proof. intros He s. exists [EvRun cmd]. split; [done|]. by constructor. Qed.

Lemma emits_run_command w cmd : P (EvRun cmd) -> emits P (run_command w cmd).
Proof.
  intros He. unfold run_command.
  apply emits_bind; [by apply emits_popen|]. intros r. apply emits_ret.
Qed.

Lemma emits_ask_until {A} prompt (accept : string -> option A) complaint :
  P (EvInput prompt) ->
  (forall text, complaint = Some text -> P (EvPrint text)) ->
  emits P (ask_until prompt accept complaint).
Proof.
  intros Hin Hout [lines tr]. unfold ask_until. simpl.
  revert tr. induction lines as [|line lines IH]; intros tr; simpl.
  { exists [EvInput prompt]. split; [done|]. by constructor. }
  destruct (accept line).
  { exists [EvInput prompt]. split; [done|]. by constructor. }
  destruct complaint as [text|].
  - destruct (IH (EvPrint text :: EvInput prompt :: tr)) as (new & -> & Hnew).
    exists (new ++ [EvPrint text; EvInput prompt]).
    rewrite <- app_assoc. split; [done|].
    apply Forall_app. split; [done|]. repeat constructor; eauto.
  - destruct (IH (EvInput prompt :: tr)) as (new & -> & Hnew).
    exists (new ++ [EvInput prompt]).
    rewrite <- app_assoc. split; [done|].
    apply Forall_app. split; [done|]. by repeat constructor.
Qed.

End emits.

Lemma emits_weaken {A} (P Q : event -> Prop) (m : M A) :
  (forall e, P e -> Q e) -> emits P m -> emits Q m.
Proof.
  intros HPQ Hm s. destruct (Hm s) as (new & E & Hnew).
  exists new. split; [done|]. eapply Forall_impl; eauto.
Qed.

(** One step of a proof that a program emits only events of [P]: through
    a sequence, a primitive or a case distinction. *)
Ltac emits_step :=
  lazymatch goal with
  | |- emits _ (bind _ _) => apply emits_bind; [|intros ?]
  | |- emits _ (ret _) => apply emits_ret
  | |- emits _ (raise _) => apply emits_raise
  | |- emits _ diverge => apply emits_diverge
  | |- emits _ (print _) => apply emits_print
  | |- emits _ (log _) => apply emits_log
  | |- emits _ (input _) => apply emits_input
  | |- emits _ (run_command _ _) => apply emits_run_command
  | |- emits _ (popen _ _) => apply emits_popen
  | |- emits _ (ask_until _ _ _) => apply emits_ask_until
  | |- emits _ (if ?b then _ else _) => destruct b
  | |- emits _ (match ?x with _ => _ end) => destruct x
  end.

Ltac emits_auto := cbv zeta; repeat (emits_step; cbv zeta); eauto.

(** The events of each part of the program, for a set [P] of events that
    holds every printed line, prompt and report. *)
Section emits_program.

Context (P : event -> Prop) (w : world).
Hypothesis P_print : forall text, P (EvPrint text).
Hypothesis P_input : forall prompt, P (EvInput prompt).
Hypothesis P_total : forall total count, P (EvTotalUpload total count).
Hypothesis P_done : forall i count name, P (EvFileDone i count name).
Hypothesis P_overall : forall uploaded total, P (EvOverall uploaded total).
Hypothesis P_all : forall count total, P (EvAllUploaded count total).

Lemma emits_check_github_auth :
  P (EvRun ["gh"; "auth"; "status"]) -> emits P (check_github_auth w).
Proof. intros. unfold check_github_auth. emits_auto. Qed.

Lemma emits_check_repository_access :
  P (EvRun ["gh"; "repo"; "view"]) -> emits P (check_repository_access w).
Proof. intros. unfold check_repository_access. emits_auto. Qed.

Lemma emits_check_tag_exists tag :
  P (EvRun ["gh"; "release"; "view"; tag]) -> emits P (check_tag_exists w tag).
Proof. intros. unfold check_tag_exists. emits_auto. Qed.

Lemma emits_next_version fuel tag version :
  (forall t, P (EvRun ["gh"; "release"; "view"; t])) ->
  emits P (next_version w fuel tag version).
Proof.
  intros Hview. revert version.
  induction fuel as [|fuel IH]; intros version; simpl; [apply emits_diverge|].
  apply emits_bind; [by apply emits_check_tag_exists|].
  intros []; [apply IH|apply emits_ret].
Qed.

Lemma emits_get_unique_tag fuel tag :
  (forall t, P (EvRun ["gh"; "release"; "view"; t])) ->
  emits P (get_unique_tag w fuel tag).
Proof.
  intros Hview. unfold get_unique_tag.
  apply emits_bind; [by apply emits_check_tag_exists|]. intros taken.
  destruct taken; simpl; [|apply emits_ret].
  apply emits_bind; [by apply emits_print|]. intros _.
  apply emits_bind; [by apply emits_next_version|]. intros version.
  emits_auto.
Qed.

Lemma emits_get_confirmation auto_confirm :
  emits P (get_confirmation auto_confirm).
Proof. unfold get_confirmation. emits_auto. Qed.

Lemma emits_read_notes count i notes : emits P (read_notes count i notes).
Proof.
  revert i notes. induction count as [|count IH]; intros i notes; simpl.
  { apply emits_ret. }
  apply emits_bind; [by apply emits_input|]. intros note.
  destruct (_ || _); [apply emits_ret|apply IH].
Qed.

Lemma emits_get_user_notes interactive : emits P (get_user_notes interactive).
Proof.
  unfold get_user_notes. destruct interactive; cbn [negb]; [|apply emits_ret].
  apply emits_bind; [apply emits_read_notes|]. intros notes. emits_auto.
Qed.

Lemma emits_fetch_recent_releases limit :
  (forall n, P (EvRun ["gh"; "release"; "list"; "--limit"; n])) ->
  emits P (fetch_recent_releases w limit).
Proof. intros. unfold fetch_recent_releases. emits_auto. Qed.

Lemma emits_print_all texts : emits P (print_all texts).
Proof.
  induction texts as [|text texts IH]; simpl; [apply emits_ret|].
  apply emits_bind; [by apply emits_print|]. by intros _.
Qed.

Lemma emits_select_files_for_release zips imgs shas :
  emits P (select_files_for_release zips imgs shas).
Proof.
  unfold select_files_for_release.
  apply emits_bind; [by apply emits_ask_until|]. intros choice.
  apply emits_bind; [|intros ?; apply emits_ret].
  repeat case_bool_decide; try apply emits_ret.
  apply emits_bind; [by apply emits_input|]. intros selected.
  case_bool_decide; [emits_auto|].
  apply emits_bind; [apply emits_print_all|]. intros _. emits_auto.
Qed.

(** The orchestrators may run any command. *)
Hypothesis P_run : forall cmd, P (EvRun cmd).

Lemma emits_upload_attempts upload_cmd name i count size total attempts uploaded :
  emits P (upload_attempts w upload_cmd name i count size total attempts uploaded).
Proof.
  revert uploaded. induction attempts as [|attempt later IH]; intros uploaded; simpl.
  { apply emits_ret. }
  apply emits_bind; [emits_auto|]. intros _.
  apply emits_bind; [by apply emits_run_command|]. intros r.
  destruct (r.2 =? 0); [emits_auto|].
  destruct (_ =? _)%nat; [emits_auto|apply IH].
Qed.

Lemma emits_upload_each tag table total count files i uploaded :
  emits P (upload_each w tag table total count files i uploaded).
Proof.
  revert i uploaded.
  induction files as [|file later IH]; intros i uploaded; cbn [upload_each].
  { apply emits_ret. }
  destruct (table !! file); [|apply emits_raise].
  apply emits_bind; [apply emits_upload_attempts|]. intros res.
  destruct res.2; [apply IH|apply emits_ret].
Qed.

Lemma emits_create_attempts upload_cmd name i count size total left uploaded :
  emits P (create_attempts w upload_cmd name i count size total left uploaded).
Proof.
  revert uploaded. induction left as [|left IH]; intros uploaded; simpl.
  { apply emits_ret. }
  apply emits_bind; [by apply emits_popen|]. intros r.
  destruct (_ && _); [apply emits_raise|].
  destruct (_ =? _); [apply emits_ret|].
  destruct (auth_indicator _); [|emits_auto].
  apply emits_bind; [by apply emits_print|]. intros _.
  apply emits_bind; [by apply emits_log|]. intros _.
  destruct (_ =? _)%N; [apply emits_raise|].
  apply emits_bind; [by apply emits_log|]. intros _. apply IH.
Qed.

Lemma emits_create_upload_each tag table total count files i uploaded :
  emits P (create_upload_each w tag table total count files i uploaded).
Proof.
  revert i uploaded.
  induction files as [|file later IH]; intros i uploaded; cbn [create_upload_each].
  { apply emits_ret. }
  destruct (table !! file); [|apply emits_raise].
  apply emits_bind; [apply emits_create_attempts|]. intros res.
  destruct res.2; [apply IH|emits_auto..].
Qed.

Lemma emits_upload_to_existing_release tag files :
  emits P (upload_to_existing_release w tag files).
Proof.
  unfold upload_to_existing_release.
  apply emits_bind; [emits_auto|]. intros [tag'|]; [|apply emits_ret].
  apply emits_bind; [by apply emits_run_command|]. intros r.
  destruct (negb _); [emits_auto|].
  apply emits_bind; [apply emits_get_confirmation|]. intros [|]; [|emits_auto].
  cbv zeta. apply emits_bind; [by apply emits_log|]. intros _.
  apply emits_bind; [apply emits_upload_each|]. intros res. emits_auto.
Qed.

Lemma emits_create_release_with_progress cmd files :
  emits P (create_release_with_progress w cmd files).
Proof.
  unfold create_release_with_progress. cbv zeta.
  apply emits_bind; [by apply emits_log|]. intros _.
  destruct (cmd !! 3%nat); [|apply emits_raise].
  destruct (extend_option _ _ _ _); [|apply emits_raise].
  destruct (extend_option _ _ _ _); [|apply emits_raise].
  apply emits_bind; [by apply emits_popen|]. intros r.
  destruct (negb _); [emits_auto|].
  apply emits_bind; [apply emits_create_upload_each|]. intros res. emits_auto.
Qed.

Lemma emits_create_release_with_direct_command cmd files :
  emits P (create_release_with_direct_command w cmd files).
Proof. unfold create_release_with_direct_command. emits_auto. Qed.

Lemma emits_handing {A} callee files (m : M A) :
  P (EvCall callee files) -> emits P m -> emits P (handing callee files m).
Proof. intros. unfold handing. by emits_auto. Qed.

Lemma emits_create_or_fall_back cmd files :
  (forall callee, P (EvCall callee files)) ->
  emits P (create_or_fall_back w cmd files).
Proof.
  intros. unfold create_or_fall_back.
  apply emits_bind.
  { apply emits_handing; [done|apply emits_create_release_with_progress]. }
  intros first. destruct (negb _); [|apply emits_ret].
  apply emits_handing; [done|apply emits_create_release_with_direct_command].
Qed.

End emits_program.

(** ** An empty scan *)

Lemma Forall_rev_iff {A} (Q : A -> Prop) (l : list A) :
  Forall Q (rev l) <-> Forall Q l.
Proof.
  rewrite !Forall_forall. split; intros H x Hx; apply H.
  - by apply list_elem_of_In, (proj1 (in_rev _ _)), list_elem_of_In.
  - by apply list_elem_of_In, (proj2 (in_rev _ _)), list_elem_of_In.
Qed.

Lemma check_github_auth_ends w s : (check_github_auth w s).1 <> Diverge.
Proof.
  unfold check_github_auth, bind, run_command, popen, print, log, input, ret, raise.
  simpl. repeat (case_match; simpl; try done).
Qed.

Lemma check_repository_access_ends w s :
  (check_repository_access w s).1 <> Diverge.
Proof.
  unfold check_repository_access, bind, run_command, popen, print, log, ret, raise.
  simpl. repeat (case_match; simpl; try done).
Qed.

Lemma emits_checks_scan_phase w interactive :
  emits (scan_phase_event interactive) (check_github_auth w) /\
  emits (scan_phase_event interactive) (check_repository_access w).
Proof.
  split.
  - unfold check_github_auth. cbv zeta.
    repeat (emits_step; cbv zeta); simpl; auto.
  - unfold check_repository_access. cbv zeta.
    repeat (emits_step; cbv zeta); simpl; auto.
Qed.

(** C9, as the code has it.  When the scan finds no archive and no image,
    every run ends with exit status 1; the client is run for the two checks
    only; the only prompts are the question of the authentication check and,
    in the interactive shell, the wait for Enter; and when both checks pass,
    the run ends by reporting that no files were found, followed, in the
    interactive shell, by the wait for Enter. *)
Theorem empty_scan_aborts (w : world) (fuel : nat) (a : args) (lines : list string) :
  find_files_by_extension w ["zip"] = [] ->
  find_files_by_extension w ["img"] = [] ->
  let r := run w fuel a lines in
  r.1 = Some 1 /\
  Forall (scan_phase_event (negb (any_flag a))) r.2 /\
  (forall s1 s2,
     check_github_auth w (start lines) = (Ok true, s1) ->
     check_repository_access w s1 = (Ok true, s2) ->
     r.2 = rev (trace s2)
           ++ EvPrint "Error: No .img or .zip files found for release"
              :: (if any_flag a then [] else [EvInput "Press Enter to continue..."])).
Proof.
  intros Hzip Himg. unfold run. cbv zeta. simpl fst. simpl snd.
  rewrite Forall_rev_iff.
  destruct (emits_checks_scan_phase w (negb (any_flag a))) as [Hauth Hrepo].
  specialize (Hauth (start lines)).
  pose proof (check_github_auth_ends w (start lines)) as Hend1.
  unfold main, bind.
  destruct (check_github_auth w (start lines)) as [[[|]| |] s1] eqn:Ec1;
    simpl in *; destruct Hauth as (new1 & E1 & H1);
    try (split; [done|]; split; [by rewrite E1, app_nil_r|done]); try done.
  specialize (Hrepo s1).
  pose proof (check_repository_access_ends w s1) as Hend2.
  destruct (check_repository_access w s1) as [[[|]| |] s2] eqn:Ec2;
    simpl in *; destruct Hrepo as (new2 & E2 & H2);
    try (split; [done|]; split;
         [by rewrite E2, E1, app_nil_r; apply Forall_app|];
         intros ? ? [= <-]; by rewrite Ec2); try done.
  assert (Forall (scan_phase_event (negb (any_flag a))) (trace s2)) as H12.
  { rewrite E2, E1, app_nil_r. by apply Forall_app. }
  destruct (any_flag a) eqn:Hflag; simpl.
  - rewrite Hzip, Himg. simpl. split; [done|]. split.
    + by constructor.
    + intros ? ? [= <-]. rewrite Ec2. by intros [= <-].
  - unfold interactive_mode. rewrite Hzip, Himg. unfold bind, print, log, input.
    simpl. destruct (stdin s2); simpl.
    + split; [done|]. split.
      * apply Forall_cons. split; [by right|]. by apply Forall_cons.
      * intros ? ? [= <-]. rewrite Ec2. intros [= <-].
        simpl. by rewrite <- app_assoc.
    + split; [done|]. split.
      * apply Forall_cons. split; [by right|]. by apply Forall_cons.
      * intros ? ? [= <-]. rewrite Ec2. intros [= <-].
        simpl. by rewrite <- app_assoc.
Qed.

(** An empty directory, the flag [--all]. *)
Lemma empty_scan_aborts_witness :
  (run empty_dir 1 flag_all []).1 = Some 1 /\
  Forall (scan_phase_event false) (run empty_dir 1 flag_all []).2.
Proof.
  destruct (empty_scan_aborts empty_dir 1 flag_all [] eq_refl eq_refl)
    as (H1 & H2 & _).
  split; [exact H1|exact H2].
Defined.

(** C9, as stated, fails in the interactive shell: after the report the
    program still asks for Enter before it returns. *)
Lemma empty_scan_prompt_counterexample :
  find_files_by_extension empty_dir ["zip"] = [] /\
  find_files_by_extension empty_dir ["img"] = [] /\
  run empty_dir 1 no_flags [""]
  = (Some 1,
     [EvRun ["gh"; "auth"; "status"]; EvPrint " OK!";
      EvRun ["gh"; "repo"; "view"];
      EvPrint "Error: No .img or .zip files found for release";
      EvInput "Press Enter to continue..."]) /\
  ~ no_prompt_after_report (run empty_dir 1 no_flags [""]).2.
Proof.
  split; [done|]. split; [done|]. split; [reflexivity|].
  intros H.
  apply (H [EvRun ["gh"; "auth"; "status"]; EvPrint " OK!";
            EvRun ["gh"; "repo"; "view"]]
           [EvInput "Press Enter to continue..."]
           "Press Enter to continue..."); [reflexivity|].
  by left.
Qed.

(** ** Retries *)

Section stops.

Context (w : world).

Lemma split_at_run (n2 n1 later earlier : list event) cmd :
  n2 ++ n1 = later ++ EvRun cmd :: earlier ->
  (exists mid, n2 = later ++ EvRun cmd :: mid /\ earlier = mid ++ n1) \/
  (exists mid, later = n2 ++ mid /\ n1 = mid ++ EvRun cmd :: earlier).
Proof.
  revert later. induction n2 as [|e n2 IH]; intros later H; simpl in *.
  { right. by exists later. }
  destruct later as [|e' later]; simpl in *.
  - injection H as -> <-. left. by exists n2.
  - injection H as <- H. destruct (IH _ H) as [(mid & -> & ->)|(mid & -> & ->)].
    + left. by exists mid.
    + right. by exists mid.
Qed.

Lemma clean_stops base new : clean w base new -> stops_after_plain_failure w base new.
Proof. intros H later cmd earlier E Hbad. by destruct (H _ _ _ E). Qed.

Lemma clean_quiet base new : Forall (fun e => ~ is_run e) new -> clean w base new.
Proof.
  intros H later cmd earlier ->.
  apply Forall_app in H as [_ H]. apply Forall_cons in H as [H _].
  by destruct H.
Qed.

Lemma clean_app base n1 n2 :
  clean w base n1 -> clean w (n1 ++ base) n2 -> clean w base (n2 ++ n1).
Proof.
  intros H1 H2 later cmd earlier E.
  destruct (split_at_run _ _ _ _ _ E) as [(mid & -> & ->)|(mid & -> & ->)].
  - rewrite <- app_assoc. by eapply H2.
  - by eapply H1.
Qed.

Lemma stops_app_clean base n1 n2 :
  clean w base n1 -> stops_after_plain_failure w (n1 ++ base) n2 ->
  stops_after_plain_failure w base (n2 ++ n1).
Proof.
  intros H1 H2 later cmd earlier E Hbad.
  destruct (split_at_run _ _ _ _ _ E) as [(mid & -> & ->)|(mid & -> & ->)].
  - rewrite <- app_assoc in Hbad. by eapply H2.
  - by destruct (H1 _ _ _ eq_refl).
Qed.

Lemma stops_app_quiet base n1 n2 :
  stops_after_plain_failure w base n1 -> Forall (fun e => ~ is_run e) n2 ->
  stops_after_plain_failure w base (n2 ++ n1).
Proof.
  intros H1 H2 later cmd earlier E Hbad.
  destruct (split_at_run _ _ _ _ _ E) as [(mid & -> & ->)|(mid & -> & ->)].
  - apply Forall_app in H2 as [_ H2]. apply Forall_cons in H2 as [H2 _].
    by destruct H2.
  - apply Forall_app. split; [done|]. by eapply H1.
Qed.

Lemma stops_single base cmd : stops_after_plain_failure w base [EvRun cmd].
Proof.
  intros later c earlier E _.
  destruct later as [|e later]; [constructor|].
  injection E as _ E. by destruct later.
Qed.

Lemma clean_single base cmd :
  ~ plain_failure w base cmd -> clean w base [EvRun cmd].
Proof.
  intros H later c earlier E.
  destruct later as [|e later].
  - by injection E as <- <-.
  - injection E as _ E. by destruct later.
Qed.

End stops.

Section create_path.

Context (w : world).

Lemma upload_runs_app n2 n1 : upload_runs (n2 ++ n1) = (upload_runs n2 + upload_runs n1)%nat.
Proof. unfold upload_runs. by rewrite filter_app, length_app. Qed.

Lemma upload_runs_quiet e new :
  ~ is_run e -> upload_runs (e :: new) = upload_runs new.
Proof.
  intros H. unfold upload_runs. rewrite filter_cons.
  destruct e; simpl in *; first [done | by destruct H].
Qed.

Lemma upload_runs_run cmd new :
  (upload_runs (EvRun cmd :: new) <= S (upload_runs new))%nat.
Proof.
  unfold upload_runs. rewrite filter_cons. case_decide; simpl; lia.
Qed.

Lemma upload_runs_single cmd : (upload_runs [EvRun cmd] <= 1)%nat.
Proof. apply (upload_runs_run cmd []). Qed.

Lemma clean_cons_quiet base e new :
  ~ is_run e -> clean w base new -> clean w base (e :: new).
Proof.
  intros He H. apply (clean_app w base new [e]); [done|].
  apply clean_quiet. by constructor.
Qed.

Lemma stops_cons_quiet base e new :
  ~ is_run e -> stops_after_plain_failure w base new ->
  stops_after_plain_failure w base (e :: new).
Proof.
  intros He H. apply (stops_app_quiet w base new [e]); [done|]. by constructor.
Qed.

(** The retry loop of one file when the release was just created. *)
Lemma create_attempts_trace cmd name i count size total left uploaded s :
  let r := create_attempts w cmd name i count size total left uploaded s in
  exists new,
    trace r.2 = new ++ trace s /\
    stops_after_plain_failure w (trace s) new /\
    (upload_runs new <= left)%nat /\
    (forall u res, r.1 = Ok (u, res) ->
       match res with
       | Aborted _ code => code <> 0
       | _ => clean w (trace s) new
       end).
Proof.
  revert uploaded s. induction left as [|left IH]; intros uploaded s; simpl.
  { exists []. split; [done|]. split; [by intros [] ? ? ?|].
    split; [done|]. intros u res [= <- <-]. by intros [] ? ? ?. }
  unfold bind, popen. simpl.
  set (r0 := client w (trace s) cmd).
  destruct (slow r0 && (size =? 0)%N) eqn:Hslow; simpl.
  { exists [EvRun cmd]. split; [done|]. split; [apply stops_single|].
    split; [pose proof (upload_runs_single cmd); lia|]. by intros u res [=]. }
  destruct (exit_code r0 =? 0) eqn:Hexit; simpl.
  { exists [EvRun cmd]. split; [done|]. split; [apply stops_single|].
    split; [pose proof (upload_runs_single cmd); lia|]. intros u res [= <- <-].
    apply clean_single. intros (_ & Hne & _).
    apply Z.eqb_eq in Hexit. done. }
  destruct (auth_indicator (stderr r0)) eqn:Hauth; simpl.
  - assert (clean w (trace s) [EvRun cmd]) as Hc0.
    { apply clean_single. intros (_ & _ & Hplain). unfold r0 in Hauth. congruence. }
    destruct (total =? 0)%N; simpl.
    + eexists [_; _; EvRun cmd]. split; [done|]. split; [|split].
      * apply clean_stops. by do 2 (apply clean_cons_quiet; [by intros []|]).
      * rewrite !upload_runs_quiet by (by intros []).
        pose proof (upload_runs_single cmd). lia.
      * by intros u res [=].
    + match goal with
      | |- context [create_attempts w cmd name i count size total left ?u ?s1] =>
          destruct (IH u s1) as (new & E & Hstop & Hruns & Hres)
      end.
      simpl in *.
      exists (new ++ [EvOverall (uploaded + size) total; EvFileDone (S i) count name;
                      EvPrint ("Authentication issue. Retrying ("
                               +:+ Py.str (max_retries - left) +:+ "/"
                               +:+ Py.str max_retries +:+ ")...");
                      EvRun cmd]).
      assert (clean w (trace s)
                [EvOverall (uploaded + size) total; EvFileDone (S i) count name;
                 EvPrint ("Authentication issue. Retrying ("
                          +:+ Py.str (max_retries - left) +:+ "/"
                          +:+ Py.str max_retries +:+ ")...");
                 EvRun cmd]) as Hc4.
      { by do 3 (apply clean_cons_quiet; [by intros []|]). }
      split; [by rewrite E, <- app_assoc|]. split; [|split].
      * by apply stops_app_clean.
      * rewrite upload_runs_app, !upload_runs_quiet by (by intros []).
        pose proof (upload_runs_single cmd). lia.
      * intros u res Hr. specialize (Hres u res Hr).
        destruct res; [by apply clean_app..|done].
  - eexists [_; EvRun cmd]. split; [done|]. split; [|split].
    + apply stops_cons_quiet; [by intros []|]. apply stops_single.
    + rewrite upload_runs_quiet by (by intros []).
      pose proof (upload_runs_single cmd). lia.
    + intros u res [= <- <-]. by apply Z.eqb_neq.
Qed.

(** The loop over the files when the release was just created: it stops
    after a plain failure; what it returns from inside carries a code other
    than 0; when it runs to its end, no upload met a plain failure. *)
Lemma create_upload_each_trace tag table total count files i uploaded s :
  let r := create_upload_each w tag table total count files i uploaded s in
  exists new,
    trace r.2 = new ++ trace s /\
    stops_after_plain_failure w (trace s) new /\
    (upload_runs new <= max_retries * length files)%nat /\
    (forall u returned, r.1 = Ok (u, returned) ->
       match returned with
       | Some (_, code) => code <> 0
       | None => clean w (trace s) new
       end).
Proof.
  revert i uploaded s.
  induction files as [|file later IH]; intros i uploaded s; cbn [create_upload_each].
  { exists []. split; [done|]. split; [by intros [] ? ? ?|].
    split; [unfold upload_runs; simpl; lia|].
    intros u returned [= <- <-]. by intros [] ? ? ?. }
  destruct (table !! file) as [size|].
  2:{ exists []. split; [done|]. split; [by intros [] ? ? ?|].
      split; [unfold upload_runs; simpl; lia|]. by intros u returned [=]. }
  unfold bind. cbn [length].
  destruct (create_attempts_trace ["gh"; "release"; "upload"; tag; file]
              (basename file) i count size total max_retries uploaded s)
    as (new1 & E1 & Hstop1 & Hruns1 & Hres1).
  destruct (create_attempts w _ _ i count size total max_retries uploaded s)
    as [[[u res]| |] s1]; cbn [fst snd] in *;
    try (exists new1; split; [done|]; split; [done|];
         split; [unfold max_retries in *; lia|by intros ? ? [=]]).
  specialize (Hres1 u res eq_refl).
  destruct res; cbn [fst snd].
  - destruct (IH (S i) u s1) as (new2 & E2 & Hstop2 & Hruns2 & Hres2).
    exists (new2 ++ new1). rewrite E2, E1, app_assoc. split; [done|]. split; [|split].
    + apply stops_app_clean; [done|]. by rewrite <- E1.
    + rewrite upload_runs_app. unfold max_retries in *. lia.
    + intros u' returned Hr. specialize (Hres2 u' returned Hr).
      destruct returned as [[]|]; [done|].
      apply clean_app; [done|]. by rewrite <- E1.
  - exists (EvPrint ("Failed to upload " +:+ basename file +:+ " after "
                     +:+ Py.str max_retries +:+ " attempts.") :: new1).
    unfold print, log, ret, bind. cbn [fst snd trace].
    rewrite E1. split; [done|]. split; [|split].
    + apply stops_cons_quiet; [by intros []|done].
    + rewrite upload_runs_quiet by (by intros []). unfold max_retries in *. lia.
    + by intros u' returned [= <- <-].
  - exists new1. split; [done|]. split; [done|].
    split; [unfold max_retries in *; lia|].
    by intros u' returned [= <- <-].
Qed.

End create_path.

(** ** The two orchestrators *)

Section orchestrators.

Context (w : world).

Lemma no_upload_runs new : Forall no_upload new -> upload_runs new = 0%nat.
Proof.
  induction 1 as [|e new He _ IH]; [done|].
  unfold upload_runs in *. rewrite filter_cons.
  unfold no_upload in He. rewrite He. by case_decide.
Qed.

Lemma no_upload_clean base new : Forall no_upload new -> clean w base new.
Proof.
  intros H later cmd earlier -> (Hup & _).
  apply Forall_app in H as [_ H]. apply Forall_cons in H as [H _].
  unfold no_upload in H. simpl in H. congruence.
Qed.

Lemma runs_within_quiet {A} (m : M A) k : emits no_upload m -> runs_within k m.
Proof.
  intros H s. destruct (H s) as (new & E & Hnew).
  exists new. split; [done|]. rewrite no_upload_runs by done. lia.
Qed.

Lemma runs_within_bind {A B} (m : M A) (f : A -> M B) k1 k2 k :
  (k1 + k2 <= k)%nat ->
  runs_within k1 m -> (forall a, runs_within k2 (f a)) -> runs_within k (bind m f).
Proof.
  intros Hk Hm Hf s. unfold bind.
  destruct (Hm s) as (new1 & E1 & H1).
  destruct (m s) as [[a| |] s1]; simpl in *;
    try (exists new1; split; [done|lia]).
  destruct (Hf a s1) as (new2 & E2 & H2).
  exists (new2 ++ new1). rewrite E2, E1, app_assoc. split; [done|].
  rewrite upload_runs_app. lia.
Qed.

Lemma stops_within_quiet {A} (m : M A) k : emits no_upload m -> stops_within w k m.
Proof.
  intros H s. destruct (H s) as (new & E & Hnew).
  exists new. split; [done|]. split.
  - by apply clean_stops, no_upload_clean.
  - rewrite no_upload_runs by done. lia.
Qed.

(** Events that are no uploads, then a computation that stops. *)
Lemma stops_within_after_quiet {A B} (m : M A) (f : A -> M B) k :
  emits no_upload m -> (forall a, stops_within w k (f a)) ->
  stops_within w k (bind m f).
Proof.
  intros Hm Hf s. unfold bind.
  destruct (Hm s) as (new1 & E1 & H1).
  destruct (m s) as [[a| |] s1]; simpl in *;
    try (exists new1; split; [done|]; split;
         [by apply clean_stops, no_upload_clean
         |rewrite no_upload_runs by done; lia]).
  destruct (Hf a s1) as (new2 & E2 & Hstop2 & Hruns2).
  exists (new2 ++ new1). rewrite E2, E1, app_assoc. split; [done|]. split.
  - apply stops_app_clean; [by apply no_upload_clean|]. by rewrite <- E1.
  - rewrite upload_runs_app, (no_upload_runs new1) by done. lia.
Qed.

(** A computation that stops, then events that are no invocations. *)
Lemma stops_within_then_quiet {A B} (m : M A) (f : A -> M B) k :
  stops_within w k m -> (forall a, emits (fun e => ~ is_run e) (f a)) ->
  stops_within w k (bind m f).
Proof.
  intros Hm Hf s. unfold bind.
  destruct (Hm s) as (new1 & E1 & Hstop1 & Hruns1).
  destruct (m s) as [[a| |] s1]; simpl in *;
    try (exists new1; split; [done|]; split; [done|lia]).
  destruct (Hf a s1) as (new2 & E2 & H2).
  exists (new2 ++ new1). rewrite E2, E1, app_assoc. split; [done|]. split.
  - by apply stops_app_quiet.
  - rewrite upload_runs_app.
    assert (upload_runs new2 = 0%nat) as ->; [|lia].
    apply no_upload_runs. eapply Forall_impl; [done|].
    intros [] He; first [done | by destruct He].
Qed.

Lemma extend_option_take flag i cmd acc extended :
  extend_option flag i cmd acc = Some extended ->
  (3 <= length acc)%nat -> take 3 extended = take 3 acc /\ (3 <= length extended)%nat.
Proof.
  unfold extend_option. intros H Hlen.
  destruct (0 <? i).
  - destruct (py_index cmd i) as [v|]; [|done].
    assert (extended = acc ++ [flag; v]) as -> by congruence.
    rewrite take_app_le by done. rewrite length_app. split; [done|lia].
  - assert (extended = acc) as -> by congruence. done.
Qed.

(** C1 and C6 rest on this: in [create_release_with_progress] each file is
    uploaded at most three times, and an upload that meets a plain failure
    is the last invocation of the function. *)
Lemma create_release_with_progress_stops cmd files :
  stops_within w (max_retries * length files) (create_release_with_progress w cmd files).
Proof.
  unfold create_release_with_progress. cbv zeta.
  apply stops_within_after_quiet; [by apply emits_log|]. intros _.
  destruct (cmd !! 3%nat) as [tag|];
    [|apply stops_within_quiet, emits_raise].
  destruct (extend_option "--notes" _ _ _) as [with_notes|] eqn:E1;
    [|apply stops_within_quiet, emits_raise].
  destruct (extend_option "--title" _ _ _) as [create_cmd|] eqn:E2;
    [|apply stops_within_quiet, emits_raise].
  apply extend_option_take in E1 as [E1 L1]; [|simpl; lia].
  apply extend_option_take in E2 as [E2 L2]; [|done].
  assert (is_upload create_cmd = false) as Hcreate.
  { unfold is_upload. rewrite E2, E1. reflexivity. }
  apply stops_within_after_quiet; [by apply emits_popen|]. intros r.
  destruct (negb _).
  - apply stops_within_quiet.
    repeat (emits_step; cbv zeta); done.
  - apply stops_within_then_quiet.
    + intros s.
      destruct (create_upload_each_trace w tag (size_table w files)
                  (sum_values (size_table w files)) (length files) files 0 0%N s)
        as (new & E & Hstop & Hruns & _).
      by exists new.
    + intros res. repeat (emits_step; cbv zeta); by intros [].
Qed.

(** The loops of [upload_to_existing_release]. *)
Lemma runs_within_run_command cmd : runs_within 1 (run_command w cmd).
Proof.
  intros s. exists [EvRun cmd]. split; [done|]. apply upload_runs_single.
Qed.

Lemma upload_attempts_runs cmd name i count size total attempts uploaded :
  runs_within (length attempts)
    (upload_attempts w cmd name i count size total attempts uploaded).
Proof.
  revert uploaded. induction attempts as [|attempt later IH]; intros uploaded;
    cbn [upload_attempts length].
  { apply runs_within_quiet, emits_ret. }
  apply (runs_within_bind _ _ 0 (S (length later))); [lia| |intros _].
  { apply runs_within_quiet. destruct (_ <? _)%nat; emits_auto. done. }
  apply (runs_within_bind _ _ 1 (length later));
    [lia|apply runs_within_run_command|intros r].
  destruct (r.2 =? 0).
  { apply runs_within_quiet. emits_auto; done. }
  destruct (attempt =? max_retries)%nat; [|apply IH].
  apply runs_within_quiet. emits_auto; done.
Qed.

Lemma upload_each_runs tag table total count files i uploaded :
  runs_within (max_retries * length files)
    (upload_each w tag table total count files i uploaded).
Proof.
  revert i uploaded.
  induction files as [|file later IH]; intros i uploaded; cbn [upload_each length].
  { apply runs_within_quiet, emits_ret. }
  destruct (table !! file); [|apply runs_within_quiet, emits_raise].
  apply (runs_within_bind _ _ max_retries (max_retries * length later));
    [unfold max_retries; lia| |].
  - pose proof (upload_attempts_runs ["gh"; "release"; "upload"; tag; file]
                  (basename file) i count n total (seq 1 max_retries) uploaded) as H.
    by rewrite length_seq in H.
  - intros res. destruct res.2; [apply IH|]. apply runs_within_quiet, emits_ret.
Qed.

End orchestrators.

Section existing_path.

Context (w : world).

Ltac suffix_tac := repeat first [reflexivity | apply suffix_cons_r].

Lemma emits_any {A} (m : M A) :
  emits (fun _ => True) m -> forall s, trace s `suffix_of` trace (m s).2.
Proof. intros H s. destruct (H s) as (new & -> & _). by apply suffix_app_r. Qed.

Lemma upload_each_extends tag table total count files i uploaded s :
  trace s `suffix_of` trace (upload_each w tag table total count files i uploaded s).2.
Proof. apply emits_any. by apply emits_upload_each. Qed.

(** A failed first attempt is followed by a second one, whatever the
    client printed. *)
Lemma upload_attempts_retry cmd name i count size total uploaded s :
  exit_code (client w (trace s) cmd) <> 0 ->
  EvRun cmd :: EvPrint (retry_line 2) :: EvRun cmd :: trace s
  `suffix_of`
  trace (upload_attempts w cmd name i count size total (seq 1 max_retries) uploaded s).2.
Proof.
  unfold retry_line. intros Hfail%Z.eqb_neq.
  simpl.
  unfold bind, run_command, popen, print, log, ret, raise. simpl.
  rewrite Hfail. simpl.
  repeat case_match; simpl; suffix_tac.
Qed.

(** Three failed attempts end the loop of the file with [success = False]. *)
Lemma upload_attempts_three_failures cmd name i count size total uploaded s :
  let t1 := trace s in
  let t2 := EvPrint (retry_line 2) :: EvRun cmd :: t1 in
  let t3 := EvPrint (retry_line 3) :: EvRun cmd :: t2 in
  exit_code (client w t1 cmd) <> 0 ->
  exit_code (client w t2 cmd) <> 0 ->
  exit_code (client w t3 cmd) <> 0 ->
  upload_attempts w cmd name i count size total (seq 1 max_retries) uploaded s
  = (Ok (uploaded, false),
     mkState (stdin s)
       (EvPrint ("Failed after " +:+ Py.str max_retries +:+ " attempts.")
        :: EvPrint (Py.strip (stdout (client w t3 cmd)))
        :: EvPrint ("Error uploading file " +:+ name +:+ ":")
        :: EvRun cmd :: t3)).
Proof.
  intros t1 t2 t3. subst t1 t2 t3. unfold retry_line.
  intros H1%Z.eqb_neq H2%Z.eqb_neq H3%Z.eqb_neq.
  simpl.
  unfold bind, run_command, popen, print, log, ret. simpl.
  rewrite H1. simpl. rewrite H2. simpl. rewrite H3. done.
Qed.

End existing_path.

(** C1, as the code has it.  When a release is created first, every file
    is uploaded at most three times and an upload that fails without an
    authentication or permission indicator in its error text is the last
    invocation of the client by the orchestrator: it is not tried again and
    no later file is attempted.  When the files go to an existing release,
    a failed upload is tried again whatever the client printed; only the
    third failure of a file ends the loop, with no attempt for the later
    files; there too every file is uploaded at most three times. *)
Theorem retries_by_path
    (w : world) (cmd files : list string)
    (tag file : string) (later : list string) (table : gmap string N)
    (size total : N) (count i : nat) (uploaded : N) (s : state) :
  let upload := ["gh"; "release"; "upload"; tag; file] in
  let t1 := trace s in
  let t2 := EvPrint (retry_line 2) :: EvRun upload :: t1 in
  let t3 := EvPrint (retry_line 3) :: EvRun upload :: t2 in
  stops_within w (max_retries * length files)
    (create_release_with_progress w cmd files) /\
  runs_within (max_retries * length (file :: later))
    (upload_each w tag table total count (file :: later) i uploaded) /\
  (table !! file = Some size ->
   exit_code (client w t1 upload) <> 0 ->
   EvRun upload :: t2
   `suffix_of`
   trace (upload_each w tag table total count (file :: later) i uploaded s).2) /\
  (table !! file = Some size ->
   exit_code (client w t1 upload) <> 0 ->
   exit_code (client w t2 upload) <> 0 ->
   exit_code (client w t3 upload) <> 0 ->
   upload_each w tag table total count (file :: later) i uploaded s
   = (Ok (uploaded, false),
      mkState (stdin s)
        (EvPrint ("Failed after " +:+ Py.str max_retries +:+ " attempts.")
         :: EvPrint (Py.strip (stdout (client w t3 upload)))
         :: EvPrint ("Error uploading file " +:+ basename file +:+ ":")
         :: EvRun upload :: t3))).
Proof.
  intros upload t1 t2 t3.
  split; [apply create_release_with_progress_stops|].
  split; [apply upload_each_runs|]. subst upload t1 t2 t3. split.
  - intros Hsize Hfail. cbn [upload_each]. rewrite Hsize. unfold bind.
    pose proof (upload_attempts_retry w _ (basename file) i count size total
                  uploaded s Hfail) as Hretry.
    destruct (upload_attempts w ["gh"; "release"; "upload"; tag; file]
                (basename file) i count size total
                (seq 1 max_retries) uploaded s)
      as [[[u ok]| |] s1]; cbn [fst snd] in *; [|exact Hretry..].
    destruct ok; [|exact Hretry].
    etrans; [exact Hretry|]. apply upload_each_extends.
  - intros Hsize H1 H2 H3. cbn [upload_each]. rewrite Hsize. unfold bind.
    by rewrite (upload_attempts_three_failures w _ (basename file) i count
                  size total uploaded s H1 H2 H3).
Qed.

(** The client [flaky], whose first answer to an upload is a failure. *)
Lemma retries_by_path_witness :
  let upload := ["gh"; "release"; "upload"; "v1"; "rom-1.0-20250101.zip"] in
  EvRun upload :: EvPrint (retry_line 2) :: EvRun upload :: []
  `suffix_of`
  trace (upload_each flaky "v1" (size_table flaky ["rom-1.0-20250101.zip"]) 5 1
           ["rom-1.0-20250101.zip"] 0 0%N (start [])).2.
Proof.
  intros upload.
  refine (proj1 (proj2 (proj2
    (retries_by_path flaky [] [] "v1" "rom-1.0-20250101.zip" []
       (size_table flaky ["rom-1.0-20250101.zip"]) 5 5 1 0 0%N (start []))))
    _ _).
  - reflexivity.
  - simpl. lia.
Defined.

(** C1, as stated, fails on the path that uploads to an existing release:
    the first upload fails with a plain network error and is tried again. *)
Lemma plain_failure_retried_counterexample :
  let upload := ["gh"; "release"; "upload"; "v1"; "rom-1.0-20250101.zip"] in
  let r := upload_to_existing_release flaky "v1" ["rom-1.0-20250101.zip"]
             (start ["y"]) in
  r.1 = Ok true /\
  rev (trace r.2)
  = [EvRun ["gh"; "release"; "view"; "v1"];
     EvInput "Execute this command? (Y/N): ";
     EvTotalUpload 5 1;
     EvRun upload; EvPrint (retry_line 2); EvRun upload;
     EvFileDone 1 1 "rom-1.0-20250101.zip"; EvOverall 5 5;
     EvAllUploaded 1 5] /\
  ~ stops_after_plain_failure flaky [] (trace r.2).
Proof.
  intros upload r. split; [reflexivity|]. split; [reflexivity|].
  intros H.
  specialize (H [EvAllUploaded 1 5; EvOverall 5 5;
                 EvFileDone 1 1 "rom-1.0-20250101.zip";
                 EvRun upload; EvPrint (retry_line 2)]
                upload
                [EvTotalUpload 5 1; EvInput "Execute this command? (Y/N): ";
                 EvRun ["gh"; "release"; "view"; "v1"]]
                eq_refl).
  assert (plain_failure flaky
            ([EvTotalUpload 5 1; EvInput "Execute this command? (Y/N): ";
              EvRun ["gh"; "release"; "view"; "v1"]] ++ [])
            upload) as Hplain.
  { split; [reflexivity|]. split; [by vm_compute|reflexivity]. }
  apply H in Hplain.
  apply Forall_cons in Hplain as [_ Hplain].
  apply Forall_cons in Hplain as [_ Hplain].
  apply Forall_cons in Hplain as [_ Hplain].
  apply Forall_cons in Hplain as [Hrun _].
  by apply Hrun.
Qed.

(** ** The fallback *)

Section fallback.

Context (w : world).

Lemma create_release_with_progress_zero cmd files s text s1 :
  create_release_with_progress w cmd files s = (Ok (text, 0), s1) ->
  exists new, trace s1 = new ++ trace s /\ clean w (trace s) new.
Proof.
  unfold create_release_with_progress, bind, log. cbn [fst snd stdin trace].
  destruct (cmd !! 3%nat) as [tag|]; [|done].
  destruct (extend_option "--notes" _ _ _) as [with_notes|] eqn:E1; [|done].
  destruct (extend_option "--title" _ _ _) as [create_cmd|] eqn:E2; [|done].
  apply extend_option_take in E1 as [E1 L1]; [|simpl; lia].
  apply extend_option_take in E2 as [E2 L2]; [|done].
  assert (is_upload create_cmd = false) as Hcreate.
  { unfold is_upload. rewrite E2, E1. reflexivity. }
  unfold popen. cbn [fst snd stdin trace].
  set (prefix := [EvRun create_cmd;
                  EvTotalUpload (sum_values (size_table w files)) (length files)]).
  assert (clean w (trace s) prefix) as Hprefix.
  { apply no_upload_clean.
    apply Forall_cons. split; [exact Hcreate|]. by repeat constructor. }
  match goal with
  | |- context [negb (exit_code ?r =? 0)] =>
      destruct (negb (exit_code r =? 0)) eqn:Hcode
  end.
  { apply negb_true_iff, Z.eqb_neq in Hcode.
    unfold print, log, run_command, popen, bind, ret. cbn [fst snd stdin trace].
    repeat case_match; intros Hret; simplify_eq; done. }
  match goal with
  | |- context [create_upload_each w tag ?tb ?tt ?c files 0 0%N ?s0] =>
      destruct (create_upload_each_trace w tag tb tt c files 0 0%N s0)
        as (new & E & _ & _ & Hres);
      destruct (create_upload_each w tag tb tt c files 0 0%N s0)
        as [[[u returned]| |] s2]; cbn [fst snd stdin trace] in *; [|done..]
  end.
  specialize (Hres u returned eq_refl).
  destruct returned as [[t c]|].
  - unfold ret. intros [= -> -> ->]. done.
  - unfold ret. intros [= <- <-]. cbn [trace].
    exists (EvAllUploaded (length files) (sum_values (size_table w files))
            :: new ++ prefix).
    split.
    + rewrite E. unfold prefix. simpl. by rewrite <- app_assoc.
    + apply clean_cons_quiet; [by intros []|]. by apply clean_app.
Qed.

Lemma handing_marked {A} callee files (m : M A) s :
  emits (fun _ => True) m ->
  EvCall callee files ∈ trace (handing callee files m s).2.
Proof.
  intros Hm. unfold handing, bind, log. cbn [fst snd].
  match goal with
  | |- _ ∈ trace (m ?s0).2 => destruct (Hm s0) as (new & -> & _)
  end.
  apply elem_of_app. right. by left.
Qed.

End fallback.

(** C6, as the code has it.  In the first method an upload that fails
    without an authentication or permission indicator is the last
    invocation, so the remaining files are not uploaded one by one.  The
    direct command is not run when the first method returns 0, and then no
    upload met such a failure; it is run with the whole plan whenever the
    first method returns another code, be it for the creation of the empty
    release or for an upload after it. *)
Theorem fallback_after_any_failure
    (w : world) (cmd files : list string) (s s1 : state) (text : string) (code : Z) :
  handing "create_release_with_progress" files
    (create_release_with_progress w cmd files) s = (Ok (text, code), s1) ->
  stops_within w (max_retries * length files)
    (create_release_with_progress w cmd files) /\
  (code = 0 ->
   create_or_fall_back w cmd files s = (Ok (text, 0), s1) /\
   exists new, trace s1 = new ++ trace s /\ clean w (trace s) new) /\
  (code <> 0 ->
   create_or_fall_back w cmd files s
   = handing "create_release_with_direct_command" files
       (create_release_with_direct_command w cmd files) s1 /\
   EvCall "create_release_with_direct_command" files
   ∈ trace (create_or_fall_back w cmd files s).2).
Proof.
  intros Hfirst. split; [apply create_release_with_progress_stops|]. split.
  - intros ->. split.
    + unfold create_or_fall_back, bind. by rewrite Hfirst.
    + unfold handing, bind, log in Hfirst. cbn [fst snd] in Hfirst.
      apply create_release_with_progress_zero in Hfirst as (new & E & Hclean).
      cbn [trace] in *.
      exists (new ++ [EvCall "create_release_with_progress" files]).
      split; [by rewrite E, <- app_assoc|].
      apply clean_app; [|done].
      apply clean_quiet, Forall_cons. split; [by intros []|constructor].
  - intros Hcode.
    assert (create_or_fall_back w cmd files s
            = handing "create_release_with_direct_command" files
                (create_release_with_direct_command w cmd files) s1) as ->.
    { unfold create_or_fall_back, bind. rewrite Hfirst. cbn [fst snd].
      apply Z.eqb_neq in Hcode. by rewrite Hcode. }
    split; [done|]. apply handing_marked.
    by apply emits_create_release_with_direct_command.
Qed.

(** The first method against the client [upload_refused]: the release is
    created, the upload fails, the code returned is 1. *)
Lemma fallback_after_any_failure_witness :
  let cmd := create_cmd_of "t" ["boot.img"] "- n" "title" in
  create_or_fall_back upload_refused cmd ["boot.img"] (start [])
  = handing "create_release_with_direct_command" ["boot.img"]
      (create_release_with_direct_command upload_refused cmd ["boot.img"])
      (mkState []
         [EvPrint "Error uploading file boot.img: HTTP 500: server error";
          EvRun ["gh"; "release"; "upload"; "t"; "boot.img"];
          EvRun ["gh"; "release"; "create"; "t"; "--notes"; "- n"; "--title"; "title"];
          EvTotalUpload 7 1;
          EvCall "create_release_with_progress" ["boot.img"]]) /\
  EvCall "create_release_with_direct_command" ["boot.img"]
  ∈ trace (create_or_fall_back upload_refused cmd ["boot.img"] (start [])).2.
Proof.
  intros cmd.
  refine (proj2 (proj2
    (fallback_after_any_failure upload_refused cmd ["boot.img"] (start []) _
       "HTTP 500: server error" 1 _)) _).
  - reflexivity.
  - lia.
Defined.

(** C6, as stated, fails: the empty release is created, the upload of the
    first file fails, and the direct command is run with both files. *)
Lemma fallback_after_upload_failure_counterexample :
  let files := ["rom-1.0-20250101.zip"; "boot.img"] in
  run upload_refused 1 flag_all_yes []
  = (Some 0,
     [EvRun ["gh"; "auth"; "status"]; EvPrint " OK!";
      EvRun ["gh"; "repo"; "view"];
      EvRun ["gh"; "release"; "view"; "rom-1.0-20250101"];
      EvCall "create_release_with_progress" files;
      EvTotalUpload 12 2;
      EvRun ["gh"; "release"; "create"; "rom-1.0-20250101"; "--notes";
             "- Auto-generated release"; "--title"; "rom-1.0-20250101.zip"];
      EvRun ["gh"; "release"; "upload"; "rom-1.0-20250101"; "rom-1.0-20250101.zip"];
      EvPrint "Error uploading file rom-1.0-20250101.zip: HTTP 500: server error";
      EvCall "create_release_with_direct_command" files;
      EvRun ["gh"; "release"; "create"; "rom-1.0-20250101";
             "rom-1.0-20250101.zip"; "boot.img"; "--title";
             "rom-1.0-20250101.zip"; "--notes"; "- Auto-generated release"];
      EvPrint "Release created successfully!";
      EvPrint "Release created successfully."]) /\
  ~ fallback_only_after_failed_creation upload_refused
      (trace (main upload_refused 1 flag_all_yes (start [])).2).
Proof.
  intros files. split; [reflexivity|].
  intros H.
  assert (creation_failed upload_refused
            (trace (main upload_refused 1 flag_all_yes (start [])).2) = false)
    as Hnot by reflexivity.
  rewrite H in Hnot; [done|].
  exists files. vm_compute. do 3 right. left.
Qed.

(** ** The plan handed to the orchestrators *)

Section plan.

Context (w : world).

Lemma orchestrated_quiet new tr :
  Forall quiet_event new -> orchestrated tr -> orchestrated (new ++ tr).
Proof.
  induction 1 as [|e new He _ IH]; intros Htr; [done|].
  simpl. split; [by apply IH|].
  destruct e; simpl in *; try done. congruence.
Qed.

Lemma orchestrated_body new tr :
  Forall body_event new -> called tr -> orchestrated tr -> orchestrated (new ++ tr).
Proof.
  induction 1 as [|e new He _ IH]; intros Hcalled Htr; [done|].
  simpl. split; [by apply IH|].
  destruct e; simpl in *; try done.
  intros _. destruct Hcalled as (callee & files & Hin).
  exists callee, files. apply elem_of_app. by right.
Qed.

Lemma safe_quiet {A} (m : M A) : emits quiet_event m -> safe m.
Proof.
  intros Hm s Hs. destruct (Hm s) as (new & -> & Hnew).
  by apply orchestrated_quiet.
Qed.

Lemma safe_bind {A B} (m : M A) (f : A -> M B) :
  safe m -> (forall a, safe (f a)) -> safe (bind m f).
Proof.
  intros Hm Hf s Hs. unfold bind. specialize (Hm s Hs).
  destruct (m s) as [[a| |] s1]; simpl in *; [|done..]. by apply Hf.
Qed.

Lemma safe_handing {A} callee files (m : M A) :
  files <> [] -> emits body_event m -> safe (handing callee files m).
Proof.
  intros Hfiles Hm s Hs. unfold handing, bind, log. cbn [fst snd].
  match goal with
  | |- orchestrated (trace (m ?s0).2) => destruct (Hm s0) as (new & -> & Hnew)
  end.
  apply orchestrated_body; [done| |by split].
  exists callee, files. by left.
Qed.

Ltac event_tac := intros; first [exact I | reflexivity].

Lemma safe_create_or_fall_back cmd files :
  files <> [] -> safe (create_or_fall_back w cmd files).
Proof.
  intros Hfiles. unfold create_or_fall_back. apply safe_bind.
  { apply safe_handing; [done|].
    apply emits_create_release_with_progress; event_tac. }
  intros first. destruct (negb _); [|apply safe_quiet, emits_ret].
  apply safe_handing; [done|].
  apply emits_create_release_with_direct_command; event_tac.
Qed.

Lemma safe_select_then {B} zips imgs shas (f : list string -> M B) :
  (forall files, safe (f files)) ->
  safe (bind (select_files_for_release zips imgs shas) f).
Proof.
  intros Hf. apply safe_bind; [|done].
  apply safe_quiet, emits_select_files_for_release; event_tac.
Qed.

Lemma safe_interactive_upload_files tag files :
  safe (interactive_upload_files w tag files).
Proof.
  unfold interactive_upload_files. destruct files as [|f files].
  { apply safe_quiet. emits_auto; event_tac. }
  apply safe_bind.
  { apply safe_handing; [done|].
    apply emits_upload_to_existing_release; event_tac. }
  intros done. apply safe_quiet. emits_auto; event_tac.
Qed.

Lemma safe_interactive_create_files tag title notes files :
  safe (interactive_create_files w tag title notes files).
Proof.
  unfold interactive_create_files. destruct files as [|f files].
  { apply safe_quiet. emits_auto; event_tac. }
  cbv zeta. apply safe_bind.
  { apply safe_quiet, emits_get_confirmation; event_tac. }
  intros [|]; [|apply safe_quiet; emits_auto; event_tac].
  apply safe_bind; [by apply safe_create_or_fall_back|].
  intros final. apply safe_quiet. emits_auto; event_tac.
Qed.

Lemma safe_interactive_upload releases zips imgs shas :
  safe (interactive_upload w releases zips imgs shas).
Proof.
  unfold interactive_upload. cbv zeta.
  apply safe_bind; [apply safe_quiet, emits_ask_until; event_tac|]. intros choice.
  apply safe_bind.
  { apply safe_quiet. emits_auto; event_tac. }
  intros tag.
  apply safe_bind; [apply safe_quiet, emits_check_tag_exists; event_tac|].
  intros found. destruct (negb found).
  { apply safe_quiet. emits_auto; event_tac. }
  apply safe_select_then. intros files. apply safe_interactive_upload_files.
Qed.

Lemma safe_interactive_create fuel zips imgs shas :
  safe (interactive_create w fuel zips imgs shas).
Proof.
  unfold interactive_create.
  apply safe_bind.
  { apply safe_quiet. emits_auto; event_tac. }
  intros named.
  apply safe_bind; [apply safe_quiet, emits_input; event_tac|]. intros change.
  apply safe_bind.
  { apply safe_quiet. emits_auto; event_tac. }
  intros title.
  apply safe_bind; [apply safe_quiet, emits_get_unique_tag; event_tac|]. intros tag.
  apply safe_bind; [apply safe_quiet, emits_get_user_notes; event_tac|]. intros notes.
  apply safe_select_then. intros files. apply safe_interactive_create_files.
Qed.

Lemma safe_interactive_mode fuel : safe (interactive_mode w fuel).
Proof.
  unfold interactive_mode. cbv zeta.
  assert (safe (bind (ask_until "Choose an option (1-2): "
                        (fun line => if bool_decide (line ∈ ["1"; "2"])
                                     then Some line else None) None)
                  (fun action_choice =>
                     if bool_decide (action_choice = "2")
                     then bind (fetch_recent_releases w 5)
                            (fun releases =>
                               match releases with
                               | [] =>
                                   bind (print "No recent releases found. Creating a new release instead.")
                                     (fun _ => interactive_create w fuel
                                        (find_files_by_extension w ["zip"])
                                        (find_files_by_extension w ["img"])
                                        (find_files_by_extension w ["sha256sum"]))
                               | _ => interactive_upload w releases
                                        (find_files_by_extension w ["zip"])
                                        (find_files_by_extension w ["img"])
                                        (find_files_by_extension w ["sha256sum"])
                               end)
                     else interactive_create w fuel
                            (find_files_by_extension w ["zip"])
                            (find_files_by_extension w ["img"])
                            (find_files_by_extension w ["sha256sum"])))) as Hmenu.
  { apply safe_bind; [apply safe_quiet, emits_ask_until; event_tac|]. intros choice.
    case_bool_decide; [|apply safe_interactive_create].
    apply safe_bind; [apply safe_quiet, emits_fetch_recent_releases; event_tac|].
    intros [|release releases]; [|apply safe_interactive_upload].
    apply safe_bind; [apply safe_quiet, emits_print; event_tac|]. intros _.
    apply safe_interactive_create. }
  destruct (find_files_by_extension w ["zip"]), (find_files_by_extension w ["img"]);
    try exact Hmenu.
  apply safe_quiet. emits_auto; event_tac.
Qed.

Lemma safe_main_files fuel a zips files : safe (main_files w fuel a zips files).
Proof.
  unfold main_files. destruct files as [|f files].
  { apply safe_quiet. emits_auto; event_tac. }
  destruct (truthy_upload a).
  - unfold main_upload.
    apply safe_bind; [apply safe_quiet, emits_run_command; event_tac|]. intros r.
    destruct (negb _); [apply safe_quiet; emits_auto; event_tac|].
    apply safe_bind.
    { apply safe_handing; [done|].
      apply emits_upload_to_existing_release; event_tac. }
    intros done. apply safe_quiet. emits_auto; event_tac.
  - unfold main_create. cbv zeta.
    destruct (match zips with [] => None | zipname :: _ => extract_tag_from_zip zipname end).
    2:{ apply safe_quiet. emits_auto; event_tac. }
    apply safe_bind; [apply safe_quiet, emits_get_unique_tag; event_tac|]. intros tag.
    apply safe_bind; [apply safe_quiet, emits_get_confirmation; event_tac|].
    intros [|]; [|apply safe_quiet; emits_auto; event_tac].
    apply safe_bind; [by apply safe_create_or_fall_back|].
    intros final. apply safe_quiet. emits_auto; event_tac.
Qed.

Lemma safe_main fuel a : safe (main w fuel a).
Proof.
  unfold main.
  apply safe_bind; [apply safe_quiet, emits_check_github_auth; event_tac|].
  intros authenticated. destruct (negb authenticated); [apply safe_quiet, emits_ret|].
  apply safe_bind; [apply safe_quiet, emits_check_repository_access; event_tac|].
  intros reachable. destruct (negb reachable); [apply safe_quiet, emits_ret|].
  destruct (negb (any_flag a)); [apply safe_interactive_mode|].
  cbv zeta.
  destruct (find_files_by_extension w ["zip"]) eqn:Ez,
           (find_files_by_extension w ["img"]) eqn:Ei;
    try apply safe_main_files.
  apply safe_quiet. emits_auto; event_tac.
Qed.

Lemma orchestrated_calls tr callee files :
  orchestrated tr -> EvCall callee files ∈ tr -> files <> [].
Proof.
  induction tr as [|e tr IH]; intros Htr Hin; [by apply elem_of_nil in Hin|].
  destruct Htr as [Htr He].
  apply elem_of_cons in Hin as [<-|Hin]; [done|by apply IH].
Qed.

End plan.

(** C8.  In every run, interactive or driven by flags, each plan handed to
    an orchestrator holds at least one file, and every invocation of the
    client that creates a release or uploads a file comes after such a
    hand-over.  Each front end rejects an empty selection at once: it prints
    the error, starts nothing, and ends with exit status 1 (the interactive
    shell after waiting for Enter). *)
Theorem plan_never_empty (w : world) (fuel : nat) (a : args) (lines : list string) :
  let final := trace (main w fuel a (start lines)).2 in
  orchestrated final /\
  (forall callee files, EvCall callee files ∈ final -> files <> []) /\
  (forall s zips,
     main_files w fuel a zips [] s
     = (Ok 1, mkState (stdin s)
                (EvPrint "Error: No matching files found for selected option"
                 :: trace s))) /\
  (forall s tag,
     let r := interactive_upload_files w tag [] s in
     exit_status r.1 = Some 1 /\
     trace r.2 = EvInput "Press Enter to continue..."
                 :: EvPrint "Error: No files selected for release" :: trace s) /\
  (forall s tag title notes,
     let r := interactive_create_files w tag title notes [] s in
     exit_status r.1 = Some 1 /\
     trace r.2 = EvInput "Press Enter to continue..."
                 :: EvPrint "Error: No files selected for release" :: trace s).
Proof.
  intros final.
  assert (orchestrated final) as Hfinal by (by apply safe_main).
  split; [done|]. split.
  { intros callee files. by apply orchestrated_calls. }
  split; [done|]. split.
  - intros s tag. unfold interactive_upload_files, bind, print, log, input, ret.
    simpl. by destruct (stdin s).
  - intros s tag title notes.
    unfold interactive_create_files, bind, print, log, input, ret.
    simpl. by destruct (stdin s).
Qed.

(** * Further properties of the program *)

(** ** Strings *)

Section string_facts.

Lemma app_String c s t : String c s +:+ t = String c (s +:+ t).
Proof. done. Qed.

Lemma string_app_assoc (a b c : string) : (a +:+ b) +:+ c = a +:+ b +:+ c.
Proof. induction a as [|x a IH]; [done|]. rewrite !app_String. by f_equal. Qed.

Lemma string_app_nil_r (a : string) : a +:+ "" = a.
Proof. induction a as [|x a IH]; [done|]. rewrite app_String. by f_equal. Qed.

Lemma lacks_app c a b : lacks c (a +:+ b) = lacks c a && lacks c b.
Proof.
  unfold lacks, chars. induction a; simpl; [done|].
  rewrite IHa. by rewrite andb_assoc.
Qed.

Lemma lacks_cons c x s :
  lacks c (String x s) = negb (bool_decide (x = c)) && lacks c s.
Proof. done. Qed.

Lemma rev_app_rev_app s t u :
  String.rev_app (String.rev_app s t) u = String.rev_app t (s +:+ u).
Proof.
  revert t u. induction s as [|c s IH]; intros t u; simpl; [done|].
  by rewrite IH.
Qed.

Lemma rev_rev s : String.rev (String.rev s) = s.
Proof.
  unfold String.rev. rewrite rev_app_rev_app. simpl. apply string_app_nil_r.
Qed.

Lemma rev_app_app a b t :
  String.rev_app (a +:+ b) t = String.rev_app b (String.rev_app a t).
Proof. revert t. induction a as [|c a IH]; intros t; [done|]. simpl. apply IH. Qed.

Lemma rev_app_spec s t : String.rev_app s t = String.rev s +:+ t.
Proof.
  unfold String.rev. revert t. induction s as [|c s IH]; intros t; [done|].
  simpl. rewrite IH. rewrite (IH (String c "")).
  by rewrite string_app_assoc.
Qed.

Lemma rev_app_distr a b : String.rev (a +:+ b) = String.rev b +:+ String.rev a.
Proof.
  unfold String.rev at 1. rewrite rev_app_app. apply rev_app_spec.
Qed.

Lemma rev_app_nonempty s t : t <> "" -> String.rev_app s t <> "".
Proof.
  revert t. induction s as [|x s IH]; intros t Ht; simpl; [done|]. by apply IH.
Qed.

Lemma rev_nonempty s : s <> "" -> String.rev s <> "".
Proof.
  destruct s as [|c s]; [done|]. intros _. unfold String.rev. simpl.
  by apply rev_app_nonempty.
Qed.

Lemma lacks_rev_app c s t :
  lacks c (String.rev_app s t) = lacks c s && lacks c t.
Proof.
  revert t. induction s as [|x s IH]; intros t; simpl; [done|].
  rewrite IH, !lacks_cons.
  destruct (negb _), (lacks c s), (lacks c t); done.
Qed.

Lemma lacks_rev c s : lacks c (String.rev s) = lacks c s.
Proof. unfold String.rev. rewrite lacks_rev_app. by rewrite andb_true_r. Qed.

Lemma spacefree_rev_app s t :
  spacefree (String.rev_app s t) = spacefree s && spacefree t.
Proof.
  revert t. induction s as [|x s IH]; intros t; simpl; [done|].
  rewrite IH. unfold spacefree, chars. simpl.
  destruct (negb _), (forallb _ _), (forallb _ _); done.
Qed.

Lemma spacefree_rev s : spacefree (String.rev s) = spacefree s.
Proof. unfold String.rev. rewrite spacefree_rev_app. by rewrite andb_true_r. Qed.

Lemma startswith_app p x : Py.startswith p (p +:+ x) = true.
Proof.
  induction p as [|c p IH]; simpl; [done|].
  by rewrite bool_decide_true.
Qed.

Lemma endswith_app p z : Py.endswith p (z +:+ p) = true.
Proof. unfold Py.endswith. rewrite rev_app_distr. apply startswith_app. Qed.

Lemma lstrip_blank s : blank s = true -> Py.lstrip s = "".
Proof.
  unfold blank, chars. induction s as [|c s IH]; simpl; [done|].
  intros [Hc Hs]%andb_true_iff. rewrite Hc. by apply IH.
Qed.

Lemma strip_blank s : blank s = true -> Py.strip s = "".
Proof. intros H. unfold Py.strip. by rewrite lstrip_blank. Qed.

End string_facts.

(** ** Splitting and joining *)

Section splitting.

Lemma split_char_go_lacks sep cur s :
  lacks sep s = true ->
  Py.split_char_go sep cur s = [String.rev (String.rev_app s cur)].
Proof.
  revert cur. induction s as [|c s IH]; intros cur; simpl; [done|].
  rewrite lacks_cons. intros [H1 H2]%andb_true_iff.
  apply negb_true_iff in H1. rewrite H1. by apply IH.
Qed.

Lemma split_char_go_pieces sep cur s :
  lacks sep cur = true ->
  Forall (fun x => lacks sep x = true) (Py.split_char_go sep cur s).
Proof.
  revert cur. induction s as [|c s IH]; intros cur Hcur; simpl.
  - repeat constructor. by rewrite lacks_rev.
  - case_bool_decide as Hc.
    + constructor; [by rewrite lacks_rev|]. by apply IH.
    + apply IH. rewrite lacks_cons, Hcur. by rewrite bool_decide_false.
Qed.

Lemma split_char_go_app sep cur a r :
  lacks sep a = true ->
  Py.split_char_go sep cur (a +:+ String sep r)
  = String.rev (String.rev_app a cur) :: Py.split_char_go sep "" r.
Proof.
  revert cur. induction a as [|c a IH]; intros cur Ha.
  - change (Py.split_char_go sep cur (String sep r)
            = String.rev cur :: Py.split_char_go sep "" r).
    simpl. by rewrite bool_decide_true.
  - rewrite app_String. simpl. rewrite lacks_cons in Ha.
    apply andb_true_iff in Ha as [Hc Ha]. apply negb_true_iff in Hc.
    rewrite Hc. by apply IH.
Qed.

(** Splitting at a character what was joined with it gives the pieces
    back, when no piece holds the character. *)
Lemma split_char_join sep cols :
  cols <> [] -> Forall (fun col => lacks sep col = true) cols ->
  Py.split_char sep (Py.join (String sep "") cols) = cols.
Proof.
  intros Hne Hcols. induction Hcols as [|x cols Hx Hcols IH]; [done|].
  destruct cols as [|y cols].
  - simpl. unfold Py.split_char. rewrite split_char_go_lacks by done.
    f_equal. apply rev_rev.
  - change (Py.join (String sep "") (x :: y :: cols))
      with (x +:+ String sep (Py.join (String sep "") (y :: cols))).
    unfold Py.split_char. rewrite split_char_go_app by done.
    f_equal; [apply rev_rev|]. by apply IH.
Qed.

Lemma split_ws_go_words cur s :
  spacefree cur = true ->
  Forall (fun x => x <> "" /\ spacefree x = true) (Py.split_ws_go cur s).
Proof.
  revert cur. induction s as [|c s IH]; intros cur Hcur; simpl.
  - destruct cur as [|x cur]; [done|].
    repeat constructor; [by apply rev_nonempty|by rewrite spacefree_rev].
  - destruct (Py.isspace c) eqn:Hc.
    + destruct cur as [|x cur]; [by apply IH|].
      constructor; [|by apply IH].
      split; [by apply rev_nonempty|by rewrite spacefree_rev].
    + apply IH. unfold spacefree, chars in *. simpl. by rewrite Hc.
Qed.

Lemma split_ws_words s :
  Forall (fun x => x <> "" /\ spacefree x = true) (Py.split_ws s).
Proof. by apply split_ws_go_words. Qed.

Lemma basename_lacks p : lacks "/" p = true -> basename p = p.
Proof.
  intros H. unfold basename, Py.split_char.
  rewrite split_char_go_lacks by done. simpl. apply rev_rev.
Qed.

Lemma basename_lacks_slash p : lacks "/" (basename p) = true.
Proof.
  unfold basename.
  pose proof (split_char_go_pieces "/" "" p eq_refl) as H.
  fold (Py.split_char "/" p) in H.
  destruct (last (Py.split_char "/" p)) as [x|] eqn:Hlast; [|done].
  simpl. apply last_Some in Hlast as [l' Hl]. rewrite Hl in H.
  apply Forall_app in H as [_ H]. by inversion H.
Qed.

End splitting.

(** ** The tag of an archive *)

Section tag_pattern.

Lemma take_digits_app ds post :
  all_digits ds = true -> digit_first post = false ->
  take_digits (ds +:+ post) = ds.
Proof.
  intros Hd Hp. induction ds as [|c ds IH]; simpl.
  - destruct post as [|c r]; simpl in *; [done|]. by rewrite Hp.
  - unfold all_digits in Hd. simpl in Hd. apply andb_true_iff in Hd as [Hc Hd].
    rewrite Hc. f_equal. by apply IH.
Qed.

Lemma take_digits_not_digit s : digit_first s = false -> take_digits s = "".
Proof. destruct s as [|c r]; simpl; [done|]. by intros ->. Qed.

Lemma tag_tail_of_name b ds post :
  lacks newline b = true -> hyphen_digit_free b = true ->
  ds <> "" -> all_digits ds = true -> digit_first post = false ->
  tag_tail (b +:+ String "-" (ds +:+ post)) = Some (b +:+ String "-" ds).
Proof.
  intros Hnl Hfree Hne Hds Hpost.
  induction b as [|c b IH].
  - change (tag_tail (String "-" (ds +:+ post)) = Some (String "-" ds)).
    cbn [tag_tail]. rewrite bool_decide_true by done.
    rewrite take_digits_app by done.
    destruct ds; [done|]. done.
  - rewrite !app_String. cbn [tag_tail].
    rewrite lacks_cons in Hnl. apply andb_true_iff in Hnl as [Hc Hnl].
    cbn [hyphen_digit_free] in Hfree. apply andb_true_iff in Hfree as [Hc' Hfree].
    assert ((if bool_decide (c = "-"%char)
             then take_digits (b +:+ String "-" (ds +:+ post)) else "") = "") as ->.
    { case_bool_decide; [|done]. simpl in Hc'.
      apply take_digits_not_digit.
      destruct b as [|d b]; [done|]. rewrite app_String. simpl in *.
      by apply negb_true_iff. }
    apply negb_true_iff in Hc. unfold newline in Hc. rewrite Hc.
    rewrite IH by done. done.
Qed.

Lemma tag_head_of_name a rest m :
  lacks "-" a = true -> lacks newline a = true ->
  tag_tail rest = Some m ->
  tag_head (a +:+ String "-" rest) = Some (a +:+ String "-" m).
Proof.
  intros Hh Hnl Hrest. induction a as [|c a IH].
  - change (tag_head (String "-" rest) = Some (String "-" m)).
    cbn [tag_head]. rewrite bool_decide_true by done. by rewrite Hrest.
  - rewrite !app_String. cbn [tag_head].
    rewrite lacks_cons in Hh, Hnl.
    apply andb_true_iff in Hh as [Hc Hh]. apply andb_true_iff in Hnl as [Hc' Hnl].
    apply negb_true_iff in Hc, Hc'. rewrite Hc. unfold newline in Hc'. rewrite Hc'.
    by rewrite IH.
Qed.

Lemma re_search_tag_head s m : tag_head s = Some m -> re_search_tag s = Some m.
Proof. intros H. destruct s; simpl in *; by rewrite H. Qed.

Lemma tag_of_name a b ds post :
  lacks "-" a = true -> lacks newline a = true -> lacks newline b = true ->
  hyphen_digit_free b = true ->
  ds <> "" -> all_digits ds = true -> digit_first post = false ->
  re_search_tag (a +:+ "-" +:+ b +:+ "-" +:+ ds +:+ post)
  = Some (a +:+ "-" +:+ b +:+ "-" +:+ ds).
Proof.
  intros. apply re_search_tag_head.
  apply (tag_head_of_name a (b +:+ String "-" (ds +:+ post)) (b +:+ String "-" ds));
    try done.
  by apply tag_tail_of_name.
Qed.

Lemma take_digits_split r :
  exists post, r = take_digits r +:+ post /\ all_digits (take_digits r) = true
               /\ digit_first post = false.
Proof.
  induction r as [|c r (post & E & Hd & Hp)].
  - by exists "".
  - cbn [take_digits]. destruct (Py.isdigit c) eqn:Hc.
    + exists post. rewrite app_String, <- E. split; [done|]. split; [|done].
      unfold all_digits in *. simpl. by rewrite Hc.
    + exists (String c r). split; [done|]. split; [done|]. done.
Qed.

Lemma digit_first_app b r :
  b <> "" -> digit_first (b +:+ r) = digit_first b.
Proof. by destruct b. Qed.

Lemma take_digits_nil s : take_digits s = "" -> digit_first s = false.
Proof.
  destruct s as [|c r]; [done|]. simpl. by destruct (Py.isdigit c).
Qed.

Lemma tag_tail_shape s m :
  tag_tail s = Some m ->
  exists b ds post,
    s = b +:+ String "-" (ds +:+ post) /\ m = b +:+ String "-" ds /\
    lacks newline b = true /\ hyphen_digit_free b = true /\
    ds <> "" /\ all_digits ds = true /\ digit_first post = false.
Proof.
  revert m. induction s as [|c r IH]; intros m; [done|].
  cbn [tag_tail].
  destruct (if bool_decide (c = "-"%char) then take_digits r else "")
    as [|d ds'] eqn:Hd.
  - destruct (bool_decide (c = ascii_of_nat 10)) eqn:Hnl; [done|].
    destruct (tag_tail r) as [m'|] eqn:Hr; [|done].
    intros [= <-].
    destruct (IH m' eq_refl) as (b & ds & post & -> & -> & Hb & Hf & ? & ? & ?).
    exists (String c b), ds, post. rewrite !app_String.
    split; [done|]. split; [done|].
    split. { rewrite lacks_cons. unfold newline. by rewrite Hnl. }
    split; [|done].
    cbn [hyphen_digit_free]. rewrite Hf, andb_true_r.
    destruct (bool_decide (c = "-"%char)) eqn:Hc; [|done]. simpl.
    apply take_digits_nil in Hd.
    destruct b as [|x b]; [done|]. rewrite app_String in Hd. simpl in Hd.
    simpl. by rewrite Hd.
  - case_bool_decide as Hc; [|done]. subst c.
    intros [= <-].
    destruct (take_digits_split r) as (post & E & Hall & Hp).
    rewrite Hd in *.
    exists "", (String d ds'), post. rewrite <- E. done.
Qed.

Lemma tag_tail_some x r :
  lacks newline x = true -> is_Some (tag_tail r) ->
  is_Some (tag_tail (x +:+ String "-" r)).
Proof.
  intros Hx Hr. induction x as [|c x IH].
  - change (is_Some (tag_tail (String "-" r))). cbn [tag_tail].
    rewrite bool_decide_true by done.
    destruct (take_digits r); [|done].
    rewrite bool_decide_false by done.
    destruct Hr as [m ->]. done.
  - rewrite app_String. cbn [tag_tail].
    rewrite lacks_cons in Hx. apply andb_true_iff in Hx as [Hc Hx].
    destruct (if bool_decide _ then _ else _); [|done].
    apply negb_true_iff in Hc. unfold newline in Hc. rewrite Hc.
    destruct (IH Hx) as [m ->]. done.
Qed.

Lemma tag_head_shape s m :
  tag_head s = Some m ->
  exists a rest m',
    s = a +:+ String "-" rest /\ tag_tail rest = Some m' /\
    m = a +:+ String "-" m' /\
    lacks newline a = true /\ lacks "-" a = true.
Proof.
  revert m. induction s as [|c r IH]; intros m; [done|].
  cbn [tag_head].
  destruct (if bool_decide (c = "-"%char) then tag_tail r else None)
    as [m0|] eqn:Hm0.
  - case_bool_decide as Hc; [|done]. subst c. intros [= <-].
    by exists "", r, m0.
  - destruct (bool_decide (c = ascii_of_nat 10)) eqn:Hnl; [done|].
    destruct (tag_head r) as [m1|] eqn:Hr; [|done].
    intros [= <-].
    destruct (IH m1 eq_refl) as (a & rest & m' & -> & Hrest & -> & Ha & Hh).
    exists (String c a), rest, m'. rewrite !app_String.
    split; [done|]. split; [done|]. split; [done|].
    rewrite !lacks_cons, Ha, Hh. unfold newline. rewrite Hnl. simpl.
    split; [done|].
    destruct (bool_decide (c = "-"%char)) eqn:Hc; [|done]. exfalso.
    destruct (tag_tail_some a rest Ha) as [m2 Hm2]; [by eexists|].
    by rewrite Hm2 in Hm0.
Qed.

Lemma tag_head_some x r :
  lacks newline x = true -> is_Some (tag_head r) -> is_Some (tag_head (x +:+ r)).
Proof.
  intros Hx Hr. induction x as [|c x IH]; [done|].
  rewrite app_String. cbn [tag_head].
  rewrite lacks_cons in Hx. apply andb_true_iff in Hx as [Hc Hx].
  destruct (if bool_decide _ then _ else _); [done|].
  apply negb_true_iff in Hc. unfold newline in Hc. rewrite Hc.
  destruct (IH Hx) as [m ->]. done.
Qed.

Lemma re_search_tag_shape s t :
  re_search_tag s = Some t ->
  exists pre rest,
    s = pre +:+ rest /\ tag_head rest = Some t /\
    (lacks newline s = true -> pre = "").
Proof.
  induction s as [|c r IH].
  - simpl. done.
  - cbn [re_search_tag]. destruct (tag_head (String c r)) as [m|] eqn:Hm.
    + intros [= <-]. by exists "", (String c r).
    + intros (pre & rest & -> & Hrest & Hpre)%IH.
      exists (String c pre), rest. split; [done|]. split; [done|].
      intros Hnl. exfalso.
      destruct (tag_head_some (String c pre) rest) as [m Hm'].
      * rewrite <- app_String, lacks_app in Hnl.
        by apply andb_true_iff in Hnl as [? _].
      * by eexists.
      * rewrite app_String in Hm'. by rewrite Hm' in Hm.
Qed.

Lemma tag_shape zip_file t :
  extract_tag_from_zip zip_file = Some t ->
  exists pre a b ds post,
    basename zip_file = pre +:+ t +:+ post /\
    t = a +:+ "-" +:+ b +:+ "-" +:+ ds /\
    lacks "-" a = true /\ lacks newline a = true /\
    lacks newline b = true /\ hyphen_digit_free b = true /\
    ds <> "" /\ all_digits ds = true /\ digit_first post = false /\
    (lacks newline (basename zip_file) = true -> pre = "").
Proof.
  unfold extract_tag_from_zip.
  intros (pre & rest & E & (a & rest' & m' & -> & Htail & -> & Ha & Hh)%tag_head_shape
          & Hpre)%re_search_tag_shape.
  apply tag_tail_shape in Htail
    as (b & ds & post & -> & -> & Hb & Hf & Hne & Hds & Hpost).
  exists pre, a, b, ds, post. rewrite E.
  split.
  { f_equal. change (a +:+ String "-" (b +:+ String "-" (ds +:+ post))
                     = (a +:+ String "-" (b +:+ String "-" ds)) +:+ post).
    rewrite string_app_assoc, !app_String. f_equal. f_equal.
    rewrite string_app_assoc, !app_String. done. }
  rewrite <- E. done.
Qed.

Lemma tag_fixed zip_file t :
  extract_tag_from_zip zip_file = Some t -> extract_tag_from_zip t = Some t.
Proof.
  intros (pre & a & b & ds & post & E & -> & Ha & Hna & Hnb & Hf & Hne & Hds & _ & _)
         %tag_shape.
  pose proof (basename_lacks_slash zip_file) as Hslash.
  rewrite E, (lacks_app _ pre),
    (lacks_app _ (a +:+ "-" +:+ b +:+ "-" +:+ ds) post) in Hslash.
  apply andb_true_iff in Hslash as [_ [Hslash _]%andb_true_iff].
  unfold extract_tag_from_zip. rewrite basename_lacks by done.
  pose proof (tag_of_name a b ds "" Ha Hna Hnb Hf Hne Hds eq_refl) as H.
  by rewrite string_app_nil_r in H.
Qed.

End tag_pattern.

(** X1.  When [extract_tag_from_zip] finds a tag, the base name of the file
    holds it as [a-b-digits]: [a] has no hyphen, no hyphen inside [b] is
    followed by a digit, the digits are all the digits that follow the second
    hyphen (the next character is none), and the tag holds no line break.
    In a name without line break the tag is its beginning. *)
Theorem extract_tag_from_zip_shape (zip_file t : string) :
  extract_tag_from_zip zip_file = Some t ->
  exists pre a b ds post,
    basename zip_file = pre +:+ t +:+ post /\
    t = a +:+ "-" +:+ b +:+ "-" +:+ ds /\
    lacks "-" a = true /\ lacks newline a = true /\
    lacks newline b = true /\ hyphen_digit_free b = true /\
    ds <> "" /\ all_digits ds = true /\ digit_first post = false /\
    (lacks newline (basename zip_file) = true -> pre = "").
Proof. apply tag_shape. Qed.

(** The name of a build of the ROM. *)
Lemma extract_tag_from_zip_shape_witness :
  exists pre a b ds post,
    basename "axion-1.2-BETA-20250326-OFFICIAL-GMS-pipa.zip"
    = pre +:+ "axion-1.2-BETA-20250326" +:+ post /\
    "axion-1.2-BETA-20250326" = a +:+ "-" +:+ b +:+ "-" +:+ ds /\
    lacks "-" a = true /\ lacks newline a = true /\
    lacks newline b = true /\ hyphen_digit_free b = true /\
    ds <> "" /\ all_digits ds = true /\ digit_first post = false /\
    (lacks newline (basename "axion-1.2-BETA-20250326-OFFICIAL-GMS-pipa.zip") = true
     -> pre = "").
Proof.
  exact (extract_tag_from_zip_shape
           "axion-1.2-BETA-20250326-OFFICIAL-GMS-pipa.zip"
           "axion-1.2-BETA-20250326" eq_refl).
Defined.

(** X2.  The tag of a file named [a-b-digits...], where [a] has no hyphen,
    no hyphen inside [b] is followed by a digit and the character after the
    digits is no digit (no line break and no slash in the name), is
    [a-b-digits]: the text up to the first hyphen, then up to the next hyphen
    that a digit follows, then the whole run of digits. *)
Theorem extract_tag_from_zip_of_name (a b ds post : string) :
  lacks "-" a = true -> lacks newline a = true -> lacks newline b = true ->
  hyphen_digit_free b = true ->
  ds <> "" -> all_digits ds = true -> digit_first post = false ->
  lacks "/" (a +:+ "-" +:+ b +:+ "-" +:+ ds +:+ post) = true ->
  extract_tag_from_zip (a +:+ "-" +:+ b +:+ "-" +:+ ds +:+ post)
  = Some (a +:+ "-" +:+ b +:+ "-" +:+ ds).
Proof.
  intros. unfold extract_tag_from_zip. rewrite basename_lacks by done.
  by apply tag_of_name.
Qed.

(** A name with a version in two parts: the tag runs to the build date. *)
Lemma extract_tag_from_zip_of_name_witness :
  extract_tag_from_zip
    ("axion" +:+ "-" +:+ "1.2-BETA" +:+ "-" +:+ "20250326" +:+ "-OFFICIAL-GMS-pipa.zip")
  = Some ("axion" +:+ "-" +:+ "1.2-BETA" +:+ "-" +:+ "20250326").
Proof.
  apply (extract_tag_from_zip_of_name "axion" "1.2-BETA" "20250326"
           "-OFFICIAL-GMS-pipa.zip"); reflexivity || discriminate.
Defined.

(** X3.  A tag that [extract_tag_from_zip] found is its own tag: the
    function applied to the tag returns the tag. *)
Theorem extract_tag_from_zip_fixed (zip_file t : string) :
  extract_tag_from_zip zip_file = Some t -> extract_tag_from_zip t = Some t.
Proof. apply tag_fixed. Qed.

Lemma extract_tag_from_zip_fixed_witness :
  extract_tag_from_zip "rom-1.0-20250101" = Some "rom-1.0-20250101".
Proof.
  exact (extract_tag_from_zip_fixed "rom-1.0-20250101.zip" "rom-1.0-20250101" eq_refl).
Defined.

(** ** Prompts *)

Section prompts.

Lemma refusals_S prompt complaint n tr :
  refusals prompt complaint (S n) ++ tr
  = refusals prompt complaint n
      ++ (match complaint with
          | Some text => EvPrint text :: EvInput prompt :: tr
          | None => EvInput prompt :: tr
          end).
Proof.
  unfold refusals.
  replace (S n) with (n + 1)%nat by lia.
  rewrite replicate_add, join_app. simpl. rewrite app_nil_r, <- app_assoc.
  by destruct complaint.
Qed.

Lemma ask_loop_answer {A} prompt (accept : string -> option A) complaint
    junk answer a rest tr :
  Forall (fun line => accept line = None) junk ->
  accept answer = Some a ->
  ask_loop prompt accept complaint (junk ++ answer :: rest) tr
  = (Ok a, mkState rest
             (EvInput prompt :: refusals prompt complaint (length junk) ++ tr)).
Proof.
  intros Hjunk Ha. revert tr.
  induction Hjunk as [|line junk Hline _ IH]; intros tr; simpl.
  - by rewrite Ha.
  - rewrite Hline, IH. by rewrite <- refusals_S.
Qed.

Lemma ask_loop_eof {A} prompt (accept : string -> option A) complaint junk tr :
  Forall (fun line => accept line = None) junk ->
  ask_loop prompt accept complaint junk tr
  = (Raise EOFError,
     mkState [] (EvInput prompt :: refusals prompt complaint (length junk) ++ tr)).
Proof.
  intros Hjunk. revert tr.
  induction Hjunk as [|line junk Hline _ IH]; intros tr; simpl.
  - done.
  - rewrite Hline, IH. by rewrite <- refusals_S.
Qed.

Lemma confirmation_refused line :
  ~ yes_or_no line ->
  (let response := Py.lower line in
   if bool_decide (response = "y") then Some true
   else if bool_decide (response = "n") then Some false
   else None) = None.
Proof.
  unfold yes_or_no. intros H. cbv zeta.
  repeat case_bool_decide; try done; tauto.
Qed.

Lemma note_prompts_S i n tr :
  note_prompts i (S n) ++ tr
  = note_prompts (S i) n ++ EvInput ("Note " +:+ Py.str i +:+ ": ") :: tr.
Proof.
  unfold note_prompts. simpl. rewrite reverse_cons, <- app_assoc. done.
Qed.

Lemma note_prompts_last i n :
  note_prompts i (S n)
  = EvInput ("Note " +:+ Py.str (i + n) +:+ ": ") :: note_prompts i n.
Proof.
  unfold note_prompts. rewrite seq_S, fmap_app, reverse_app. done.
Qed.

Lemma read_notes_stop count i acc l rest tr :
  ends_notes l ->
  read_notes (S count) i acc (mkState (l :: rest) tr)
  = (Ok acc, mkState rest (EvInput ("Note " +:+ Py.str i +:+ ": ") :: tr)).
Proof.
  intros Hl. cbn [read_notes]. unfold bind, input. simpl.
  assert (bool_decide (l = "") || bool_decide (Py.lower l = "done") = true) as ->.
  { destruct Hl as [->| ->]; [done|]. by rewrite orb_true_r. }
  done.
Qed.

Lemma read_notes_typed count i acc typed rest tr :
  Forall (fun l => ~ ends_notes l) typed ->
  (length typed <= count)%nat ->
  read_notes count i acc (mkState (typed ++ rest) tr)
  = read_notes (count - length typed) (i + length typed)
      (acc ++ ((fun note => "- " +:+ note) <$> typed))
      (mkState rest (note_prompts i (length typed) ++ tr)).
Proof.
  intros Htyped. revert count i acc tr.
  induction Htyped as [|l typed Hl _ IH]; intros count i acc tr Hlen.
  - simpl. rewrite Nat.sub_0_r, Nat.add_0_r, app_nil_r. done.
  - destruct count as [|count]; [simpl in Hlen; lia|].
    cbn [read_notes]. unfold bind at 1. unfold input at 1. simpl.
    assert (bool_decide (l = "") || bool_decide (Py.lower l = "done") = false) as ->.
    { apply orb_false_iff. split; apply bool_decide_eq_false; intros ?;
        apply Hl; [by left|by right]. }
    rewrite IH by (simpl in Hlen; lia).
    rewrite <- app_assoc. simpl.
    rewrite (note_prompts_S i (length typed)).
    f_equal. lia.
Qed.

Lemma get_user_notes_text (notes : list string) s :
  (match notes with
   | [] => ret "- Auto-generated release"
   | _ => ret (Py.join nl notes)
   end) s
  = (Ok (match notes with
         | [] => "- Auto-generated release"
         | _ => Py.join nl notes
         end), s).
Proof. by destruct notes. Qed.

End prompts.

(** X4.  [get_confirmation] without [--yes] skips every line that is
    neither "y" nor "n" (in either case), printing its complaint and asking
    again, and returns at the first line that is one of them: [True] for
    "y", [False] for "n"; the lines after it are left to be read.  When no
    line answers, the end of the input raises [EOFError].  With [--yes] it
    returns [True] without reading. *)
Theorem get_confirmation_first_answer (junk : list string) :
  Forall (fun line => ~ yes_or_no line) junk ->
  (forall answer rest tr,
     yes_or_no answer ->
     get_confirmation false (mkState (junk ++ answer :: rest) tr)
     = (Ok (bool_decide (Py.lower answer = "y")),
        mkState rest
          (EvInput "Execute this command? (Y/N): "
           :: refusals "Execute this command? (Y/N): "
                (Some "Please enter Y or N") (length junk) ++ tr))) /\
  (forall tr,
     get_confirmation false (mkState junk tr)
     = (Raise EOFError,
        mkState []
          (EvInput "Execute this command? (Y/N): "
           :: refusals "Execute this command? (Y/N): "
                (Some "Please enter Y or N") (length junk) ++ tr))) /\
  (forall s, get_confirmation true s = (Ok true, s)).
Proof.
  intros Hjunk.
  assert (Forall (fun line =>
            (let response := Py.lower line in
             if bool_decide (response = "y") then Some true
             else if bool_decide (response = "n") then Some false
             else None) = None) junk) as Hnone.
  { eapply Forall_impl; [exact Hjunk|]. intros line. apply confirmation_refused. }
  split; [|split; [|done]].
  - intros answer rest tr Hans. unfold get_confirmation, ask_until. simpl.
    apply ask_loop_answer; [done|].
    cbv zeta. destruct Hans as [->| ->]; done.
  - intros tr. unfold get_confirmation, ask_until. simpl.
    by apply ask_loop_eof.
Qed.

(** Two lines that do not answer, then "Y". *)
Lemma get_confirmation_first_answer_witness :
  get_confirmation false (mkState (["maybe"; ""] ++ "Y" :: ["later"]) [])
  = (Ok true,
     mkState ["later"]
       [EvInput "Execute this command? (Y/N): ";
        EvPrint "Please enter Y or N"; EvInput "Execute this command? (Y/N): ";
        EvPrint "Please enter Y or N"; EvInput "Execute this command? (Y/N): "]).
Proof.
  refine (proj1 (get_confirmation_first_answer ["maybe"; ""] _) "Y" ["later"] [] _).
  - repeat constructor; intros [H|H]; vm_compute in H; discriminate.
  - left. reflexivity.
Defined.

(** X5.  [get_user_notes] in the shell reads notes until an empty line or
    the word "done" (in any case), and five at most: with five notes typed it
    stops without reading a sixth line; with fewer it reads the line that
    ends them; when the input ends first it raises [EOFError].  It asks for
    "Note 0" to "Note 4" and returns the notes as bullets, one per line, or
    the default text when none was typed. *)
Theorem get_user_notes_reads (typed : list string) :
  Forall (fun l => ~ ends_notes l) typed ->
  (length typed <= 5)%nat ->
  (forall rest tr,
     length typed = 5%nat ->
     get_user_notes true (mkState (typed ++ rest) tr)
     = (Ok (notes_text typed), mkState rest (note_prompts 0 5 ++ tr))) /\
  (forall l rest tr,
     (length typed < 5)%nat -> ends_notes l ->
     get_user_notes true (mkState (typed ++ l :: rest) tr)
     = (Ok (notes_text typed),
        mkState rest (note_prompts 0 (S (length typed)) ++ tr))) /\
  (forall tr,
     (length typed < 5)%nat ->
     get_user_notes true (mkState typed tr)
     = (Raise EOFError,
        mkState [] (note_prompts 0 (S (length typed)) ++ tr))).
Proof.
  intros Htyped Hlen.
  assert (forall notes : list string,
            (match (fun note => "- " +:+ note) <$> notes with
             | [] => "- Auto-generated release"
             | _ => Py.join nl ((fun note => "- " +:+ note) <$> notes)
             end) = notes_text notes) as Htext.
  { by intros []. }
  split; [|split].
  - intros rest tr H5. unfold get_user_notes. cbn [negb]. unfold bind.
    rewrite read_notes_typed by done. rewrite H5. simpl.
    unfold ret. rewrite <- Htext. by destruct typed.
  - intros l rest tr Hlt Hl. unfold get_user_notes. cbn [negb]. unfold bind.
    rewrite read_notes_typed by done.
    destruct (5 - length typed)%nat as [|count] eqn:E; [lia|].
    rewrite read_notes_stop by done. simpl.
    rewrite get_user_notes_text, Htext, note_prompts_last.
    done.
  - intros tr Hlt. unfold get_user_notes. cbn [negb]. unfold bind.
    rewrite <- (app_nil_r typed) at 1.
    rewrite read_notes_typed by done.
    destruct (5 - length typed)%nat as [|count] eqn:E; [lia|].
    cbn [read_notes]. unfold bind, input. simpl.
    rewrite note_prompts_last. done.
Qed.

(** Two notes, then "DONE"; the answer "y" is left for the next prompt. *)
Lemma get_user_notes_reads_witness :
  get_user_notes true (mkState (["fix wifi"; "new kernel"] ++ "DONE" :: ["y"]) [])
  = (Ok ("- fix wifi" +:+ nl +:+ "- new kernel"),
     mkState ["y"] [EvInput "Note 2: "; EvInput "Note 1: "; EvInput "Note 0: "]).
Proof.
  refine (proj1 (proj2 (get_user_notes_reads ["fix wifi"; "new kernel"] _ _))
            "DONE" ["y"] [] _ _).
  - repeat constructor; intros [H|H]; vm_compute in H; discriminate.
  - simpl. lia.
  - simpl. lia.
  - right. reflexivity.
Defined.

(** ** The list of releases *)

Section release_list.

Lemma parse_release_line_words line rs :
  parse_release_line line = Some rs ->
  Forall tag_is_word rs /\ (length rs <= 1)%nat.
Proof.
  unfold parse_release_line. case_bool_decide.
  { intros [= <-]. split; [done|simpl; lia]. }
  destruct (Py.split_char tab line) as [|p0 [|p1 [|p2 more]]];
    try (intros [= <-]; split; [done|simpl; lia]).
  pose proof (split_ws_words (Py.strip p2)) as Hw.
  destruct (Py.split_ws (Py.strip p2)) as [|tag ?]; [done|].
  intros [= <-]. split; [|simpl; lia].
  apply Forall_cons. split; [|done].
  by apply Forall_cons in Hw as [Hw _].
Qed.

Lemma parse_release_lines_words lines rs :
  parse_release_lines lines = Some rs ->
  Forall tag_is_word rs /\ (length rs <= length lines)%nat.
Proof.
  revert rs. induction lines as [|line lines IH]; intros rs; simpl.
  { intros [= <-]. done. }
  destruct (parse_release_line line) as [here|] eqn:Hhere; [|done].
  destruct (parse_release_lines lines) as [later|]; [|done].
  intros [= <-].
  apply parse_release_line_words in Hhere as [H1 H2].
  destruct (IH later eq_refl) as [H3 H4].
  split; [by apply Forall_app|]. rewrite length_app. lia.
Qed.

Lemma parse_release_lines_None line lines :
  line ∈ lines -> parse_release_line line = None ->
  parse_release_lines lines = None.
Proof.
  intros Hin Hline. induction lines as [|l lines IH]; [by apply elem_of_nil in Hin|].
  simpl. apply elem_of_cons in Hin as [<-|Hin].
  - by rewrite Hline.
  - rewrite IH by done. by destruct (parse_release_line l).
Qed.

End release_list.

(** X6.  Every release that [fetch_recent_releases] returns has a tag that
    is one word: not empty and without white space.  There are no more
    releases than lines in the answer of the client, and none when the
    client fails. *)
Theorem fetch_recent_releases_tags
    (w : world) (limit : nat) (s s' : state) (releases : list release) :
  fetch_recent_releases w limit s = (Ok releases, s') ->
  let r := client w (trace s) (list_cmd limit) in
  Forall tag_is_word releases /\
  (length releases <= length (Py.split_str nl (Py.strip (Py.strip (stdout r)))))%nat /\
  (exit_code r <> 0 -> releases = []).
Proof.
  unfold fetch_recent_releases, bind, run_command, popen, ret. simpl.
  fold (list_cmd limit).
  destruct (exit_code _ =? 0) eqn:Hcode; simpl.
  - destruct (parse_release_lines _) as [rs|] eqn:Hrs; [|done].
    intros [= <- <-]. apply parse_release_lines_words in Hrs as [H1 H2].
    split; [done|]. split; [done|]. intros Hne. by apply Z.eqb_eq in Hcode.
  - intros [= <- <-]. split; [done|]. split; [simpl; lia|done].
Qed.


(** A list of two releases and a line that is too short. *)
Lemma fetch_recent_releases_tags_witness :
  let out := "rom v1" +:+ String tab "Latest" +:+ String tab "v1  2025-01-01"
             +:+ nl +:+ "short line" +:+ nl
             +:+ "rom v0" +:+ String tab EmptyString +:+ String tab "v0"
             +:+ String tab "2024-12-01" in
  Forall tag_is_word
    [mkRelease "rom v1" "v1" "Latest" "Unknown";
     mkRelease "rom v0" "v0" EmptyString "2024-12-01"].
Proof.
  intros out.
  exact (proj1 (fetch_recent_releases_tags (listing out) 5 (start []) _ _ eq_refl)).
Defined.

(** X7.  A line of the list that is not blank, has three columns or more
    and a blank third column makes [fetch_recent_releases] raise
    [IndexError]: the first word of the column is taken without a test. *)
Theorem fetch_recent_releases_blank_tag
    (w : world) (limit : nat) (s : state)
    (p0 p1 p2 : string) (more : list string) :
  let r := client w (trace s) (list_cmd limit) in
  let line := columns (p0 :: p1 :: p2 :: more) in
  exit_code r = 0 ->
  line ∈ Py.split_str nl (Py.strip (Py.strip (stdout r))) ->
  Forall (fun col => lacks tab col = true) (p0 :: p1 :: p2 :: more) ->
  Py.strip line <> "" ->
  blank p2 = true ->
  fetch_recent_releases w limit s
  = (Raise IndexError, mkState (stdin s) (EvRun (list_cmd limit) :: trace s)).
Proof.
  intros r line Hcode Hin Hcols Hline Hp2.
  unfold fetch_recent_releases, bind, run_command, popen, ret. simpl.
  fold (list_cmd limit). fold r. rewrite Hcode. simpl.
  rewrite (parse_release_lines_None line); [done|done|].
  unfold parse_release_line. rewrite bool_decide_false by done.
  unfold line, columns. rewrite split_char_join by done.
  by rewrite strip_blank.
Qed.

(** A release listed without a tag. *)
Lemma fetch_recent_releases_blank_tag_witness :
  fetch_recent_releases
    (listing (columns ["rom v1"; "Draft"; " "; "2025-01-01"])) 5 (start [])
  = (Raise IndexError, mkState [] [EvRun (list_cmd 5)]).
Proof.
  apply (fetch_recent_releases_blank_tag
           (listing (columns ["rom v1"; "Draft"; " "; "2025-01-01"])) 5 (start [])
           "rom v1" "Draft" " " ["2025-01-01"]).
  - reflexivity.
  - apply list_elem_of_In. vm_compute. by left.
  - repeat constructor.
  - vm_compute. discriminate.
  - reflexivity.
Defined.

(** ** Plans without duplicates *)

Section distinct_files.

Lemma sha_of_inj : Inj (=) (=) sha_of.
Proof.
  intros z1 z2 H. unfold sha_of in H.
  apply (f_equal String.rev) in H. rewrite !rev_app_distr in H.
  apply String.app_inj in H.
  rewrite <- (rev_rev z1), <- (rev_rev z2). by rewrite H.
Qed.

Lemma not_two_extensions s :
  (Py.endswith ".zip" s = true -> Py.endswith ".img" s = true -> False) /\
  (Py.endswith ".sha256sum" s = true -> Py.endswith ".zip" s = true -> False) /\
  (Py.endswith ".sha256sum" s = true -> Py.endswith ".img" s = true -> False).
Proof.
  unfold Py.endswith. destruct (String.rev s) as [|c r]; [done|].
  change (String.rev ".zip") with "piz.".
  change (String.rev ".img") with "gmi.".
  change (String.rev ".sha256sum") with "mus652ahs.".
  cbn [Py.startswith].
  repeat split; intros H1 H2;
    apply andb_true_iff in H1 as [H1 _]; apply andb_true_iff in H2 as [H2 _];
    apply bool_decide_eq_true in H1, H2; congruence.
Qed.

Lemma sorted_lookups_NoDup {A} (l : list A) (idxs : list nat) (fs : list A) :
  NoDup l -> StronglySorted lt idxs ->
  Forall2 (fun i f => l !! i = Some f) idxs fs -> NoDup fs.
Proof.
  intros Hl Hs Hall. revert Hs.
  induction Hall as [|i f idxs fs Hi Hall IH]; intros Hs; [constructor|].
  apply StronglySorted_inv in Hs as [Hs Hlt].
  constructor; [|by apply IH].
  intros Hin. apply list_elem_of_lookup in Hin as [k Hk].
  destruct (Forall2_lookup_r _ _ _ _ _ Hall Hk) as (j & Hj & Hlj).
  assert (i = j) as -> by (by eapply NoDup_lookup).
  apply list_elem_of_lookup_2 in Hj.
  eapply Forall_forall in Hlt; [|done]. lia.
Qed.

Lemma manual_pick_NoDup (all_files : list string) selected files warns :
  NoDup all_files ->
  manual_pick all_files selected = (Selected files, warns) -> NoDup files.
Proof.
  intros Hnd. unfold manual_pick.
  destruct (parse_parts_spec (Z.of_nat (length all_files)) (Py.split_ws selected))
    as (_ & Hrange & _).
  destruct (parse_parts _ _) as [idxs ws]. cbn [fst snd] in Hrange.
  assert (Forall (fun i => 0 <= i < Z.of_nat (length all_files)) (sorted_set idxs))
    as Hrange'.
  { apply Forall_forall. intros i Hi.
    apply (proj1 (elem_of_sorted_set _ _)) in Hi.
    by eapply Forall_forall in Hrange. }
  destruct (pick_files_in_range all_files (sorted_set idxs) Hrange')
    as (fs & -> & Hall).
  intros Hpick.
  assert (fs = files) as <- by (destruct fs; congruence).
  eapply sorted_lookups_NoDup; [done| |done].
  apply StronglySorted_to_nat; [|apply sorted_set_sorted].
  eapply Forall_impl; [done|]. simpl. lia.
Qed.

Lemma scanned_NoDup zips imgs : scanned zips imgs -> NoDup (zips ++ imgs).
Proof.
  intros (Hz & Hi & Hze & Hie). apply NoDup_app. split; [done|]. split; [|done].
  intros x Hx Hx'.
  eapply Forall_forall in Hze; [|done]. eapply Forall_forall in Hie; [|done].
  destruct (not_two_extensions x) as (H1 & _ & _). by apply H1.
Qed.

Lemma add_sha_files_NoDup sel zips imgs shas :
  scanned zips imgs -> NoDup sel -> sel ⊆ zips ++ imgs ->
  NoDup (add_sha_files sel zips shas).
Proof.
  intros Hscan Hsel Hsub. pose proof Hscan as (Hz & Hi & Hze & Hie).
  rewrite add_sha_files_app. apply NoDup_app. split; [done|]. split.
  - intros x Hx (z & -> & Hzin)%list_elem_of_fmap.
    apply Hsub, elem_of_app in Hx.
    pose proof (endswith_app ".sha256sum" z) as Hsha. fold (sha_of z) in Hsha.
    destruct (not_two_extensions (sha_of z)) as (_ & H2 & H3).
    destruct Hx as [Hx|Hx].
    + eapply Forall_forall in Hze; [|done]. by apply H2.
    + eapply Forall_forall in Hie; [|done]. by apply H3.
  - pose proof sha_of_inj. apply (NoDup_fmap_2 _). by apply NoDup_filter.
Qed.

Lemma select_files_for_release_NoDup zips imgs shas s plan s' :
  select_files_for_release zips imgs shas s = (Ok plan, s') ->
  exists sel,
    (NoDup (zips ++ imgs) -> NoDup sel) /\
    sel ⊆ zips ++ imgs /\ plan = add_sha_files sel zips shas.
Proof.
  unfold select_files_for_release, bind.
  destruct (ask_until _ _ _ s) as [[choice| |] s1]; try done.
  repeat case_bool_decide.
  - intros [= <- <-]. eexists; split; [|split; [|done]]; done.
  - intros [= <- <-]. eexists; split; [|split; [|done]]; [|set_solver].
    by intros [_ [_ ?]]%NoDup_app.
  - intros [= <- <-]. eexists; split; [|split; [|done]]; [|set_solver].
    by intros [? _]%NoDup_app.
  - destruct (input _ s1) as [[selected| |] s2]; try done.
    case_bool_decide.
    + unfold print, log, ret. intros [= <- <-].
      eexists; split; [|split; [|done]]; done.
    + destruct (print_all _ s2) as [[[]| |] s3]; try done.
      destruct (manual_pick (zips ++ imgs) selected) as [res warns] eqn:Hpick.
      simpl. destruct res as [files| |].
      * unfold print, log, ret. intros [= <- <-].
        exists files. split; [|split; [|done]].
        -- intros Hnd. by eapply manual_pick_NoDup.
        -- unfold manual_pick in Hpick.
           destruct (parse_parts _ _) as [idxs ws].
           destruct (pick_files _ _) as [fs|] eqn:Hfiles; [|done].
           apply pick_files_subseteq in Hfiles.
           destruct fs; simplify_eq; done.
      * unfold print, log, ret. intros [= <- <-].
        eexists; split; [|split; [|done]]; done.
      * unfold print, log, ret. intros [= <- <-].
        eexists; split; [|split; [|done]]; done.
Qed.

End distinct_files.

(** X8.  When the scan lists every archive and every image once, under a
    name that ends with its extension, every plan holds each file once: the
    plan that the flags make and every plan of the menu, whatever was typed
    (a number typed twice, ranges that overlap). *)
Theorem plans_without_duplicates (zips imgs shas : list string) :
  scanned zips imgs ->
  (forall a, NoDup (add_sha_files (files_by_flags a zips imgs) zips shas)) /\
  (forall s plan s',
     select_files_for_release zips imgs shas s = (Ok plan, s') -> NoDup plan).
Proof.
  intros Hscan. pose proof (scanned_NoDup _ _ Hscan) as Hall.
  pose proof Hall as (Hz & _ & Hi)%NoDup_app.
  split.
  - intros a. apply (add_sha_files_NoDup _ _ imgs); [done| |].
    + unfold files_by_flags. by repeat case_match.
    + unfold files_by_flags. repeat case_match; set_solver.
  - intros s plan s' (sel & Hsel & Hsub & ->)%select_files_for_release_NoDup.
    apply (add_sha_files_NoDup _ _ imgs); auto.
Qed.

(** One archive and one image. *)
Lemma plans_without_duplicates_witness :
  NoDup (add_sha_files (files_by_flags flag_all ["a.zip"] ["b.img"]) ["a.zip"]
           ["a.zip.sha256sum"]).
Proof.
  refine (proj1 (plans_without_duplicates ["a.zip"] ["b.img"] ["a.zip.sha256sum"] _)
            flag_all).
  repeat split.
  - apply NoDup_singleton.
  - apply NoDup_singleton.
  - repeat constructor.
  - repeat constructor.
Defined.

(** ** Numerals and the menu of releases *)

Section numerals.

Lemma int_digits_uint (d : Decimal.uint) (n : nat) (prev : bool) :
  d <> Decimal.Nil \/ prev = true ->
  Py.int_digits (Z.of_nat n) prev (NilEmpty.string_of_uint d)
  = Some (Z.of_nat (Nat.of_uint_acc d n)).
Proof.
  revert n prev.
  induction d as [|d IH|d IH|d IH|d IH|d IH|d IH|d IH|d IH|d IH|d IH];
    intros n prev Hd.
  { destruct Hd as [?| ->]; done. }
  all: cbn [NilEmpty.string_of_uint Py.int_digits Nat.of_uint_acc];
    rewrite Nat.tail_mul_spec;
    match goal with
    | |- context [Py.digit ?c] =>
        let v := eval vm_compute in (Py.digit c) in
        change (Py.digit c) with v
    end; cbv iota beta;
    match goal with
    | |- Py.int_digits ?z true _ = Some (Z.of_nat (Nat.of_uint_acc _ ?m)) =>
        replace z with (Z.of_nat m) by lia
    end;
    apply IH; by right.
Qed.

Lemma spacefree_uint d : spacefree (NilEmpty.string_of_uint d) = true.
Proof. induction d; simpl; done. Qed.

Lemma int_space_isspace c : Py.int_space c = true -> Py.isspace c = true.
Proof. destruct c as [[] [] [] [] [] [] [] []]; vm_compute; congruence. Qed.

Lemma int_lstrip_spacefree s : spacefree s = true -> Py.int_lstrip s = s.
Proof.
  destruct s as [|c r]; [done|]. unfold spacefree, chars. simpl.
  intros [Hc _]%andb_true_iff. apply negb_true_iff in Hc.
  destruct (Py.int_space c) eqn:E; [|done].
  apply int_space_isspace in E. congruence.
Qed.

Lemma int_strip_spacefree s : spacefree s = true -> Py.int_strip s = s.
Proof.
  intros Hs. unfold Py.int_strip.
  rewrite (int_lstrip_spacefree s) by done.
  rewrite int_lstrip_spacefree by (by rewrite spacefree_rev).
  apply rev_rev.
Qed.

Lemma count_digits_length s : (Py.count_digits s <= String.length s)%nat.
Proof. induction s as [|c s IH]; simpl; [done|]. destruct (Py.isdigit c); lia. Qed.

(** [int(str(n)) == n], within the limit of [int]. *)
Lemma int_str n :
  (String.length (Py.str n) <= Py.max_str_digits)%nat ->
  Py.int (Py.str n) = Some (Z.of_nat n).
Proof.
  intros Hlen.
  assert (Py.int_numeral (Py.str n) = Some (Z.of_nat n)) as Hnum.
  { unfold Py.int_numeral.
    assert ((Py.max_str_digits <? Py.count_digits (Py.str n))%nat = false) as ->.
    { apply Nat.ltb_ge. pose proof (count_digits_length (Py.str n)). lia. }
    unfold Py.str.
    pose proof (DecimalNat.Unsigned.of_to n) as Hn. unfold Nat.of_uint in Hn.
    assert (Nat.to_uint n <> Decimal.Nil) as Hnil.
    { intros E. rewrite E in Hn. simpl in Hn. subst n. done. }
    pose proof (int_digits_uint (Nat.to_uint n) 0 false (or_introl Hnil)) as H.
    rewrite Hn in H. exact H. }
  unfold Py.int.
  rewrite int_strip_spacefree by apply spacefree_uint.
  revert Hnum. unfold Py.str.
  destruct (Nat.to_uint n) as [|d|d|d|d|d|d|d|d|d|d]; try done.
Qed.

Lemma py_index_nat {A} (l : list A) (k : nat) x :
  l !! k = Some x -> py_index l (Z.of_nat (S k) - 1) = Some x.
Proof.
  intros Hk. pose proof (lookup_lt_Some _ _ _ Hk) as Hlt.
  unfold py_index.
  assert ((0 <=? Z.of_nat (S k) - 1)
          && (Z.of_nat (S k) - 1 <? Z.of_nat (length l)) = true) as ->.
  { apply andb_true_iff. split; [apply Z.leb_le|apply Z.ltb_lt]; lia. }
  by replace (Z.to_nat (Z.of_nat (S k) - 1)) with k by lia.
Qed.

End numerals.

(** X9.  The choice [k+1] in the menu of releases selects the release
    listed at place [k] (counted from 0), when its numeral is within the
    limit of [int] on digits: the choice is read back as a number without
    error, and the next command of the client looks up the tag of that
    release. *)
Theorem listed_release_chosen
    (w : world) (releases : list release) (zips imgs shas : list string)
    (k : nat) (chosen : release) (rest : list string) (tr : list event) :
  releases !! k = Some chosen ->
  (String.length (Py.str (S k)) <= Py.max_str_digits)%nat ->
  exists new,
    trace (interactive_upload w releases zips imgs shas
             (mkState (Py.str (S k) :: rest) tr)).2
    = new ++ EvRun ["gh"; "release"; "view"; rel_tag chosen]
          :: EvInput (release_prompt (length releases)) :: tr.
Proof.
  intros Hk Hdigits. pose proof (lookup_lt_Some _ _ _ Hk) as Hlt.
  unfold interactive_upload. cbv zeta. fold (release_prompt (length releases)).
  unfold bind at 1. unfold ask_until. cbn [stdin trace ask_loop].
  rewrite bool_decide_true.
  2:{ apply list_elem_of_fmap. exists (S k). split; [done|].
      apply elem_of_seq. lia. }
  unfold bind at 1.
  rewrite bool_decide_false.
  2:{ intros E%str_inj. lia. }
  rewrite int_str by done. rewrite (py_index_nat _ _ _ Hk).
  unfold ret at 1.
  unfold bind at 1. unfold check_tag_exists, run_command.
  unfold bind at 1. unfold bind at 1. unfold popen, ret at 1. cbn [fst snd stdin trace].
  unfold ret at 1.
  match goal with
  | |- context [(if negb ?b then ?x else ?y) ?s0] =>
      assert (emits (fun _ => True) (if negb b then x else y)) as Hrest;
      [|destruct (Hrest s0) as (new & E & _); exists new; exact E]
  end.
  destruct (negb _); [by emits_auto|].
  apply emits_bind; [by apply emits_select_files_for_release|]. intros files.
  unfold interactive_upload_files. destruct files; [by emits_auto|].
  apply emits_bind.
  { apply emits_handing; [done|]. by apply emits_upload_to_existing_release. }
  intros done. by emits_auto.
Qed.

(** The second of two releases. *)
Lemma listed_release_chosen_witness :
  exists new,
    trace (interactive_upload (scripted ["v1"; "v2"] sizes_5_7)
             [mkRelease "rom" "v1" "one" "Unknown";
              mkRelease "rom" "v2" "two" "Unknown"] [] [] []
             (mkState [Py.str 2] [])).2
    = new ++ [EvRun ["gh"; "release"; "view"; "v2"];
              EvInput (release_prompt 2)].
Proof.
  refine (listed_release_chosen (scripted ["v1"; "v2"] sizes_5_7)
            [mkRelease "rom" "v1" "one" "Unknown";
             mkRelease "rom" "v2" "two" "Unknown"] [] [] [] 1
            (mkRelease "rom" "v2" "two" "Unknown") [] [] eq_refl _).
  apply Nat.leb_le. reflexivity.
Defined.

(** ** The command line read back *)

Lemma list_index_app x l r :
  x ∉ l -> list_index x (l ++ x :: r) = Some (length l).
Proof.
  induction l as [|y l IH]; intros Hx; simpl.
  - by rewrite bool_decide_true.
  - apply not_elem_of_cons in Hx as [Hy Hx].
    rewrite bool_decide_false by done. by rewrite IH.
Qed.

Lemma py_index_app_cons {A} (l r : list A) x :
  py_index (l ++ x :: r) (Z.of_nat (length l)) = Some x.
Proof.
  unfold py_index. rewrite length_app. simpl.
  assert ((0 <=? Z.of_nat (length l))
          && (Z.of_nat (length l) <? Z.of_nat (length l + S (length r))) = true) as ->.
  { apply andb_true_iff. split; [apply Z.leb_le|apply Z.ltb_lt]; lia. }
  rewrite Nat2Z.id. by rewrite list_lookup_middle.
Qed.

Section built.

Context (w : world) (tag : string) (files : list string) (notes title : string).
Hypothesis plain : plain_words tag files notes.

Let cmd := create_cmd_of tag files notes title.

Lemma built_tag : cmd !! 3%nat = Some tag.
Proof. done. Qed.

Lemma built_notes acc :
  extend_option "--notes" (option_index "--notes" cmd) cmd acc
  = Some (acc ++ ["--notes"; notes]).
Proof.
  destruct plain as (H1 & H2 & H3 & H4 & H5).
  unfold extend_option, option_index, cmd, create_cmd_of.
  rewrite (app_assoc _ files).
  rewrite list_index_app.
  2:{ rewrite !not_elem_of_app, !not_elem_of_cons.
      repeat split; first [done | congruence | apply not_elem_of_nil]. }
  assert ((0 <? Z.of_nat (length (["gh"; "release"; "create"; tag] ++ files)) + 1)
          = true) as -> by (apply Z.ltb_lt; lia).
  replace (Z.of_nat (length (["gh"; "release"; "create"; tag] ++ files)) + 1)
    with (Z.of_nat (length ((["gh"; "release"; "create"; tag] ++ files) ++ ["--notes"])))
    by (rewrite (length_app _ ["--notes"]); simpl; lia).
  change ((["gh"; "release"; "create"; tag] ++ files)
          ++ "--notes" :: [notes; "--title"; title])
    with ((["gh"; "release"; "create"; tag] ++ files)
          ++ ["--notes"] ++ notes :: ["--title"; title]).
  rewrite (app_assoc _ ["--notes"]).
  by rewrite py_index_app_cons.
Qed.

Lemma built_title acc :
  extend_option "--title" (option_index "--title" cmd) cmd acc
  = Some (acc ++ ["--title"; title]).
Proof.
  destruct plain as (H1 & H2 & H3 & H4 & H5).
  unfold extend_option, option_index, cmd, create_cmd_of.
  change (["gh"; "release"; "create"; tag] ++ files
          ++ ["--notes"; notes; "--title"; title])
    with (["gh"; "release"; "create"; tag] ++ files
          ++ ["--notes"; notes] ++ "--title" :: [title]).
  rewrite !app_assoc.
  rewrite list_index_app.
  2:{ rewrite !not_elem_of_app, !not_elem_of_cons.
      repeat split; first [done | congruence | apply not_elem_of_nil]. }
  set (before := (["gh"; "release"; "create"; tag] ++ files) ++ ["--notes"; notes]).
  assert ((0 <? Z.of_nat (length before) + 1) = true) as ->
    by (apply Z.ltb_lt; lia).
  replace (Z.of_nat (length before) + 1)
    with (Z.of_nat (length (before ++ ["--title"])))
    by (rewrite length_app; simpl; lia).
  change (before ++ "--title" :: [title]) with (before ++ ["--title"] ++ title :: []).
  rewrite (app_assoc _ ["--title"]).
  by rewrite py_index_app_cons.
Qed.


Lemma emits_create_attempts_to t fs file name i count size total left uploaded :
  file ∈ fs ->
  emits (upload_phase_event t fs)
    (create_attempts w ["gh"; "release"; "upload"; t; file] name i count size
       total left uploaded).
Proof.
  intros Hfile.
  revert uploaded. induction left as [|left IH]; intros uploaded; simpl.
  { apply emits_ret. }
  apply emits_bind; [apply emits_popen; right; eauto|]. intros r.
  destruct (_ && _); [apply emits_raise|].
  destruct (_ =? _); [apply emits_ret|].
  destruct (auth_indicator _); [|by emits_auto].
  apply emits_bind; [by apply emits_print|]. intros _.
  apply emits_bind; [by apply emits_log|]. intros _.
  destruct (_ =? _)%N; [apply emits_raise|].
  apply emits_bind; [by apply emits_log|]. intros _. apply IH.
Qed.

Lemma emits_create_upload_each_to t fs table total count later i uploaded :
  later ⊆ fs ->
  emits (upload_phase_event t fs)
    (create_upload_each w t table total count later i uploaded).
Proof.
  revert i uploaded.
  induction later as [|file later IH]; intros i uploaded Hsub;
    cbn [create_upload_each].
  { apply emits_ret. }
  destruct (table !! file); [|apply emits_raise].
  apply emits_bind.
  { apply emits_create_attempts_to. apply Hsub. by left. }
  intros res.
  destruct res.2; [apply IH| by emits_auto..].
  intros x Hx. apply Hsub. by right.
Qed.

Lemma create_release_with_progress_built s :
  exists new,
    trace (create_release_with_progress w cmd files s).2
    = new ++ EvRun (empty_release_cmd tag notes title)
          :: EvTotalUpload (sum_values (size_table w files)) (length files)
          :: trace s /\
    Forall (upload_phase_event tag files) new.
Proof.
  unfold create_release_with_progress. cbv zeta.
  rewrite built_tag, built_notes, built_title.
  unfold bind at 1. unfold log at 1. cbn [fst snd stdin trace].
  unfold bind at 1. unfold popen at 1. cbn [fst snd stdin trace].
  match goal with
  | |- context [(if negb (exit_code ?r =? 0) then ?a else ?b) ?s0] =>
      assert (emits (upload_phase_event tag files)
                (if negb (exit_code r =? 0) then a else b)) as Hrest;
      [|destruct (Hrest s0) as (new & E & Hnew); exists new; by split]
  end.
  destruct (negb _).
  - repeat (emits_step; cbv zeta); simpl; auto.
  - apply emits_bind; [by apply emits_create_upload_each_to|].
    intros res. repeat (emits_step; cbv zeta); simpl; auto.
Qed.

Lemma direct_cmd_of_eq :
  ((["gh"; "release"; "create"; tag] ++ files) ++ ["--title"; title])
  ++ ["--notes"; notes]
  = direct_cmd_of tag files notes title.
Proof. unfold direct_cmd_of. by rewrite <- !app_assoc. Qed.

Lemma create_release_with_direct_command_built s :
  let r := client w (trace s) (direct_cmd_of tag files notes title) in
  let res := create_release_with_direct_command w cmd files s in
  res.1 = Ok (if exit_code r =? 0 then ("Success", 0)
              else (Py.strip (stdout r), exit_code r)) /\
  exists new,
    trace res.2 = new ++ EvRun (direct_cmd_of tag files notes title) :: trace s /\
    Forall (fun e => ~ is_run e) new.
Proof.
  cbv zeta. unfold create_release_with_direct_command. cbv zeta.
  rewrite built_tag, built_title, built_notes, direct_cmd_of_eq.
  unfold run_command, print. unfold bind, popen, log, ret.
  cbn [fst snd stdin trace].
  destruct (exit_code _ =? 0); cbn [negb fst snd stdin trace].
  - split; [done|]. eexists [_]. split; [done|]. repeat constructor. by intros [].
  - destruct (Py.contains _ _); cbn [fst snd stdin trace].
    + split; [done|]. eexists [_; _; _]. split; [done|].
      repeat constructor; by intros [].
    + split; [done|]. eexists [_; _]. split; [done|].
      repeat constructor; by intros [].
Qed.

End built.


(** X10.  [create_release_with_progress] reads the tag, the notes and the
    title back from the command line that the front ends build, when no
    option name stands for the tag, a file or the notes: its first command
    creates the release [tag] with these notes and this title and no file.
    After it the function runs nothing but the status query of its diagnosis
    and uploads of files of the plan to [tag], and asks nothing. *)
Theorem create_release_with_progress_reads_command
    (w : world) (tag : string) (files : list string) (notes title : string)
    (s : state) :
  plain_words tag files notes ->
  exists new,
    trace (create_release_with_progress w (create_cmd_of tag files notes title)
             files s).2
    = new ++ EvRun (empty_release_cmd tag notes title)
          :: EvTotalUpload (sum_values (size_table w files)) (length files)
          :: trace s /\
    Forall (upload_phase_event tag files) new.
Proof. intros plain. by apply create_release_with_progress_built. Qed.

(** The tag and the title of one archive. *)
Lemma create_release_with_progress_reads_command_witness :
  exists new,
    trace (create_release_with_progress (scripted [] sizes_5_7)
             (create_cmd_of "v1" ["a.zip"] "- notes" "a.zip") ["a.zip"]
             (start [])).2
    = new ++ [EvRun (empty_release_cmd "v1" "- notes" "a.zip");
              EvTotalUpload (sum_values (size_table (scripted [] sizes_5_7) ["a.zip"])) 1] /\
    Forall (upload_phase_event "v1" ["a.zip"]) new.
Proof.
  apply (create_release_with_progress_reads_command (scripted [] sizes_5_7)
           "v1" ["a.zip"] "- notes" "a.zip" (start [])).
  repeat split;
    first [discriminate
          | apply not_elem_of_cons; split; [discriminate|apply not_elem_of_nil]].
Defined.

(** X11.  [create_release_with_direct_command] reads the same command line
    back, under the same condition: the one command it runs creates the
    release [tag] with the files of the plan, then the title, then the notes.
    It returns "Success" and 0 when the client exits with 0, and otherwise
    the output of the client, stripped, with its exit code. *)
Theorem create_release_with_direct_command_reads_command
    (w : world) (tag : string) (files : list string) (notes title : string)
    (s : state) :
  plain_words tag files notes ->
  let r := client w (trace s) (direct_cmd_of tag files notes title) in
  let res := create_release_with_direct_command w
               (create_cmd_of tag files notes title) files s in
  res.1 = Ok (if exit_code r =? 0 then ("Success", 0)
              else (Py.strip (stdout r), exit_code r)) /\
  exists new,
    trace res.2 = new ++ EvRun (direct_cmd_of tag files notes title) :: trace s /\
    Forall (fun e => ~ is_run e) new.
Proof. intros plain. by apply create_release_with_direct_command_built. Qed.

(** A client that refuses every upload accepts the direct command. *)
Lemma create_release_with_direct_command_reads_command_witness :
  (create_release_with_direct_command upload_refused
     (create_cmd_of "v1" ["a.zip"] "- notes" "a.zip") ["a.zip"] (start [])).1
  = Ok ("Success", 0).
Proof.
  refine (proj1 (create_release_with_direct_command_reads_command upload_refused
                   "v1" ["a.zip"] "- notes" "a.zip" (start []) _)).
  repeat split;
    first [discriminate
          | apply not_elem_of_cons; split; [discriminate|apply not_elem_of_nil]].
Defined.

(** ** What a successful orchestrator has sent *)

Section acceptance.

Context (w : world).

Lemma accepted_uploads_app base n1 n2 :
  accepted_uploads w base (n2 ++ n1)
  = accepted_uploads w (n1 ++ base) n2 ++ accepted_uploads w base n1.
Proof.
  induction n2 as [|e n2 IH]; [done|]. simpl.
  destruct e; try done. rewrite <- app_assoc.
  destruct (_ && _); [|done]. simpl. by rewrite IH.
Qed.

Lemma accepted_uploads_quiet base new :
  Forall (fun e => ~ is_run e) new -> accepted_uploads w base new = [].
Proof.
  induction 1 as [|e new He _ IH]; [done|]. simpl.
  destruct e; first [done | by destruct He].
Qed.

Lemma upload_attempts_accepted cmd name i count size total attempts uploaded s u s' :
  is_upload cmd = true ->
  last attempts = Some max_retries ->
  upload_attempts w cmd name i count size total attempts uploaded s
  = (Ok (u, true), s') ->
  exists new,
    trace s' = new ++ trace s /\ accepted_uploads w (trace s) new = [cmd].
Proof.
  intros Hup.
  revert s. induction attempts as [|attempt later IH]; intros s Hlast; [done|].
  cbn [upload_attempts].
  unfold bind at 1.
  pose (s0 := ((if (1 <? attempt)%nat
                then print ("Retrying upload (" +:+ Py.str attempt +:+ "/"
                            +:+ Py.str max_retries +:+ ")...")
                else ret tt) s).2).
  assert ((if (1 <? attempt)%nat
           then print ("Retrying upload (" +:+ Py.str attempt +:+ "/"
                       +:+ Py.str max_retries +:+ ")...")
           else ret tt) s = (Ok tt, s0)) as ->.
  { unfold s0. by destruct (1 <? attempt)%nat. }
  assert (exists n0, trace s0 = n0 ++ trace s /\ Forall (fun e => ~ is_run e) n0)
    as (n0 & E0 & Hn0).
  { unfold s0. destruct (1 <? attempt)%nat.
    - eexists [_]. split; [done|]. repeat constructor. by intros [].
    - by exists []. }
  clearbody s0.
  unfold bind at 1. unfold run_command at 1. unfold bind at 1.
  unfold popen at 1, ret at 1. cbn [fst snd stdin trace].
  destruct (exit_code (client w (trace s0) cmd) =? 0) eqn:Hcode.
  - destruct (total =? 0)%N; [done|].
    unfold bind, log, ret. cbn [fst snd stdin trace].
    intros [= <- <-]. cbn [trace].
    eexists (_ :: _ :: EvRun cmd :: n0). split; [by rewrite E0|].
    simpl. rewrite <- E0, Hup, Hcode. simpl.
    by rewrite accepted_uploads_quiet.
  - destruct (attempt =? max_retries)%nat eqn:Hmax.
    + unfold bind, print, log, ret. cbn [fst snd stdin trace]. done.
    + intros Hrun. apply IH in Hrun as (new & E & Hnew).
      2:{ destruct later as [|a later]; [|done].
          simpl in Hlast. injection Hlast as ->. by rewrite Nat.eqb_refl in Hmax. }
      cbn [trace] in E, Hnew.
      exists (new ++ EvRun cmd :: n0). split.
      { rewrite E, E0. by rewrite <- app_assoc. }
      rewrite accepted_uploads_app. simpl. rewrite <- E0, Hup, Hcode. simpl.
      by rewrite Hnew, accepted_uploads_quiet.
Qed.

Lemma upload_each_accepted tag table total count files i uploaded s u s' :
  upload_each w tag table total count files i uploaded s = (Ok (u, true), s') ->
  exists new,
    trace s' = new ++ trace s /\
    accepted_uploads w (trace s) new = reverse (upload_cmd_of tag <$> files).
Proof.
  revert i uploaded s.
  induction files as [|f later IH]; intros i uploaded s Hrun.
  { injection Hrun as <- <-. by exists []. }
  cbn [upload_each] in Hrun.
  destruct (table !! f) as [size|]; [|done].
  unfold bind in Hrun.
  destruct (upload_attempts _ _ _ _ _ _ _ _ _ s) as [[[u1 ok]| |] s1] eqn:Hatt;
    [|done..].
  cbn [fst snd] in Hrun. destruct ok; [|done].
  apply upload_attempts_accepted in Hatt as (n1 & E1 & H1); [|done..].
  apply IH in Hrun as (n2 & E2 & H2).
  exists (n2 ++ n1). split; [by rewrite E2, E1, app_assoc|].
  rewrite accepted_uploads_app, <- E1, H2, H1.
  by rewrite fmap_cons, reverse_cons.
Qed.

Lemma create_attempts_accepted cmd name i count size total left uploaded s u s' :
  is_upload cmd = true ->
  create_attempts w cmd name i count size total left uploaded s
  = (Ok (u, Uploaded), s') ->
  exists new,
    trace s' = new ++ trace s /\ accepted_uploads w (trace s) new = [cmd].
Proof.
  intros Hup.
  revert uploaded s. induction left as [|left IH]; intros uploaded s; [done|].
  cbn [create_attempts].
  unfold bind at 1. unfold popen at 1. cbn [fst snd stdin trace].
  destruct (_ && _); [done|].
  destruct (exit_code _ =? 0) eqn:Hcode.
  - unfold ret. intros [= <- <-]. cbn [trace].
    exists [EvRun cmd]. split; [done|]. simpl. by rewrite Hup, Hcode.
  - destruct (auth_indicator _).
    + unfold bind at 1. unfold print at 1, log at 1. cbn [fst snd stdin trace].
      unfold bind at 1. unfold log at 1. cbn [fst snd stdin trace].
      destruct (total =? 0)%N; [done|].
      unfold bind at 1. unfold log at 1. cbn [fst snd stdin trace].
      intros (new & E & Hnew)%IH. cbn [trace] in E, Hnew.
      eexists (new ++ [_; _; _; EvRun cmd]). split.
      { rewrite E. by rewrite <- app_assoc. }
      rewrite accepted_uploads_app. simpl. rewrite Hup, Hcode. simpl.
      by rewrite Hnew.
    + unfold bind, print, log, ret. cbn [fst snd stdin trace]. done.
Qed.

Lemma create_upload_each_accepted tag table total count files i uploaded s u s' :
  create_upload_each w tag table total count files i uploaded s
  = (Ok (u, None), s') ->
  exists new,
    trace s' = new ++ trace s /\
    accepted_uploads w (trace s) new = reverse (upload_cmd_of tag <$> files).
Proof.
  revert i uploaded s.
  induction files as [|f later IH]; intros i uploaded s Hrun.
  { injection Hrun as <- <-. by exists []. }
  cbn [create_upload_each] in Hrun.
  destruct (table !! f) as [size|]; [|done].
  unfold bind in Hrun.
  destruct (create_attempts _ _ _ _ _ _ _ _ _ s) as [[[u1 res]| |] s1] eqn:Hatt;
    [|done..].
  cbn [fst snd] in Hrun. destruct res as [| |text code].
  - apply create_attempts_accepted in Hatt as (n1 & E1 & H1); [|done].
    apply IH in Hrun as (n2 & E2 & H2).
    exists (n2 ++ n1). split; [by rewrite E2, E1, app_assoc|].
    rewrite accepted_uploads_app, <- E1, H2, H1.
    by rewrite fmap_cons, reverse_cons.
  - unfold print, log, ret in Hrun. done.
  - done.
Qed.

End acceptance.

(** X12.  When [upload_to_existing_release] returns [True], the uploads that the
    client accepted are those of the files of the plan, each once and in the
    order of the plan, to the tag given or, when that looked like a file
    name, to the tag typed in its place. *)
Theorem upload_to_existing_release_accepted
    (w : world) (tag : string) (files : list string) (s s' : state) :
  upload_to_existing_release w tag files s = (Ok true, s') ->
  exists t new,
    (t = tag \/ (named_like_file tag = true /\ head (stdin s) = Some t /\ t <> "")) /\
    trace s' = new ++ trace s /\
    accepted_uploads w (trace s) new = reverse (upload_cmd_of t <$> files).
Proof.
  unfold upload_to_existing_release. fold (named_like_file tag).
  unfold bind at 1.
  match goal with
  | |- context [(if named_like_file tag then ?a else ?b) s] =>
      destruct ((if named_like_file tag then a else b) s)
        as [[[t|]| |] s1] eqn:Hchecked; [|done..]
  end.
  assert ((t = tag \/ (named_like_file tag = true /\ head (stdin s) = Some t /\ t <> ""))
          /\ exists n1, trace s1 = n1 ++ trace s /\ Forall (fun e => ~ is_run e) n1)
    as [Ht (n1 & E1 & Hn1)].
  { destruct (named_like_file tag).
    - unfold bind, print, log, input in Hchecked. cbn [fst snd stdin trace] in Hchecked.
      destruct (stdin s) as [|line rest]; [done|].
      case_bool_decide as Hline.
      + unfold bind, print, log, ret in Hchecked. done.
      + unfold ret in Hchecked. injection Hchecked as <- <-.
        split; [by right|]. eexists [_; _]. split; [done|].
        repeat constructor; by intros [].
    - unfold ret in Hchecked. injection Hchecked as <- <-.
      split; [by left|]. by exists []. }
  clear Hchecked.
  unfold bind at 1. unfold run_command at 1. unfold bind at 1.
  unfold popen at 1, ret at 1. cbn [fst snd stdin trace].
  destruct (exit_code (client w (trace s1) ["gh"; "release"; "view"; t]) =? 0)
    eqn:Hview; cbn [negb].
  2:{ unfold bind, print, log, ret. done. }
  unfold bind at 1.
  destruct (get_confirmation false _) as [[[|]| |] s2] eqn:Hconf; [|done..].
  assert (emits (fun e => ~ is_run e) (get_confirmation false)) as Hem.
  { apply emits_get_confirmation; by intros ? []. }
  destruct (Hem (mkState (stdin s1) (EvRun ["gh"; "release"; "view"; t] :: trace s1)))
    as (n2 & E2 & Hn2).
  rewrite Hconf in E2. cbn [fst snd stdin trace] in E2.
  unfold bind at 1. unfold log at 1. cbn [fst snd stdin trace].
  unfold bind at 1.
  destruct (upload_each _ _ _ _ _ _ _ _ _) as [[[u ok]| |] s3] eqn:Heach; [|done..].
  cbn [fst snd]. destruct ok.
  2:{ unfold bind, print, log, ret. done. }
  unfold bind, log, ret. cbn [fst snd stdin trace]. intros [= <-]. cbn [trace].
  apply upload_each_accepted in Heach as (n3 & E3 & H3).
  cbn [trace] in E3, H3.
  exists t. eexists (_ :: n3 ++ _ :: n2 ++ EvRun ["gh"; "release"; "view"; t] :: n1).
  split; [done|]. split.
  { rewrite E3, E2, E1. simpl. rewrite <- !app_assoc. simpl.
    by rewrite <- !app_assoc. }
  cbn [accepted_uploads]. rewrite accepted_uploads_app.
  cbn [app]. rewrite <- app_assoc. cbn [app].
  rewrite <- E1, <- E2, H3.
  cbn [accepted_uploads]. rewrite accepted_uploads_app.
  cbn [accepted_uploads]. rewrite !accepted_uploads_quiet by done.
  assert (is_upload ["gh"; "release"; "view"; t] = false) as -> by done.
  by rewrite app_nil_r.
Qed.


(** An archive and an image go to the release [v1]. *)
Lemma upload_to_existing_release_accepted_witness :
  exists t new,
    (t = "v1" \/ (named_like_file "v1" = true /\ head ["y"] = Some t /\ t <> "")) /\
    trace (upload_to_existing_release (scripted ["v1"] sizes_5_7) "v1"
             ["rom-1.0-20250101.zip"; "boot.img"] (start ["y"])).2
    = new ++ [] /\
    accepted_uploads (scripted ["v1"] sizes_5_7) [] new
    = reverse (upload_cmd_of t <$> ["rom-1.0-20250101.zip"; "boot.img"]).
Proof.
  exact (upload_to_existing_release_accepted (scripted ["v1"] sizes_5_7) "v1"
           ["rom-1.0-20250101.zip"; "boot.img"] (start ["y"]) _ eq_refl).
Defined.

(** X13.  When [create_release_with_progress] returns the code 0, its text is
    "Success" and the uploads that the client accepted are those of the
    files of the plan to the release named in the command line, each once
    and in the order of the plan. *)
Theorem create_release_with_progress_accepted
    (w : world) (cmd files : list string) (s s' : state) (text : string) :
  create_release_with_progress w cmd files s = (Ok (text, 0), s') ->
  text = "Success" /\
  exists tag new,
    cmd !! 3%nat = Some tag /\
    trace s' = new ++ trace s /\
    accepted_uploads w (trace s) new = reverse (upload_cmd_of tag <$> files).
Proof.
  unfold create_release_with_progress. cbv zeta.
  unfold bind at 1. unfold log at 1. cbn [fst snd stdin trace].
  destruct (cmd !! 3%nat) as [tag|]; [|done].
  destruct (extend_option "--notes" _ _ _) as [with_notes|] eqn:E1; [|done].
  destruct (extend_option "--title" _ _ _) as [create_cmd|] eqn:E2; [|done].
  apply extend_option_take in E1 as [E1 L1]; [|simpl; lia].
  apply extend_option_take in E2 as [E2 L2]; [|done].
  assert (is_upload create_cmd = false) as Hcreate.
  { unfold is_upload. rewrite E2, E1. reflexivity. }
  unfold bind at 1. unfold popen at 1. cbn [fst snd stdin trace].
  match goal with
  | |- context [negb (exit_code ?r =? 0)] =>
      destruct (exit_code r =? 0) eqn:Hcode; cbn [negb]
  end.
  2:{ apply Z.eqb_neq in Hcode.
      unfold print, log, run_command, popen, bind, ret. cbn [fst snd stdin trace].
      repeat case_match; intros Hret; simplify_eq; done. }
  unfold bind at 1.
  destruct (create_upload_each _ _ _ _ _ _ _ _ _) as [[[u returned]| |] s2] eqn:Heach;
    [|done..].
  cbn [fst snd].
  match type of Heach with
  | create_upload_each w tag ?tb ?tt ?c files 0 0%N ?s0 = _ =>
      destruct (create_upload_each_trace w tag tb tt c files 0 0%N s0)
        as (new' & E' & _ & _ & Hres)
  end.
  rewrite Heach in E', Hres. cbn [fst snd stdin trace] in E', Hres.
  specialize (Hres u returned eq_refl).
  destruct returned as [[t c]|].
  { unfold ret. intros [= -> -> ->]. done. }
  unfold bind, log, ret. cbn [fst snd stdin trace]. intros [= <- <-]. cbn [trace].
  split; [done|].
  apply create_upload_each_accepted in Heach as (n3 & E3 & H3).
  cbn [trace] in E3, H3.
  exists tag. eexists (_ :: n3 ++ [EvRun create_cmd; _]).
  split; [done|]. split.
  { rewrite E3. simpl. by rewrite <- app_assoc. }
  cbn [accepted_uploads]. rewrite accepted_uploads_app. cbn [app].
  rewrite H3. cbn [accepted_uploads]. rewrite Hcreate. simpl.
  by rewrite app_nil_r.
Qed.

(** The same two files go to a new release. *)
Lemma create_release_with_progress_accepted_witness :
  "Success" = "Success" /\
  exists tag new,
    create_cmd_of "v1" ["rom-1.0-20250101.zip"; "boot.img"] "- notes" "title"
      !! 3%nat = Some tag /\
    trace (create_release_with_progress (scripted [] sizes_5_7)
             (create_cmd_of "v1" ["rom-1.0-20250101.zip"; "boot.img"] "- notes" "title")
             ["rom-1.0-20250101.zip"; "boot.img"] (start [])).2
    = new ++ [] /\
    accepted_uploads (scripted [] sizes_5_7) [] new
    = reverse (upload_cmd_of tag <$> ["rom-1.0-20250101.zip"; "boot.img"]).
Proof.
  exact (create_release_with_progress_accepted (scripted [] sizes_5_7)
           (create_cmd_of "v1" ["rom-1.0-20250101.zip"; "boot.img"] "- notes" "title")
           ["rom-1.0-20250101.zip"; "boot.img"] (start []) _ "Success" eq_refl).
Defined.

(** ** Sizes *)

Section sizes.

Lemma size_table_acc w files (d : gmap string N) f :
  foldl (fun d file => <[file := getsize w file]> d) d files !! f
  = if bool_decide (f ∈ files) then Some (getsize w f) else d !! f.
Proof.
  revert d. induction files as [|x files IH]; intros d; simpl; [done|].
  rewrite IH. case_bool_decide as H1; case_bool_decide as H2; try done.
  - destruct H2. by right.
  - apply elem_of_cons in H2 as [->|?]; [|done]. by rewrite lookup_insert_eq.
  - rewrite lookup_insert_ne; [done|]. intros ->. apply H2. by left.
Qed.

Lemma size_table_lookup w files f :
  f ∈ files -> size_table w files !! f = Some (getsize w f).
Proof.
  intros Hf. unfold size_table. rewrite size_table_acc.
  by rewrite bool_decide_true.
Qed.

Lemma total_app xs ys : total (xs ++ ys) = (total xs + total ys)%N.
Proof. unfold total. induction xs as [|x xs IH]; simpl; [done|]. rewrite IH. lia. Qed.

Lemma sum_values_size_table w files :
  NoDup files -> sum_values (size_table w files) = total (getsize w <$> files).
Proof.
  induction files as [|f files IH] using rev_ind; intros Hnd; [done|].
  apply NoDup_app in Hnd as (Hfiles & Hf & _).
  unfold size_table. rewrite foldl_app. simpl. fold (size_table w files).
  unfold sum_values. rewrite map_fold_insert_L.
  - fold (sum_values (size_table w files)). rewrite IH by done.
    rewrite fmap_app, total_app. simpl. lia.
  - intros. lia.
  - unfold size_table. rewrite size_table_acc.
    rewrite bool_decide_false; [done|].
    intros Hin. apply (Hf f Hin). by left.
Qed.

Lemma round_half_even_close num den :
  (0 < den)%N ->
  let t := round_half_even num den in
  (2 * num <= 2 * (t * den) + den /\ 2 * (t * den) <= 2 * num + den)%N.
Proof.
  intros Hden. unfold round_half_even. cbv zeta.
  pose proof (N.div_mod' num den) as Hdm.
  pose proof (N.mod_lt num den ltac:(lia)) as Hlt.
  set (q := (num / den)%N) in *. set (r := (num mod den)%N) in *.
  destruct (2 * r <? den)%N eqn:H1.
  { apply N.ltb_lt in H1. nia. }
  apply N.ltb_ge in H1.
  destruct (den <? 2 * r)%N eqn:H2.
  { apply N.ltb_lt in H2. nia. }
  apply N.ltb_ge in H2.
  destruct (N.even q); nia.
Qed.

Lemma scaled_small size unit :
  (size < 2 ^ 53)%N -> (0 < unit)%N ->
  exists tenths,
    scaled size unit = Some (one_decimal tenths) /\
    within_a_twentieth tenths size unit.
Proof.
  intros Hsize Hunit. unfold scaled, nearest_float. cbv zeta.
  apply N.ltb_lt in Hsize as Hs. rewrite Hs.
  assert ((2 ^ 1024 * unit <=? size)%N = false) as ->.
  { apply N.leb_gt.
    assert (2 ^ 53 <= 2 ^ 1024)%N by (apply N.pow_le_mono_r; lia).
    nia. }
  eexists. split; [done|].
  apply (round_half_even_close (10 * size) unit Hunit).
Qed.

End sizes.

(** X14.  For a plan without duplicates, the size announced before the
    uploads is the sum of the sizes of its files, and every file of the plan
    has its size in the table that the orchestrators look it up in. *)
Theorem total_size_is_sum (w : world) (files : list string) :
  NoDup files ->
  sum_values (size_table w files) = total (getsize w <$> files) /\
  forall f, f ∈ files -> size_table w files !! f = Some (getsize w f).
Proof.
  intros Hnd. split; [by apply sum_values_size_table|].
  intros f Hf. by apply size_table_lookup.
Qed.


(** An archive of 5 bytes and an image of 7. *)
Lemma total_size_is_sum_witness :
  sum_values (size_table (scripted [] sizes_5_7) ["rom-1.0-20250101.zip"; "boot.img"])
  = total (getsize (scripted [] sizes_5_7) <$> ["rom-1.0-20250101.zip"; "boot.img"]).
Proof.
  refine (proj1 (total_size_is_sum (scripted [] sizes_5_7)
                   ["rom-1.0-20250101.zip"; "boot.img"] _)).
  apply NoDup_cons. split; [|apply NoDup_singleton].
  apply not_elem_of_cons. split; [discriminate|apply not_elem_of_nil].
Defined.

(** X15.  Below [2^53] bytes [format_size] prints the exact number of
    bytes under 1024, and above it the size in the unit of its range (KB
    under [1024^2], MB under [1024^3], GB beyond) with one decimal, off by a
    twentieth of the unit at most. *)
Theorem format_size_close (size : N) :
  (size < 2 ^ 53)%N ->
  ((size < 1024)%N ->
   format_size size = Some (Py.str (N.to_nat size) +:+ " B")) /\
  ((1024 <= size < 1024 * 1024)%N ->
   exists tenths,
     format_size size = Some (one_decimal tenths +:+ " KB") /\
     within_a_twentieth tenths size 1024) /\
  ((1024 * 1024 <= size < 1024 * 1024 * 1024)%N ->
   exists tenths,
     format_size size = Some (one_decimal tenths +:+ " MB") /\
     within_a_twentieth tenths size (1024 * 1024)) /\
  ((1024 * 1024 * 1024 <= size)%N ->
   exists tenths,
     format_size size = Some (one_decimal tenths +:+ " GB") /\
     within_a_twentieth tenths size (1024 * 1024 * 1024)).
Proof.
  intros Hsize. unfold format_size. repeat split.
  - intros H. apply N.ltb_lt in H. by rewrite H.
  - intros [H1 H2]. apply N.ltb_ge in H1. apply N.ltb_lt in H2.
    rewrite H1, H2.
    destruct (scaled_small size 1024 Hsize) as (t & -> & Ht); [lia|].
    by exists t.
  - intros [H1 H2].
    assert ((size <? 1024)%N = false) as -> by (apply N.ltb_ge; lia).
    apply N.ltb_ge in H1. apply N.ltb_lt in H2. rewrite H1, H2.
    destruct (scaled_small size (1024 * 1024) Hsize) as (t & -> & Ht); [lia|].
    by exists t.
  - intros H1.
    assert ((size <? 1024)%N = false) as -> by (apply N.ltb_ge; lia).
    assert ((size <? 1024 * 1024)%N = false) as -> by (apply N.ltb_ge; lia).
    apply N.ltb_ge in H1. rewrite H1.
    destruct (scaled_small size (1024 * 1024 * 1024) Hsize) as (t & -> & Ht); [lia|].
    by exists t.
Qed.


(** One and a half kibibytes. *)
Lemma format_size_close_witness :
  exists tenths,
    format_size 1536 = Some (one_decimal tenths +:+ " KB") /\
    within_a_twentieth tenths 1536 1024.
Proof.
  refine (proj1 (proj2 (format_size_close 1536 _)) _).
  - reflexivity.
  - split; [discriminate|reflexivity].
Defined.

(** X16.  A size within 51 bytes under [1024 * 1024] is printed as
    "1024.0 KB": the unit is chosen before the number is rounded. *)
Theorem format_size_prints_1024 (size : N) :
  (1048525 <= size < 1048576)%N ->
  format_size size = Some "1024.0 KB".
Proof.
  intros [H1 H2]. unfold format_size.
  assert ((size <? 1024)%N = false) as -> by (apply N.ltb_ge; lia).
  assert ((size <? 1024 * 1024)%N = true) as -> by (apply N.ltb_lt; lia).
  unfold scaled, nearest_float. cbv zeta.
  assert ((size <? 2 ^ 53)%N = true) as ->.
  { apply N.ltb_lt. assert (1048576 < 2 ^ 53)%N by (by vm_compute). lia. }
  assert ((2 ^ 1024 * 1024 <=? size)%N = false) as ->.
  { apply N.leb_gt.
    assert (2 ^ 20 <= 2 ^ 1024)%N by (apply N.pow_le_mono_r; lia).
    assert (2 ^ 20 = 1048576)%N by (by vm_compute). nia. }
  assert (round_half_even (10 * size) 1024 = 10240%N) as ->; [|by vm_compute].
  unfold round_half_even. cbv zeta.
  pose proof (N.div_mod' (10 * size) 1024) as Hdm.
  pose proof (N.mod_lt (10 * size) 1024 ltac:(lia)) as Hlt.
  set (q := (10 * size / 1024)%N) in *. set (r := (10 * size mod 1024)%N) in *.
  assert (q = 10239%N) as -> by nia.
  assert ((2 * r <? 1024)%N = false) as -> by (apply N.ltb_ge; lia).
  assert ((1024 <? 2 * r)%N = true) as -> by (apply N.ltb_lt; lia).
  done.
Qed.

(** One byte under a mebibyte. *)
Lemma format_size_prints_1024_witness : format_size 1048575 = Some "1024.0 KB".
Proof.
  apply (format_size_prints_1024 1048575).
  split; [discriminate|reflexivity].
Defined.

(** ** How a run ends *)

Section ends_rules.

Lemma ends_ret {A} (Q : A -> Prop) a : Q a -> ends Q (ret a).
Proof. by intros H s. Qed.

Lemma ends_raise {A} (Q : A -> Prop) e : ends Q (raise e).
Proof. by intros s. Qed.

Lemma ends_diverge {A} (Q : A -> Prop) : ends Q diverge.
Proof. by intros s. Qed.

Lemma ends_bind {A B} (Q1 : A -> Prop) (Q : B -> Prop) (m : M A) (f : A -> M B) :
  ends Q1 m -> (forall a, Q1 a -> ends Q (f a)) -> ends Q (bind m f).
Proof.
  intros Hm Hf s. unfold bind. specialize (Hm s).
  destruct (m s) as [[a| |] s1]; cbn [fst] in *; [|done..].
  by apply Hf.
Qed.

Lemma ends_then {A B} (Q : B -> Prop) (m : M A) (f : A -> M B) :
  ends (fun _ => True) m -> (forall a, ends Q (f a)) -> ends Q (bind m f).
Proof. intros Hm Hf. eapply ends_bind; [exact Hm|]. intros a _. apply Hf. Qed.

Lemma ends_weaken {A} (Q Q' : A -> Prop) (m : M A) :
  (forall a, Q a -> Q' a) -> ends Q m -> ends Q' m.
Proof.
  intros HQ Hm s. specialize (Hm s). destruct (m s).1; auto.
Qed.

Lemma ends_log e : ends (fun _ => True) (log e).
Proof. by intros s. Qed.

Lemma ends_print text : ends (fun _ => True) (print text).
Proof. apply ends_log. Qed.

Lemma ends_input prompt : ends (fun _ => True) (input prompt).
Proof. intros s. unfold input. by destruct (stdin s). Qed.

Lemma ends_popen w cmd : ends (fun _ => True) (popen w cmd).
Proof. by intros s. Qed.

Lemma ends_run_command w cmd : ends (fun _ => True) (run_command w cmd).
Proof. by intros s. Qed.

Lemma ends_ask_until {A} prompt (accept : string -> option A) complaint :
  ends (fun a => exists line, accept line = Some a)
    (ask_until prompt accept complaint).
Proof.
  intros [lines tr]. unfold ask_until. cbn [stdin trace].
  revert tr. induction lines as [|line lines IH]; intros tr; simpl; [done|].
  destruct (accept line) as [a|] eqn:Ha; [|apply IH].
  simpl. by exists line.
Qed.

End ends_rules.

Ltac ends_step :=
  lazymatch goal with
  | |- ends _ (bind _ _) => apply ends_then; [|intros ?]
  | |- ends _ (ret _) => apply ends_ret
  | |- ends _ (raise _) => apply ends_raise
  | |- ends _ diverge => apply ends_diverge
  | |- ends _ (print _) => apply ends_print
  | |- ends _ (log _) => apply ends_log
  | |- ends _ (input _) => apply ends_input
  | |- ends _ (run_command _ _) => apply ends_run_command
  | |- ends _ (popen _ _) => apply ends_popen
  | |- ends _ (ask_until _ _ _) =>
      eapply ends_weaken; [|apply ends_ask_until]; done
  | |- ends _ (handing _ _ _) => unfold handing
  | |- ends _ (if ?b then _ else _) => destruct b
  | |- ends _ (match ?x with _ => _ end) => destruct x
  end.

Ltac ends_auto :=
  cbv zeta; repeat (ends_step; cbv zeta);
  first [done | by left | by right | idtac].

Section program_ends.

Context (w : world) (fuel : nat).

Lemma ends_check_github_auth : ends (fun _ => True) (check_github_auth w).
Proof. unfold check_github_auth. ends_auto. Qed.

Lemma ends_check_repository_access : ends (fun _ => True) (check_repository_access w).
Proof. unfold check_repository_access. ends_auto. Qed.

Lemma ends_check_tag_exists tag : ends (fun _ => True) (check_tag_exists w tag).
Proof. unfold check_tag_exists. ends_auto. Qed.

Lemma ends_next_version tag version : ends (fun _ => True) (next_version w fuel tag version).
Proof.
  revert version. induction fuel as [|n IH]; intros version; simpl.
  { apply ends_diverge. }
  apply ends_then; [apply ends_check_tag_exists|].
  intros []; [apply IH|by apply ends_ret].
Qed.

Lemma ends_get_unique_tag tag : ends (fun _ => True) (get_unique_tag w fuel tag).
Proof.
  unfold get_unique_tag.
  apply ends_then; [apply ends_check_tag_exists|]. intros taken.
  destruct taken; simpl; [|by apply ends_ret].
  apply ends_then; [by apply ends_print|]. intros _.
  apply ends_then; [apply ends_next_version|]. intros version.
  ends_auto.
Qed.

Lemma ends_get_confirmation auto_confirm :
  ends (fun _ => True) (get_confirmation auto_confirm).
Proof. unfold get_confirmation. ends_auto. Qed.

Lemma ends_read_notes count i notes : ends (fun _ => True) (read_notes count i notes).
Proof.
  revert i notes. induction count as [|count IH]; intros i notes; simpl.
  { by apply ends_ret. }
  apply ends_then; [ends_auto|]. intros note.
  destruct (_ || _); [by apply ends_ret|apply IH].
Qed.

Lemma ends_get_user_notes interactive :
  ends (fun _ => True) (get_user_notes interactive).
Proof.
  unfold get_user_notes. destruct interactive; cbn [negb]; [|by apply ends_ret].
  apply ends_then; [apply ends_read_notes|]. intros notes. ends_auto.
Qed.

Lemma ends_fetch_recent_releases limit :
  ends (fun _ => True) (fetch_recent_releases w limit).
Proof. unfold fetch_recent_releases. ends_auto. Qed.

Lemma ends_print_all texts : ends (fun _ => True) (print_all texts).
Proof.
  induction texts as [|text texts IH]; simpl; [by apply ends_ret|].
  apply ends_then; [by apply ends_print|]. by intros _.
Qed.

Lemma ends_select_files_for_release zips imgs shas :
  ends (fun _ => True) (select_files_for_release zips imgs shas).
Proof.
  unfold select_files_for_release.
  apply ends_then; [ends_auto|]. intros choice.
  apply ends_then; [|intros ?; by apply ends_ret].
  repeat case_bool_decide; try (by apply ends_ret).
  apply ends_then; [ends_auto|]. intros selected.
  case_bool_decide; [ends_auto|].
  apply ends_then; [apply ends_print_all|]. intros _. ends_auto.
Qed.

Lemma ends_upload_attempts cmd name i count size total attempts uploaded :
  ends (fun _ => True) (upload_attempts w cmd name i count size total attempts uploaded).
Proof.
  revert uploaded. induction attempts as [|attempt later IH]; intros uploaded; simpl.
  { by apply ends_ret. }
  apply ends_then; [ends_auto|]. intros _.
  apply ends_then; [by apply ends_run_command|]. intros r.
  destruct (r.2 =? 0); [ends_auto|].
  destruct (_ =? _)%nat; [ends_auto|apply IH].
Qed.

Lemma ends_upload_each tag table total count files i uploaded :
  ends (fun _ => True) (upload_each w tag table total count files i uploaded).
Proof.
  revert i uploaded.
  induction files as [|file later IH]; intros i uploaded; cbn [upload_each].
  { by apply ends_ret. }
  destruct (table !! file) as [size|]; [|ends_auto].
  apply ends_then; [apply ends_upload_attempts|]. intros res.
  destruct res.2; [|by apply ends_ret].
  apply IH.
Qed.

Lemma ends_create_attempts cmd name i count size total left uploaded :
  ends (fun _ => True) (create_attempts w cmd name i count size total left uploaded).
Proof.
  revert uploaded. induction left as [|left IH]; intros uploaded; simpl.
  { by apply ends_ret. }
  apply ends_then; [by apply ends_popen|]. intros r.
  destruct (_ && _); [ends_auto|].
  destruct (_ =? _); [by apply ends_ret|].
  destruct (auth_indicator _); [|ends_auto].
  apply ends_then; [by apply ends_print|]. intros _.
  apply ends_then; [by apply ends_log|]. intros _.
  destruct (_ =? _)%N; [ends_auto|].
  apply ends_then; [by apply ends_log|]. intros _. apply IH.
Qed.

Lemma ends_create_upload_each tag table total count files i uploaded :
  ends (fun _ => True) (create_upload_each w tag table total count files i uploaded).
Proof.
  revert i uploaded.
  induction files as [|file later IH]; intros i uploaded;
    cbn [create_upload_each].
  { by apply ends_ret. }
  destruct (table !! file) as [size|]; [|ends_auto].
  apply ends_then; [apply ends_create_attempts|]. intros res.
  destruct res.2; [|ends_auto..].
  apply IH.
Qed.

Lemma ends_upload_to_existing_release tag files :
  ends (fun _ => True) (upload_to_existing_release w tag files).
Proof.
  unfold upload_to_existing_release.
  apply ends_then; [ends_auto|]. intros [tag'|]; [|by apply ends_ret].
  apply ends_then; [by apply ends_run_command|]. intros r.
  destruct (negb _); [ends_auto|].
  apply ends_then; [apply ends_get_confirmation|]. intros [|]; [|ends_auto].
  cbv zeta. apply ends_then; [by apply ends_log|]. intros _.
  apply ends_then; [apply ends_upload_each|].
  intros res. ends_auto.
Qed.

Lemma ends_create_release_with_progress cmd files :
  ends (fun _ => True) (create_release_with_progress w cmd files).
Proof.
  unfold create_release_with_progress. cbv zeta.
  apply ends_then; [by apply ends_log|]. intros _.
  destruct (cmd !! 3%nat); [|ends_auto].
  destruct (extend_option _ _ _ _); [|ends_auto].
  destruct (extend_option _ _ _ _); [|ends_auto].
  apply ends_then; [by apply ends_popen|]. intros r.
  destruct (negb _); [ends_auto|].
  apply ends_then; [apply ends_create_upload_each|].
  intros res. ends_auto.
Qed.

Lemma ends_create_release_with_direct_command cmd files :
  ends (fun _ => True) (create_release_with_direct_command w cmd files).
Proof. unfold create_release_with_direct_command. ends_auto. Qed.

Lemma ends_create_or_fall_back cmd files :
  ends (fun _ => True) (create_or_fall_back w cmd files).
Proof.
  unfold create_or_fall_back, handing.
  apply ends_then.
  { apply ends_then; [apply ends_log|]. intros _.
    apply ends_create_release_with_progress. }
  intros first. destruct (negb _); [|by apply ends_ret].
  apply ends_then; [apply ends_log|]. intros _.
  apply ends_create_release_with_direct_command.
Qed.

Lemma ends_interactive_upload_files tag files :
  ends zero_or_one (interactive_upload_files w tag files).
Proof.
  unfold interactive_upload_files, handing.
  destruct files as [|file files]; [ends_auto|].
  apply ends_then.
  { apply ends_then; [apply ends_log|]. intros _.
    apply ends_upload_to_existing_release. }
  intros done. ends_auto.
Qed.

Lemma ends_interactive_upload releases zips imgs shas :
  ends zero_or_one (interactive_upload w releases zips imgs shas).
Proof.
  unfold interactive_upload. cbv zeta.
  apply ends_then; [ends_auto|]. intros choice.
  apply ends_then; [ends_auto|].
  intros tag.
  apply ends_then; [apply ends_check_tag_exists|]. intros found.
  destruct (negb _); [ends_auto|].
  apply ends_then; [apply ends_select_files_for_release|]. intros files.
  apply ends_interactive_upload_files.
Qed.

Lemma ends_interactive_create_files tag title notes files :
  ends zero_or_one (interactive_create_files w tag title notes files).
Proof.
  unfold interactive_create_files.
  destruct files as [|file files]; [ends_auto|]. cbv zeta.
  apply ends_then; [apply ends_get_confirmation|]. intros [|]; [|ends_auto].
  apply ends_then; [apply ends_create_or_fall_back|]. intros final. ends_auto.
Qed.

Lemma ends_interactive_create zips imgs shas :
  ends zero_or_one (interactive_create w fuel zips imgs shas).
Proof.
  unfold interactive_create.
  apply ends_then; [ends_auto|]. intros named.
  apply ends_then; [ends_auto|]. intros change_title.
  apply ends_then; [ends_auto|]. intros title.
  apply ends_then; [apply ends_get_unique_tag|]. intros tag.
  apply ends_then; [apply ends_get_user_notes|]. intros notes.
  apply ends_then; [apply ends_select_files_for_release|]. intros files.
  apply ends_interactive_create_files.
Qed.

Lemma ends_interactive_mode : ends zero_or_one (interactive_mode w fuel).
Proof.
  unfold interactive_mode. cbv zeta.
  destruct (find_files_by_extension w ["zip"]) as [|z zs] eqn:Ez;
    destruct (find_files_by_extension w ["img"]) as [|img imgs] eqn:Ei.
  1: ends_auto.
  all: apply ends_then; [ends_auto|]; intros choice;
    destruct (bool_decide _); [|apply ends_interactive_create];
    apply ends_then; [apply ends_fetch_recent_releases|]; intros releases;
    destruct releases;
    [apply ends_then; [by apply ends_print|]; intros ?;
     apply ends_interactive_create
    |apply ends_interactive_upload].
Qed.

Lemma ends_main_files a zips files :
  ends zero_or_one (main_files w fuel a zips files).
Proof.
  unfold main_files. destruct files as [|file files]; [ends_auto|].
  destruct (truthy_upload a).
  - unfold main_upload, handing.
    apply ends_then; [by apply ends_run_command|]. intros r.
    destruct (negb _); [ends_auto|].
    apply ends_then.
    { apply ends_then; [apply ends_log|]. intros _.
      apply ends_upload_to_existing_release. }
    intros done. ends_auto.
  - unfold main_create. cbv zeta.
    destruct (match zips with [] => None | zipname :: _ => _ end) as [tag|];
      [|ends_auto].
    apply ends_then; [apply ends_get_unique_tag|]. intros tag'.
    apply ends_then; [apply ends_get_confirmation|]. intros [|]; [|ends_auto].
    apply ends_then; [apply ends_create_or_fall_back|]. intros final. ends_auto.
Qed.

Lemma ends_main a : ends zero_or_one (main w fuel a).
Proof.
  unfold main. cbv zeta.
  apply ends_then; [apply ends_check_github_auth|]. intros authenticated.
  destruct (negb _); [ends_auto|].
  apply ends_then; [apply ends_check_repository_access|]. intros reachable.
  destruct (negb _); [ends_auto|].
  destruct (negb _); [apply ends_interactive_mode|].
  destruct (find_files_by_extension w ["zip"]) as [|z zs] eqn:Ez;
    destruct (find_files_by_extension w ["img"]) as [|img imgs] eqn:Ei.
  1: ends_auto.
  all: apply ends_main_files.
Qed.

End program_ends.


(** X17.  Every run that ends exits with status 0 or 1, whatever the
    client answers and whatever is typed. *)
Theorem exit_status_zero_or_one
    (w : world) (fuel : nat) (a : args) (lines : list string) (code : Z) :
  (run w fuel a lines).1 = Some code -> code = 0 \/ code = 1.
Proof.
  unfold run. cbn [fst].
  pose proof (ends_main w fuel a (start lines)) as H.
  destruct (main w fuel a (start lines)).1 as [n| |]; simpl.
  - by intros [= <-].
  - intros [= <-]. by right.
  - done.
Qed.


(** The run that creates a release with [--all --yes] exits with 0. *)
Lemma exit_status_zero_or_one_witness : 0 = 0 \/ 0 = 1.
Proof.
  exact (exit_status_zero_or_one (scripted [] sizes_5_7) 1 flag_all_yes [] 0 eq_refl).
Defined.

(** ** Nothing is sent without the answer "y" *)

Section keeps_rules.

Context (L : string -> Prop) (E : event -> Prop).

Lemma keeps_ret {A} (Q : A -> Prop) a : Q a -> keeps L E Q (ret a).
Proof. intros H s HL HE. split; [done|]. split; [done|]. by intros b [= <-]. Qed.

Lemma keeps_raise {A} (Q : A -> Prop) e : keeps L E Q (raise e).
Proof. intros s HL HE. done. Qed.

Lemma keeps_diverge {A} (Q : A -> Prop) : keeps L E Q diverge.
Proof. intros s HL HE. done. Qed.

Lemma keeps_bind {A B} (Q1 : A -> Prop) (Q : B -> Prop) (m : M A) (f : A -> M B) :
  keeps L E Q1 m -> (forall a, Q1 a -> keeps L E Q (f a)) ->
  keeps L E Q (bind m f).
Proof.
  intros Hm Hf s HL HE. unfold bind.
  destruct (Hm s HL HE) as (HL1 & HE1 & HQ1).
  destruct (m s) as [[a| |] s1]; cbn [fst snd] in *; [|done..].
  by apply Hf; [apply HQ1|..].
Qed.

Lemma keeps_weaken {A} (Q Q' : A -> Prop) (m : M A) :
  (forall a, Q a -> Q' a) -> keeps L E Q m -> keeps L E Q' m.
Proof.
  intros HQ Hm s HL HE. destruct (Hm s HL HE) as (? & ? & H).
  split; [done|]. split; [done|]. intros a Ha. by apply HQ, H.
Qed.

Lemma keeps_then {A B} (Q : B -> Prop) (m : M A) (f : A -> M B) :
  keeps L E (fun _ => True) m -> (forall a, keeps L E Q (f a)) ->
  keeps L E Q (bind m f).
Proof. intros Hm Hf. eapply keeps_bind; [exact Hm|]. intros a _. apply Hf. Qed.

Lemma keeps_log e : E e -> keeps L E (fun _ => True) (log e).
Proof.
  intros He s HL HE. split; [done|]. split; [|done]. by constructor.
Qed.

Lemma keeps_print text : E (EvPrint text) -> keeps L E (fun _ => True) (print text).
Proof. apply keeps_log. Qed.

Lemma keeps_input prompt : E (EvInput prompt) -> keeps L E L (input prompt).
Proof.
  intros He s HL HE. unfold input.
  destruct (stdin s) as [|line rest]; cbn [fst snd stdin trace].
  - split; [done|]. split; [by constructor|done].
  - apply Forall_cons in HL as [Hline Hrest].
    split; [done|]. split; [by constructor|]. by intros a [= <-].
Qed.

Lemma keeps_popen w cmd : E (EvRun cmd) -> keeps L E (fun _ => True) (popen w cmd).
Proof.
  intros He s HL HE. split; [done|]. split; [|done]. by constructor.
Qed.

Lemma keeps_run_command w cmd :
  E (EvRun cmd) -> keeps L E (fun _ => True) (run_command w cmd).
Proof.
  intros He. unfold run_command.
  apply keeps_then; [by apply keeps_popen|]. intros r. by apply keeps_ret.
Qed.

Lemma keeps_ask_until {A} prompt (accept : string -> option A) complaint :
  E (EvInput prompt) ->
  (forall text, complaint = Some text -> E (EvPrint text)) ->
  keeps L E (fun a => exists line, L line /\ accept line = Some a)
    (ask_until prompt accept complaint).
Proof.
  intros Hin Hout [lines tr]. unfold ask_until. cbn [stdin trace].
  revert tr. induction lines as [|line lines IH]; intros tr HL HE; simpl.
  { split; [done|]. split; [by constructor|done]. }
  apply Forall_cons in HL as [Hline Hrest].
  destruct (accept line) as [a|] eqn:Ha.
  { split; [done|]. split; [by constructor|]. intros b [= <-]. eauto. }
  apply IH; [done|].
  destruct complaint as [text|]; repeat constructor; eauto.
Qed.

End keeps_rules.

Ltac keeps_step :=
  lazymatch goal with
  | |- keeps _ _ _ (bind _ _) => apply keeps_then; [|intros ?]
  | |- keeps _ _ _ (ret _) => apply keeps_ret
  | |- keeps _ _ _ (raise _) => apply keeps_raise
  | |- keeps _ _ _ diverge => apply keeps_diverge
  | |- keeps _ _ _ (print _) => apply keeps_print
  | |- keeps _ _ _ (log _) => apply keeps_log
  | |- keeps _ _ _ (input _) =>
      eapply keeps_weaken; [|apply keeps_input]; [done|]
  | |- keeps _ _ _ (run_command _ _) => apply keeps_run_command
  | |- keeps _ _ _ (popen _ _) => apply keeps_popen
  | |- keeps _ _ _ (ask_until _ _ _) =>
      eapply keeps_weaken; [|apply keeps_ask_until]; [done|..]
  | |- keeps _ _ _ (handing _ _ _) => unfold handing
  | |- keeps _ _ _ (if ?b then _ else _) => destruct b
  | |- keeps _ _ _ (match ?x with _ => _ end) => destruct x
  end.

Ltac keeps_auto := cbv zeta; repeat (keeps_step; cbv zeta); try done.

Section unconfirmed.

Context (w : world) (fuel : nat).

Lemma quiet_check_github_auth : keeps not_yes no_transfer (fun _ => True) (check_github_auth w).
Proof. unfold check_github_auth. keeps_auto. Qed.

Lemma quiet_check_repository_access : keeps not_yes no_transfer (fun _ => True) (check_repository_access w).
Proof. unfold check_repository_access. keeps_auto. Qed.

Lemma quiet_check_tag_exists tag : keeps not_yes no_transfer (fun _ => True) (check_tag_exists w tag).
Proof. unfold check_tag_exists. keeps_auto. Qed.

Lemma quiet_next_version tag version : keeps not_yes no_transfer (fun _ => True) (next_version w fuel tag version).
Proof.
  revert version. induction fuel as [|n IH]; intros version; simpl.
  { apply keeps_diverge. }
  apply keeps_then; [apply quiet_check_tag_exists|].
  intros []; [apply IH|by apply keeps_ret].
Qed.

Lemma quiet_get_unique_tag tag : keeps not_yes no_transfer (fun _ => True) (get_unique_tag w fuel tag).
Proof.
  unfold get_unique_tag.
  apply keeps_then; [apply quiet_check_tag_exists|]. intros taken.
  destruct taken; simpl; [|by apply keeps_ret].
  apply keeps_then; [by apply keeps_print|]. intros _.
  apply keeps_then; [apply quiet_next_version|]. intros version.
  keeps_auto.
Qed.

Lemma get_confirmation_declined :
  keeps not_yes no_transfer (fun confirmed => confirmed = false)
    (get_confirmation false).
Proof.
  unfold get_confirmation.
  eapply keeps_weaken; [|apply keeps_ask_until]; [|done|done].
  intros confirmed (line & Hline & Haccept). cbv zeta in Haccept.
  unfold not_yes in Hline. rewrite bool_decide_false in Haccept by done.
  case_bool_decide; congruence.
Qed.

Lemma quiet_read_notes count i notes : keeps not_yes no_transfer (fun _ => True) (read_notes count i notes).
Proof.
  revert i notes. induction count as [|count IH]; intros i notes; simpl.
  { by apply keeps_ret. }
  apply keeps_then; [keeps_auto|]. intros note.
  destruct (_ || _); [by apply keeps_ret|apply IH].
Qed.

Lemma quiet_get_user_notes interactive : keeps not_yes no_transfer (fun _ => True) (get_user_notes interactive).
Proof.
  unfold get_user_notes. destruct interactive; cbn [negb]; [|by apply keeps_ret].
  apply keeps_then; [apply quiet_read_notes|]. intros notes. keeps_auto.
Qed.

Lemma quiet_fetch_recent_releases limit : keeps not_yes no_transfer (fun _ => True) (fetch_recent_releases w limit).
Proof. unfold fetch_recent_releases. keeps_auto. Qed.

Lemma quiet_print_all texts : keeps not_yes no_transfer (fun _ => True) (print_all texts).
Proof.
  induction texts as [|text texts IH]; simpl; [by apply keeps_ret|].
  apply keeps_then; [by apply keeps_print|]. by intros _.
Qed.

Lemma quiet_select_files_for_release zips imgs shas :
  keeps not_yes no_transfer (fun _ => True) (select_files_for_release zips imgs shas).
Proof.
  unfold select_files_for_release.
  apply keeps_then; [keeps_auto|]. intros choice.
  apply keeps_then; [|intros ?; by apply keeps_ret].
  repeat case_bool_decide; try (by apply keeps_ret).
  apply keeps_then; [keeps_auto|]. intros selected.
  case_bool_decide; [keeps_auto|].
  apply keeps_then; [apply quiet_print_all|]. intros _. keeps_auto.
Qed.

Lemma quiet_upload_to_existing_release tag files :
  keeps not_yes no_transfer (fun _ => True) (upload_to_existing_release w tag files).
Proof.
  unfold upload_to_existing_release.
  apply keeps_then; [keeps_auto|]. intros [tag'|]; [|by apply keeps_ret].
  apply keeps_then; [by apply keeps_run_command|]. intros r.
  destruct (negb _); [keeps_auto|].
  eapply keeps_bind; [apply get_confirmation_declined|].
  intros confirmed ->. keeps_auto.
Qed.

Lemma quiet_interactive_upload_files tag files :
  keeps not_yes no_transfer (fun _ => True) (interactive_upload_files w tag files).
Proof.
  unfold interactive_upload_files. destruct files as [|file files]; [keeps_auto|].
  unfold handing.
  apply keeps_then.
  { apply keeps_then; [by apply keeps_log|]. intros _.
    apply quiet_upload_to_existing_release. }
  intros done. keeps_auto.
Qed.

Lemma quiet_interactive_upload releases zips imgs shas :
  keeps not_yes no_transfer (fun _ => True) (interactive_upload w releases zips imgs shas).
Proof.
  unfold interactive_upload. cbv zeta.
  apply keeps_then; [keeps_auto|]. intros choice.
  apply keeps_then; [keeps_auto|]. intros tag.
  apply keeps_then; [apply quiet_check_tag_exists|]. intros found.
  destruct (negb _); [keeps_auto|].
  apply keeps_then; [apply quiet_select_files_for_release|]. intros files.
  apply quiet_interactive_upload_files.
Qed.

Lemma quiet_interactive_create_files tag title notes files :
  keeps not_yes no_transfer (fun _ => True) (interactive_create_files w tag title notes files).
Proof.
  unfold interactive_create_files. destruct files as [|file files]; [keeps_auto|].
  cbv zeta.
  eapply keeps_bind; [apply get_confirmation_declined|].
  intros confirmed ->. keeps_auto.
Qed.

Lemma quiet_interactive_create zips imgs shas :
  keeps not_yes no_transfer (fun _ => True) (interactive_create w fuel zips imgs shas).
Proof.
  unfold interactive_create.
  apply keeps_then; [keeps_auto|]. intros named.
  apply keeps_then; [keeps_auto|]. intros change_title.
  apply keeps_then; [keeps_auto|]. intros title.
  apply keeps_then; [apply quiet_get_unique_tag|]. intros tag.
  apply keeps_then; [apply quiet_get_user_notes|]. intros notes.
  apply keeps_then; [apply quiet_select_files_for_release|]. intros files.
  apply quiet_interactive_create_files.
Qed.

Lemma quiet_interactive_mode : keeps not_yes no_transfer (fun _ => True) (interactive_mode w fuel).
Proof.
  unfold interactive_mode. cbv zeta.
  destruct (find_files_by_extension w ["zip"]) as [|z zs] eqn:Ez;
    destruct (find_files_by_extension w ["img"]) as [|img imgs] eqn:Ei.
  1: keeps_auto.
  all: apply keeps_then; [keeps_auto|]; intros choice;
    destruct (bool_decide _); [|apply quiet_interactive_create];
    apply keeps_then; [apply quiet_fetch_recent_releases|]; intros releases;
    destruct releases;
    [apply keeps_then; [by apply keeps_print|]; intros ?;
     apply quiet_interactive_create
    |apply quiet_interactive_upload].
Qed.

Lemma quiet_main_upload tag files : keeps not_yes no_transfer (fun _ => True) (main_upload w tag files).
Proof.
  unfold main_upload.
  apply keeps_then; [by apply keeps_run_command|]. intros r.
  destruct (negb _); [keeps_auto|].
  apply keeps_then.
  { unfold handing. apply keeps_then; [by apply keeps_log|]. intros _.
    apply quiet_upload_to_existing_release. }
  intros done. keeps_auto.
Qed.

Lemma quiet_main_create a zips files :
  arg_yes a = false -> keeps not_yes no_transfer (fun _ => True) (main_create w fuel a zips files).
Proof.
  intros Hyes. unfold main_create. cbv zeta.
  destruct (match zips with [] => None | zipname :: _ => _ end) as [tag|];
    [|keeps_auto].
  apply keeps_then; [apply quiet_get_unique_tag|]. intros tag'.
  rewrite Hyes.
  eapply keeps_bind; [apply get_confirmation_declined|].
  intros confirmed ->. keeps_auto.
Qed.

Lemma quiet_main a :
  arg_yes a = false \/ truthy_upload a = true -> keeps not_yes no_transfer (fun _ => True) (main w fuel a).
Proof.
  intros Ha. unfold main. cbv zeta.
  apply keeps_then; [apply quiet_check_github_auth|]. intros authenticated.
  destruct (negb _); [keeps_auto|].
  apply keeps_then; [apply quiet_check_repository_access|]. intros reachable.
  destruct (negb _); [keeps_auto|].
  destruct (negb _); [apply quiet_interactive_mode|].
  assert (forall files,
            keeps not_yes no_transfer (fun _ => True) (main_files w fuel a (find_files_by_extension w ["zip"]) files))
    as Hfiles.
  { intros files. unfold main_files. destruct files as [|file files]; [keeps_auto|].
    destruct (truthy_upload a) eqn:Hup; [apply quiet_main_upload|].
    apply quiet_main_create. by destruct Ha. }
  destruct (find_files_by_extension w ["zip"]) as [|z zs] eqn:Ez;
    destruct (find_files_by_extension w ["img"]) as [|img imgs] eqn:Ei.
  1: keeps_auto.
  all: apply Hfiles.
Qed.

End unconfirmed.

(** X19.  When no typed line is "y" or "Y", and the run is not one that
    creates a release with [--yes], the program runs no command that
    creates a release or uploads a file; [--yes] does not replace the answer
    when files go to an existing release. *)
Theorem nothing_sent_without_yes
    (w : world) (fuel : nat) (a : args) (lines : list string) :
  Forall not_yes lines ->
  arg_yes a = false \/ truthy_upload a = true ->
  Forall no_transfer (run w fuel a lines).2.
Proof.
  intros Hlines Ha. unfold run. cbn [snd].
  apply Forall_rev_iff.
  by apply (quiet_main w fuel a Ha (start lines)).
Qed.

(** The flag [--all] and the answer "n". *)
Lemma nothing_sent_without_yes_witness :
  Forall no_transfer (run (scripted [] sizes_5_7) 1 flag_all ["n"]).2.
Proof.
  apply (nothing_sent_without_yes (scripted [] sizes_5_7) 1 flag_all ["n"]).
  - repeat constructor. discriminate.
  - left. reflexivity.
Defined.

(** ** Runs without a terminal *)

Section unattended.

Context (w : world) (fuel : nat).

Lemma unattended_checks :
  emits unattended_event (check_github_auth w) /\
  emits unattended_event (check_repository_access w).
Proof.
  split.
  - unfold check_github_auth. cbv zeta.
    repeat (emits_step; cbv zeta); simpl; auto.
  - unfold check_repository_access. cbv zeta.
    repeat (emits_step; cbv zeta); simpl; auto.
Qed.

Lemma unattended_main_create a zips files :
  arg_yes a = true ->
  emits unattended_event (main_create w fuel a zips files).
Proof.
  intros Hyes. unfold main_create. cbv zeta. rewrite Hyes.
  destruct (match zips with [] => None | zipname :: _ => _ end) as [tag|];
    [|by emits_auto].
  apply emits_bind; [by apply emits_get_unique_tag|]. intros tag'.
  unfold get_confirmation.
  apply emits_bind; [apply emits_ret|]. intros confirmed.
  destruct confirmed; [|by emits_auto].
  apply emits_bind; [by apply emits_create_or_fall_back|]. intros final.
  by emits_auto.
Qed.

Lemma unattended_main a :
  arg_yes a = true -> truthy_upload a = false ->
  emits unattended_event (main w fuel a).
Proof.
  intros Hyes Hup. unfold main. cbv zeta.
  destruct unattended_checks as [Hauth Hrepo].
  apply emits_bind; [done|]. intros authenticated.
  destruct (negb _); [apply emits_ret|].
  apply emits_bind; [done|]. intros reachable.
  destruct (negb _); [apply emits_ret|].
  assert (any_flag a = true) as ->.
  { unfold any_flag. rewrite Hyes. by rewrite !orb_true_r. }
  cbn [negb].
  assert (forall files,
            emits unattended_event
              (main_files w fuel a (find_files_by_extension w ["zip"]) files))
    as Hfiles.
  { intros files. unfold main_files. rewrite Hup.
    destruct files as [|file files]; [by emits_auto|].
    by apply unattended_main_create. }
  destruct (find_files_by_extension w ["zip"]) as [|z zs] eqn:Ez;
    destruct (find_files_by_extension w ["img"]) as [|img imgs] eqn:Ei.
  1: by emits_auto.
  all: apply Hfiles.
Qed.

End unattended.

(** X20.  With [--yes] and without [--upload] the program asks nothing,
    save for the question of the authentication check when the token lacks
    the scope: a release is created without a terminal. *)
Theorem yes_flag_runs_unattended
    (w : world) (fuel : nat) (a : args) (lines : list string) :
  arg_yes a = true -> truthy_upload a = false ->
  Forall unattended_event (run w fuel a lines).2.
Proof.
  intros Hyes Hup. unfold run. cbn [snd]. apply Forall_rev_iff.
  destruct (unattended_main w fuel a Hyes Hup (start lines)) as (new & E & Hnew).
  rewrite E. simpl. by rewrite app_nil_r.
Qed.


(** The flags [--all --yes] and no input. *)
Lemma yes_flag_runs_unattended_witness :
  Forall unattended_event (run (scripted [] sizes_5_7) 1 flag_all_yes []).2.
Proof.
  exact (yes_flag_runs_unattended (scripted [] sizes_5_7) 1 flag_all_yes []
           eq_refl eq_refl).
Defined.

(** ** The start-up checks and the tag of a new release *)

(** X21.  When the client reports that it is not authenticated, the run
    ends with status 1 after that one command, with the report, the output
    of the client and the advice; the flags and the typed lines play no
    part. *)
Theorem auth_failure_aborts
    (w : world) (fuel : nat) (a : args) (lines : list string) :
  let r := client w [] ["gh"; "auth"; "status"] in
  exit_code r <> 0 ->
  run w fuel a lines
  = (Some 1,
     [EvRun ["gh"; "auth"; "status"];
      EvPrint "Error: GitHub CLI is not authenticated properly.";
      EvPrint (Py.strip (stdout r));
      EvPrint "Please run 'gh auth login' to authenticate before using this script."]).
Proof.
  intros r Hcode. apply Z.eqb_neq in Hcode.
  unfold run, main, check_github_auth.
  unfold run_command, print. unfold bind, popen, log, ret, start.
  cbn [fst snd stdin trace]. fold r. rewrite Hcode. done.
Qed.

Lemma auth_failure_aborts_witness :
  run logged_out 1 flag_all_yes []
  = (Some 1,
     [EvRun ["gh"; "auth"; "status"];
      EvPrint "Error: GitHub CLI is not authenticated properly.";
      EvPrint "You are not logged into any GitHub hosts.";
      EvPrint "Please run 'gh auth login' to authenticate before using this script."]).
Proof.
  apply (auth_failure_aborts logged_out 1 flag_all_yes []). discriminate.
Defined.

(** X22.  When the authentication check passes and the client cannot show
    the repository, the run ends with status 1 after that second command,
    with the report and the output of the client. *)
Theorem repo_failure_aborts
    (w : world) (fuel : nat) (a : args) (lines : list string) (s1 : state) :
  let r := client w (trace s1) ["gh"; "repo"; "view"] in
  check_github_auth w (start lines) = (Ok true, s1) ->
  exit_code r <> 0 ->
  run w fuel a lines
  = (Some 1,
     rev (trace s1)
     ++ [EvRun ["gh"; "repo"; "view"];
         EvPrint "Error: Cannot access repository.";
         EvPrint (Py.strip (stdout r))]).
Proof.
  intros r Hauth Hcode. apply Z.eqb_neq in Hcode.
  assert (main w fuel a (start lines)
          = (Ok 1, mkState (stdin s1)
                     (EvPrint (Py.strip (stdout r))
                      :: EvPrint "Error: Cannot access repository."
                      :: EvRun ["gh"; "repo"; "view"] :: trace s1))) as Hmain.
  { unfold main. unfold bind at 1. rewrite Hauth. cbn [negb].
    unfold check_repository_access.
    unfold run_command, print. unfold bind, popen, log, ret.
    cbn [fst snd stdin trace]. fold r. by rewrite Hcode. }
  unfold run. rewrite Hmain. cbn [fst snd trace exit_status].
  f_equal. simpl. by rewrite <- !app_assoc.
Qed.

Lemma repo_failure_aborts_witness :
  run no_repository 1 flag_all_yes []
  = (Some 1,
     [EvRun ["gh"; "auth"; "status"]; EvPrint " OK!";
      EvRun ["gh"; "repo"; "view"];
      EvPrint "Error: Cannot access repository.";
      EvPrint "no git remotes found"]).
Proof.
  apply (repo_failure_aborts no_repository 1 flag_all_yes [] _ eq_refl).
  discriminate.
Defined.

(** X23.  With flags and without [--upload], a plan that holds a file and
    no first archive whose name yields a tag (no archive at all, or one
    whose name does not match) ends the run with status 1 before any release
    is looked up: images alone cannot be released with flags. *)
Theorem flags_need_archive_tag
    (w : world) (fuel : nat) (a : args) (lines : list string) (s1 s2 : state) :
  let zips := find_files_by_extension w ["zip"] in
  let imgs := find_files_by_extension w ["img"] in
  let shas := find_files_by_extension w ["sha256sum"] in
  check_github_auth w (start lines) = (Ok true, s1) ->
  check_repository_access w s1 = (Ok true, s2) ->
  any_flag a = true -> truthy_upload a = false ->
  add_sha_files (files_by_flags a zips imgs) zips shas <> [] ->
  match zips with
  | zipname :: _ => extract_tag_from_zip zipname
  | [] => None
  end = None ->
  run w fuel a lines
  = (Some 1,
     rev (trace s2) ++ [EvPrint "Error: Could not extract tag from ZIP filename"]).
Proof.
  intros zips imgs shas Hauth Hrepo Hflag Hup Hplan Htag.
  assert (main w fuel a (start lines)
          = (Ok 1, mkState (stdin s2)
                     (EvPrint "Error: Could not extract tag from ZIP filename"
                      :: trace s2))) as Hmain.
  { unfold main. unfold bind at 1. rewrite Hauth. cbn [negb].
    unfold bind at 1. rewrite Hrepo. cbn [negb]. rewrite Hflag. cbn [negb].
    cbv zeta. fold zips imgs shas.
    assert (main_files w fuel a zips
              (add_sha_files (files_by_flags a zips imgs) zips shas) s2
            = (Ok 1, mkState (stdin s2)
                       (EvPrint "Error: Could not extract tag from ZIP filename"
                        :: trace s2))) as Hfiles.
    { unfold main_files.
      destruct (add_sha_files _ _ _) as [|file files]; [done|].
      rewrite Hup. unfold main_create. cbv zeta. rewrite Htag. done. }
    destruct zips as [|z zs] eqn:Ez; [|done].
    destruct imgs as [|img imgs'] eqn:Ei; [|done].
    destruct Hplan. unfold files_by_flags. by repeat case_match. }
  unfold run. by rewrite Hmain.
Qed.

(** One image, the flags [--all --yes]. *)
Lemma flags_need_archive_tag_witness :
  run image_only 1 flag_all_yes []
  = (Some 1,
     [EvRun ["gh"; "auth"; "status"]; EvPrint " OK!";
      EvRun ["gh"; "repo"; "view"];
      EvPrint "Error: Could not extract tag from ZIP filename"]).
Proof.
  apply (flags_need_archive_tag image_only 1 flag_all_yes [] _ _ eq_refl eq_refl
           eq_refl eq_refl); [discriminate|reflexivity].
Defined.
